(** * Table Quantities (release 1.0.0-beta.5)

    The directive parser, the expansion engine, the quantity ledger, the
    draw wrapper and the [preCreateItem] listener of the module script,
    embedded as Rocq functions, with the properties of the specification
    proved or refuted on them.

    JavaScript strings are modelled as [string]; a character stands for one
    code unit below 256.  Objects with identity (the [TableResult] documents)
    live in a store keyed by reference, because the engine updates them in
    place and keys its [WeakMap] by identity.  Everything the host provides
    (dice, [fromUuid], the tables' own draw, chat, hooks, settings) is a
    parameter. *)

From Stdlib Require Import ZArith Ascii String List Lia.
From stdpp Require Import gmap strings list fin_maps pretty.

Local Open Scope Z_scope.

(* ===================================================================== *)
(** ** Strings and the two regular expressions                            *)
(* ===================================================================== *)

Module Re.

(** The two patterns of the module use only literal characters and greedy
    repetitions of a character class, some of them parenthesised. *)
Inductive Atom :=
| Chr (c : ascii)
| Many (cls : ascii → bool) (least : nat) (capture : bool).

Definition lit (s : string) : list Atom := Chr <$> list_ascii_of_string s.

(** [\s] on code units below 256: TAB, LF, VT, FF, CR, SPACE, NBSP. *)
Definition is_space (c : ascii) : bool :=
  match c with
  | "009" | "010" | "011" | "012" | "013" | " " | "160" => true
  | _ => false
  end%char.

(** [[^\]]] and [[^}]]. *)
Definition not_chr (x : ascii) (c : ascii) : bool := negb (Ascii.eqb c x).

(** Length of the longest prefix of [s] inside the class. *)
Fixpoint run (cls : ascii → bool) (s : list ascii) : nat :=
  match s with
  | c :: s' => if cls c then S (run cls s') else O
  | [] => O
  end.

(** Backtracking match of the whole pattern at the head of [s]; the result
    lists the captured groups in order.  A repetition first takes the
    longest run and gives characters back one at a time. *)
Fixpoint matchHere (pat : list Atom) (s : list ascii) : option (list string) :=
  match pat with
  | [] => Some []
  | Chr c :: pat' =>
      match s with
      | c' :: s' => if Ascii.eqb c c' then matchHere pat' s' else None
      | [] => None
      end
  | Many cls least capture :: pat' =>
      let longest := run cls s in
      if (longest <? least)%nat then None else
      (fix back (extra : nat) : option (list string) :=
         let k := (least + extra)%nat in
         match matchHere pat' (drop k s) with
         | Some gs =>
             Some (if capture then string_of_list_ascii (take k s) :: gs else gs)
         | None => match extra with O => None | S e => back e end
         end) (longest - least)%nat
  end.

(** Leftmost match: the start position moves right until the pattern fits. *)
Fixpoint search (pat : list Atom) (s : list ascii) : option (list string) :=
  match matchHere pat s with
  | Some gs => Some gs
  | None => match s with [] => None | _ :: s' => search pat s' end
  end.

(** [str.match(re)] for a pattern without the [g] flag: the groups of the
    leftmost match, or [None] for [null]. *)
Definition match_ (str : string) (pat : list Atom) : option (list string) :=
  search pat (list_ascii_of_string str).

(** [m[i]] for [i >= 1]. *)
Definition group (m : list string) (i : nat) : string :=
  default "" (m !! (i - 1)%nat).

End Re.

(** [TEXT_PATTERN], atom by atom: the literal [[[/r], then [\s+], group 1
    [[^\]]+], the literal []]], [\s*], the literal [@UUID[], group 2 [[^\]]+],
    the literal []{], group 3 (any run of characters other than the closing
    brace, possibly empty) and the closing brace. *)
Definition TEXT_PATTERN : list Re.Atom :=
  Re.lit "[[/r" ++ [Re.Many Re.is_space 1 false; Re.Many (Re.not_chr "]") 1 true]
  ++ Re.lit "]]" ++ [Re.Many Re.is_space 0 false]
  ++ Re.lit "@UUID[" ++ [Re.Many (Re.not_chr "]") 1 true]
  ++ Re.lit "]{" ++ [Re.Many (Re.not_chr "}") 0 true]
  ++ Re.lit "}".

(** [ROLL_PATTERN]: the literal [[[/r], [\s+], group 1 [[^\]]+], the literal []]]. *)
Definition ROLL_PATTERN : list Re.Atom :=
  Re.lit "[[/r" ++ [Re.Many Re.is_space 1 false; Re.Many (Re.not_chr "]") 1 true]
  ++ Re.lit "]]".

Definition MODULE_ID : string := "table-quantities".

Definition MAX_RECURSION_DEPTH : Z := 10.

(** [String.prototype.trim]. *)
Fixpoint trimStart (s : list ascii) : list ascii :=
  match s with
  | c :: s' => if Re.is_space c then trimStart s' else s
  | [] => []
  end.

Definition trim (s : string) : string :=
  string_of_list_ascii
    (rev (trimStart (rev (trimStart (list_ascii_of_string s))))).

(* ===================================================================== *)
(** ** Table results and the directive parser                             *)
(* ===================================================================== *)

(** The fields of a [TableResult] that the module reads or updates. *)
Record TableResult := mkTableResult {
  r_type : string;
  r_description : option string;
  r_documentUuid : option string;
  r_name : string;
  r_img : option string
}.

(** The object returned by [parseQuantityResult]. *)
Record Parsed := mkParsed {
  p_formula : string;
  p_uuid : string;
  p_name : string
}.

(** Truthiness of a string-or-null value. *)
Definition truthy (v : option string) : bool :=
  match v with
  | Some s => negb (String.eqb s "")
  | None => false
  end.

Definition parseQuantityResult (result : TableResult) : option Parsed :=
  let description := default "" (r_description result) in
  let document_case :=
    if String.eqb (r_type result) "document" && truthy (r_documentUuid result)
    then match Re.match_ description ROLL_PATTERN with
         | Some rollMatch =>
             Some {| p_formula := Re.group rollMatch 1;
                     p_uuid := default "" (r_documentUuid result);
                     p_name := r_name result |}
         | None => None
         end
    else None in
  match document_case with
  | Some parsed => Some parsed
  | None =>
      if String.eqb (r_type result) "text"
      then match Re.match_ description TEXT_PATTERN with
           | Some fullMatch =>
               Some {| p_formula := Re.group fullMatch 1;
                       p_uuid := Re.group fullMatch 2;
                       p_name := Re.group fullMatch 3 |}
           | None => None
           end
      else None
  end.

(* ===================================================================== *)
(** ** Host values, effects and the module state                          *)
(* ===================================================================== *)

(** Plain JavaScript data, for the creation payload of [preCreateItem]. *)
Inductive JsVal :=
| JUndefined
| JNull
| JBool (b : bool)
| JNumber (n : Z)
| JString (s : string)
| JObject (fields : JsFields)
with JsFields :=
| FNil
| FCons (key : string) (value : JsVal) (rest : JsFields).

Inductive Error :=
| TypeError
| HostError (msg : string).

(** What a computation ends in: a value, a thrown error, or no answer at all
    (the recursion through [draw] did not come back). *)
Inductive outcome (A : Type) :=
| Ret (a : A)
| Throw (e : Error)
| Diverge.
Arguments Ret {A} a.
Arguments Throw {A} e.
Arguments Diverge {A}.

Inductive LogEntry :=
| Warn (msg : string)
| LogError (msg : string) (err : Error)
| Log (msg : string).

(** A [RollTable] document, as far as the module looks at it. *)
Record Table := mkTable { t_uuid : string; t_name : string }.

(** What [fromUuid] can resolve to. *)
Inductive Document :=
| DocRollTable (table : Table)
| DocItem (img : option string)
| DocOther.

Record DrawOptions := mkDrawOptions {
  o_displayChat : option bool;
  o_recursive : option bool;
  o_rollMode : option string
}.

(** The object a draw resolves to; [dr_results] holds references. *)
Record DrawResult := mkDrawResult { dr_results : list nat; dr_roll : Z }.

(** The value stored in the [resultQuantities] WeakMap.  The item branch
    stores no [expandedToSubResults] property at all. *)
Record QuantityData := mkQuantityData {
  q_quantity : Z;
  q_documentUuid : string;
  q_name : string;
  q_expandedToSubResults : option bool
}.

(** The [expandedToChildren] of the specification: the property read as a
    JavaScript condition, where a missing property is falsy. *)
Definition expandedToChildren (q : QuantityData) : bool :=
  default false (q_expandedToSubResults q).

Record ChatData := mkChatData {
  c_flavor : string;
  c_content : string;
  c_whisperToGMs : bool
}.

Record Settings := mkSettings { quantityPath : string; modifyChat : bool }.

Section Effects.

(** The host's own state: dice, documents, chat log, listeners. *)
Variable World : Type.

(** The module's two globals, the console, the store of [TableResult]
    documents and the host's state. *)
Record State := mkState {
  world : World;
  store : gmap nat TableResult;
  resultQuantities : gmap nat QuantityData;
  pendingQuantities : gmap string (list Z);
  console : list LogEntry
}.

Definition M (A : Type) : Type := State → outcome A * State.

Definition ret {A} (a : A) : M A := fun st => (Ret a, st).
Definition throw {A} (e : Error) : M A := fun st => (Throw e, st).
Definition diverge {A} : M A := fun st => (Diverge, st).

Definition bind {A B} (m : M A) (k : A → M B) : M B :=
  fun st =>
    match m st with
    | (Ret a, st') => k a st'
    | (Throw e, st') => (Throw e, st')
    | (Diverge, st') => (Diverge, st')
    end.

Definition set_world (w : World) (st : State) : State :=
  mkState w (store st) (resultQuantities st) (pendingQuantities st) (console st).
Definition set_store (s : gmap nat TableResult) (st : State) : State :=
  mkState (world st) s (resultQuantities st) (pendingQuantities st) (console st).
Definition set_resultQuantities (q : gmap nat QuantityData) (st : State) : State :=
  mkState (world st) (store st) q (pendingQuantities st) (console st).
Definition set_pendingQuantities (p : gmap string (list Z)) (st : State) : State :=
  mkState (world st) (store st) (resultQuantities st) p (console st).
Definition set_console (c : list LogEntry) (st : State) : State :=
  mkState (world st) (store st) (resultQuantities st) (pendingQuantities st) c.

(** A call into the host: it sees and changes the host's state only. *)
Definition host {A} (f : World → (A + Error) * World) : M A :=
  fun st =>
    match f (world st) with
    | (inl a, w) => (Ret a, set_world w st)
    | (inr e, w) => (Throw e, set_world w st)
    end.

Definition emit (entry : LogEntry) : M unit :=
  fun st => (Ret tt, set_console (console st ++ [entry]) st).

(** Reading a field of [result]; a reference to nothing is a [TypeError]. *)
Definition readResult (result : nat) : M TableResult :=
  fun st =>
    match store st !! result with
    | Some r => (Ret r, st)
    | None => (Throw TypeError, st)
    end.

(** [result.updateSource({type, documentUuid, name, description, img})]:
    the host's update channel; the five fields are all that is modelled of
    a result, so the update writes the whole record. *)
Definition updateSource (result : nat) (changes : TableResult) : M unit :=
  fun st => (Ret tt, set_store (<[result := changes]> (store st)) st).

(** [resultQuantities.set(result, data)]. *)
Definition resultQuantities_set (result : nat) (data : QuantityData) : M unit :=
  fun st => (Ret tt, set_resultQuantities (<[result := data]> (resultQuantities st)) st).

(** [if (!pendingQuantities.has(uuid)) pendingQuantities.set(uuid, []);
     pendingQuantities.get(uuid).push(quantity)]. *)
Definition pendingQuantities_push (uuid : string) (quantity : Z)
    (pending : gmap string (list Z)) : gmap string (list Z) :=
  let pending' :=
    match pending !! uuid with
    | Some _ => pending
    | None => <[uuid := []]> pending
    end in
  <[uuid := default [] (pending' !! uuid) ++ [quantity]]> pending'.

Definition enqueue (uuid : string) (quantity : Z) : M unit :=
  fun st =>
    (Ret tt, set_pendingQuantities (pendingQuantities_push uuid quantity (pendingQuantities st)) st).

End Effects.

Arguments mkState {World}.
Arguments world {World}.
Arguments store {World}.
Arguments resultQuantities {World}.
Arguments pendingQuantities {World}.
Arguments console {World}.
Arguments ret {World A}.
Arguments throw {World A}.
Arguments diverge {World A}.
Arguments bind {World A B}.
Arguments set_world {World}.
Arguments set_store {World}.
Arguments set_resultQuantities {World}.
Arguments set_pendingQuantities {World}.
Arguments set_console {World}.
Arguments host {World A}.
Arguments emit {World}.
Arguments readResult {World}.
Arguments updateSource {World}.
Arguments resultQuantities_set {World}.
Arguments enqueue {World}.

Notation "'let!' x ':=' m 'in' k" := (bind m (fun x => k))
  (at level 10, x name, m at level 100, k at level 200).
Notation "m ';;' k" := (bind m (fun _ => k))
  (at level 100, k at level 200, right associativity).

(* ===================================================================== *)
(** ** The expansion engine                                               *)
(* ===================================================================== *)

Section Engine.

Context {World : Type}.

(** [new Roll(f)], [roll.evaluate()] and [roll.total], in one host call; the
    total is an integer, as the specification has it. *)
Variable Roll_evaluate : string → World → (Z + Error) * World.
Variable fromUuid : string → World → (option Document + Error) * World.

(** [doc.draw(options)]: whatever method the table carries when the engine
    calls it.  It may run any code, so it acts on the whole state. *)
Variable draw : Table → DrawOptions → State World → outcome DrawResult * State World.

Definition evaluateFormula (formula : string) : M World Z :=
  host (Roll_evaluate (trim formula)).

(** The [for] loop of the table branch; [n] is the number of rounds left,
    [recur] stands for [processResults]. *)
Fixpoint drawLoop (recur : list nat → Z → M World (list nat))
    (table : Table) (depth : Z) (n : nat) (subResults : list nat)
    : M World (list nat) :=
  match n with
  | O => ret subResults
  | S n' =>
      let! d := draw table (mkDrawOptions (Some false) (Some true) None) in
      let! processed := recur (dr_results d) (depth + 1) in
      drawLoop recur table depth n' (subResults ++ processed)
  end.

(** The body of [processResult]. *)
Definition processResult_body (recur : list nat → Z → M World (list nat))
    (result : nat) (parsed : Parsed) (depth : Z) : M World (list nat) :=
  let! quantity := evaluateFormula (p_formula parsed) in
  if quantity <=? 0 then ret [result] else
  let! doc := host (fromUuid (p_uuid parsed)) in
  match doc with
  | None =>
      emit (Warn (MODULE_ID +:+ " | Could not resolve UUID: " +:+ p_uuid parsed)) ;;
      ret [result]
  | Some (DocRollTable table) =>
      if depth >=? MAX_RECURSION_DEPTH then
        emit (Warn (MODULE_ID +:+ " | Max recursion depth reached for table: "
                    +:+ p_name parsed)) ;;
        ret [result]
      else
        let! subResults := drawLoop recur table depth (Z.to_nat quantity) [] in
        resultQuantities_set result
          (mkQuantityData quantity (p_uuid parsed) (p_name parsed) (Some true)) ;;
        ret subResults
  | Some (DocItem img) =>
      let! r := readResult result in
      (if String.eqb (r_type r) "text" then
         updateSource result
           {| r_type := "document";
              r_documentUuid := Some (p_uuid parsed);
              r_name := p_name parsed;
              r_description := Some "";
              r_img := img |}
       else ret tt) ;;
      resultQuantities_set result
        (mkQuantityData quantity (p_uuid parsed) (p_name parsed) None) ;;
      enqueue (p_uuid parsed) quantity ;;
      ret [result]
  | Some DocOther =>
      emit (Warn (MODULE_ID +:+ " | Unsupported document type for UUID: "
                  +:+ p_uuid parsed)) ;;
      ret [result]
  end.

(** The [for ... of] loop of [processResults]. *)
Fixpoint resultsLoop (recur : list nat → Z → M World (list nat))
    (depth : Z) (results : list nat) (processed : list nat)
    : M World (list nat) :=
  match results with
  | [] => ret processed
  | result :: rest =>
      let! r := readResult result in
      match parseQuantityResult r with
      | Some parsed =>
          let! expanded := processResult_body recur result parsed depth in
          resultsLoop recur depth rest (processed ++ expanded)
      | None => resultsLoop recur depth rest (processed ++ [result])
      end
  end.

(** The recursion of [processResults] through [processResult], unrolled
    [fuel] levels deep. *)
Fixpoint processResults_fuel (fuel : nat) (results : list nat) (depth : Z)
    : M World (list nat) :=
  match fuel with
  | O => diverge
  | S fuel' => resultsLoop (processResults_fuel fuel') depth results []
  end.

(** [processResults(results, depth)].  A call at [depth] nests at most
    [MAX_RECURSION_DEPTH - depth] further calls, so this many levels are
    all it can use ([processResults_unfold] below). *)
Definition processResults (results : list nat) (depth : Z) : M World (list nat) :=
  processResults_fuel (S (Z.to_nat (MAX_RECURSION_DEPTH - depth))) results depth.

Definition processResult (result : nat) (parsed : Parsed) (depth : Z)
    : M World (list nat) :=
  processResult_body processResults result parsed depth.

(** [api.getQuantity(result)]. *)
Definition getQuantity (result : nat) (st : State World) : option QuantityData :=
  resultQuantities st !! result.

(** One round of the loop of [processResults]: what [result] becomes. *)
Definition expandOne (result : nat) (depth : Z) : M World (list nat) :=
  let! r := readResult result in
  match parseQuantityResult r with
  | Some parsed => processResult result parsed depth
  | None => ret [result]
  end.

(** [n] draws from [table] in a row, each followed by the expansion of what
    it drew one level down; [chunks] lists the expanded results draw by
    draw.  This is the specification the loop of the table branch is
    compared with. *)
Inductive draw_chain (table : Table) (depth : Z)
    : nat → State World → list (list nat) → State World → Prop :=
| chain_done st : draw_chain table depth 0 st [] st
| chain_draw n st d st1 out st2 chunks st3 :
    draw table (mkDrawOptions (Some false) (Some true) None) st = (Ret d, st1) →
    processResults (dr_results d) (depth + 1) st1 = (Ret out, st2) →
    draw_chain table depth n st2 chunks st3 →
    draw_chain table depth (S n) st (out :: chunks) st3.

End Engine.

(** Putting [acc] in front of the list a computation returned. *)
Definition prepend {World} (acc : list nat) (x : outcome (list nat) * State World)
    : outcome (list nat) * State World :=
  match x with
  | (Ret out, st) => (Ret (acc ++ out), st)
  | other => other
  end.

(* ===================================================================== *)
(** ** The draw wrapper and the chat report                               *)
(* ===================================================================== *)

(** The double-quote character, as a string. *)
Definition dquote : string := String "034"%char "".

(** How the [try] block of [wrappedDraw] ends, with the value the variable
    [drawResult] has at that point ([None] for [undefined]). *)
Inductive TryEnd :=
| Completed (drawResult : DrawResult)
| Caught (err : Error) (drawResult : option DrawResult)
| Stuck.

Section Wrapper.

Context {World : Type}.

Variable Roll_evaluate : string → World → (Z + Error) * World.
Variable fromUuid : string → World → (option Document + Error) * World.
Variable TextEditor_enrichHTML : string → World → (string + Error) * World.
Variable ChatMessage_create : ChatData → World → (unit + Error) * World.
Variable Hooks_callAll :
  string → list nat → gmap nat QuantityData → World → (unit + Error) * World.
(** [game.settings.get(MODULE_ID, ...)] for the two registered settings. *)
Variable game_settings : World → Settings.
Variable draw : Table → DrawOptions → State World → outcome DrawResult * State World.

Definition quantityLine (q : QuantityData) : string :=
  "<li>" +:+ pretty (q_quantity q) +:+ "x @UUID[" +:+ q_documentUuid q
  +:+ "]{" +:+ q_name q +:+ "}</li>".

Definition sendQuantityChat (table : Table) (results : list nat) (roll : Z)
    (rollMode : option string) : M World unit :=
  fun st =>
    let quantityEntries := omap (fun r => resultQuantities st !! r) results in
    match quantityEntries with
    | [] => (Ret tt, st)
    | _ =>
        let lines := quantityLine <$> quantityEntries in
        let content :=
          "<div class=" +:+ dquote +:+ "table-quantities-results" +:+ dquote
          +:+ "><ul>" +:+ foldr String.append "" lines +:+ "</ul></div>" in
        (let! enrichedContent := host (TextEditor_enrichHTML content) in
         host (ChatMessage_create
                 {| c_flavor := "Table Quantities from <strong>" +:+ t_name table
                                +:+ "</strong>";
                    c_content := enrichedContent;
                    c_whisperToGMs := bool_decide (rollMode = Some "gmroll") |})) st
    end.

(** The steps of the [try] block that follow the expansion: the chat report,
    when wanted, and the [resultsReady] call. *)
Definition reportAndNotify (this : Table) (options : DrawOptions)
    (drawResult : DrawResult) : M World unit :=
  fun st =>
    let wantChat := negb (bool_decide (o_displayChat options = Some false)) in
    let modifyChat := modifyChat (game_settings (world st)) in
    ((if wantChat && modifyChat
      then sendQuantityChat this (dr_results drawResult) (dr_roll drawResult)
             (o_rollMode options)
      else ret tt) ;;
     fun st => host (Hooks_callAll (MODULE_ID +:+ ".resultsReady")
                       (dr_results drawResult) (resultQuantities st)) st) st.

(** The [try] block of [wrappedDraw]. *)
Definition wrappedDraw_try (this : Table) (wrapped : DrawOptions → M World DrawResult)
    (options : DrawOptions) (st : State World) : TryEnd * State World :=
  match wrapped options st with
  | (Diverge, st1) => (Stuck, st1)
  | (Throw err, st1) => (Caught err None, st1)
  | (Ret drawResult, st1) =>
      match processResults Roll_evaluate fromUuid draw (dr_results drawResult) 0 st1 with
      | (Diverge, st2) => (Stuck, st2)
      | (Throw err, st2) => (Caught err (Some drawResult), st2)
      | (Ret results, st2) =>
          let drawResult := mkDrawResult results (dr_roll drawResult) in
          match reportAndNotify this options drawResult st2 with
          | (Diverge, st3) => (Stuck, st3)
          | (Throw err, st3) => (Caught err (Some drawResult), st3)
          | (Ret _, st3) => (Completed drawResult, st3)
          end
      end
  end.

(** [wrappedDraw(wrapped, options)] with [this] the table drawn from. *)
Definition wrappedDraw (this : Table) (wrapped : DrawOptions → M World DrawResult)
    (options : DrawOptions) : M World DrawResult :=
  fun st =>
    match wrappedDraw_try this wrapped options st with
    | (Completed drawResult, st') => (Ret drawResult, st')
    | (Caught err drawResult, st') =>
        (emit (LogError (MODULE_ID +:+ " | Error processing table draw:") err) ;;
         match drawResult with
         | None => wrapped options
         | Some drawResult => ret drawResult
         end) st'
    | (Stuck, st') => (Diverge, st')
    end.

(** The function [monkeyPatchDraw] installs: the same body, around
    [original.call(this, options)]. *)
Definition monkeyPatchDraw (original : Table → DrawOptions → M World DrawResult)
    (this : Table) (options : DrawOptions) : M World DrawResult :=
  wrappedDraw this (original this) options.

End Wrapper.

Section Installed.

Context {World : Type}.

Variable Roll_evaluate : string → World → (Z + Error) * World.
Variable fromUuid : string → World → (option Document + Error) * World.
Variable TextEditor_enrichHTML : string → World → (string + Error) * World.
Variable ChatMessage_create : ChatData → World → (unit + Error) * World.
Variable Hooks_callAll :
  string → list nat → gmap nat QuantityData → World → (unit + Error) * World.
Variable game_settings : World → Settings.
(** The host's own [RollTable.prototype.draw], before the module loads. *)
Variable original_draw : Table → DrawOptions → World → (DrawResult + Error) * World.

(** [RollTable.prototype.draw] once the [init] hook has run: either
    registration replaces the method by the wrapper, so the [doc.draw] of
    [processResult] is the wrapper again.  [fuel] bounds how many wrappers
    deep a call may go. *)
Fixpoint RollTable_draw (fuel : nat) (table : Table) (options : DrawOptions)
    : M World DrawResult :=
  match fuel with
  | O => diverge
  | S fuel' =>
      wrappedDraw Roll_evaluate fromUuid TextEditor_enrichHTML ChatMessage_create
        Hooks_callAll game_settings (RollTable_draw fuel')
        table (fun options => host (original_draw table options)) options
  end.

End Installed.

(* ===================================================================== *)
(** ** The [preCreateItem] listener                                       *)
(* ===================================================================== *)

Fixpoint fields_get (key : string) (fields : JsFields) : option JsVal :=
  match fields with
  | FNil => None
  | FCons k v rest => if String.eqb k key then Some v else fields_get key rest
  end.

(** Assignment to a property: in place when the object has it, else added
    after the others. *)
Fixpoint fields_set (key : string) (value : JsVal) (fields : JsFields) : JsFields :=
  match fields with
  | FNil => FCons key value FNil
  | FCons k v rest =>
      if String.eqb k key then FCons k value rest
      else FCons k v (fields_set key value rest)
  end.

(** [v?.key], and [v.key] on an object: a missing property, or a property of
    something that is no object, reads as [undefined]. *)
Definition getProp (v : JsVal) (key : string) : JsVal :=
  match v with
  | JObject fields => default JUndefined (fields_get key fields)
  | _ => JUndefined
  end.

Definition getPath (v : JsVal) (path : list string) : JsVal :=
  foldl getProp v path.

Definition js_truthy (v : JsVal) : bool :=
  match v with
  | JUndefined | JNull => false
  | JBool b => b
  | JNumber n => negb (n =? 0)
  | JString s => negb (String.eqb s "")
  | JObject _ => true
  end.

(** Template-literal conversion, for the console line. *)
Definition js_toString (v : JsVal) : string :=
  match v with
  | JUndefined => "undefined"
  | JNull => "null"
  | JBool b => if b then "true" else "false"
  | JNumber n => pretty n
  | JString s => s
  | JObject _ => "[object Object]"
  end.

(** [key.split(".")]. *)
Fixpoint split_dot (s : string) : list string :=
  match s with
  | EmptyString => [""]
  | String c s' =>
      if Ascii.eqb c "." then "" :: split_dot s'
      else match split_dot s' with
           | x :: xs => String c x :: xs
           | [] => [String c ""]
           end
  end.

(** The walk of [setProperty] along [parts], then the write of [key];
    [None] is the [TypeError] of reaching something that is no object. *)
Fixpoint setPath (parts : list string) (key : string) (value : JsVal)
    (target : JsVal) : option JsVal :=
  match target with
  | JObject fields =>
      match parts with
      | [] => Some (JObject (fields_set key value fields))
      | p :: parts' =>
          let child := default (JObject FNil) (fields_get p fields) in
          match setPath parts' key value child with
          | Some child' => Some (JObject (fields_set p child' fields))
          | None => None
          end
      end
  | _ => None
  end.

(** Modelled from the spec: [foundry.utils.setProperty] is a helper of the
    host and not part of the repository; the specification only says that the
    dequeued quantity is applied at [quantityPath] on the entity being
    created.  The model writes [value] at the dotted path [key] of [object],
    creating empty objects for missing steps, and does nothing for an empty
    key. *)
Definition setProperty (object : JsVal) (key : string) (value : JsVal) : option JsVal :=
  if String.eqb key "" then Some object
  else
    let parts := split_dot key in
    setPath (removelast parts) (List.last parts "") value object.

(** [queue.shift()] on the queue of [sourceId], followed by the removal of the
    key once its queue is empty; [None] when there is nothing to take. *)
Definition pendingQuantities_shift (sourceId : string) (pending : gmap string (list Z))
    : option (Z * gmap string (list Z)) :=
  match pending !! sourceId with
  | Some (quantity :: queue) =>
      Some (quantity,
            match queue with
            | [] => delete sourceId pending
            | _ => <[sourceId := queue]> pending
            end)
  | _ => None
  end.

(** [v.key] where [v] must not be [null] or [undefined]: reading a property
    of either is a [TypeError], here [None]. *)
Definition member (v : JsVal) (key : string) : option JsVal :=
  match v with
  | JUndefined | JNull => None
  | _ => Some (getProp v key)
  end.

Section Listener.

Context {World : Type}.
Variable game_settings : World → Settings.

(** [data?.flags?.core?.sourceId ?? item.flags?.core?.sourceId].  The item
    is read only when the payload has no reference, and [item.flags] is a
    plain property read: [None] is its [TypeError]. *)
Definition sourceIdOf (item data : JsVal) : option JsVal :=
  match getPath data ["flags"; "core"; "sourceId"] with
  | JUndefined | JNull =>
      match member item "flags" with
      | Some flags => Some (getPath flags ["core"; "sourceId"])
      | None => None
      end
  | sourceId => Some sourceId
  end.

(** [data.name ?? item.name] of the console line; both are plain property
    reads. *)
Definition loggedName (item data : JsVal) : option JsVal :=
  match member data "name" with
  | Some JUndefined | Some JNull => member item "name"
  | other => other
  end.

(** The listener registered on [preCreateItem]; it returns [data] as it
    leaves it. *)
Definition preCreateItem (item data : JsVal) : M World JsVal :=
  fun st =>
    match sourceIdOf item data with
    | None => (Throw TypeError, st)
    | Some sourceId =>
        if negb (js_truthy sourceId) then (Ret data, st) else
        match sourceId with
        | JString sourceId =>
            match pendingQuantities_shift sourceId (pendingQuantities st) with
            | None => (Ret data, st)
            | Some (quantity, pending) =>
                let st := set_pendingQuantities pending st in
                let quantityPath := quantityPath (game_settings (world st)) in
                match setProperty data quantityPath (JNumber quantity) with
                | None => (Throw TypeError, st)
                | Some data =>
                    match loggedName item data with
                    | None => (Throw TypeError, st)
                    | Some name =>
                        (emit (Log (MODULE_ID +:+ " | Applied quantity "
                                    +:+ pretty quantity +:+ " to " +:+ js_toString name
                                    +:+ " via " +:+ quantityPath)) ;;
                         ret data) st
                    end
                end
            end
        | _ => (Ret data, st)
        end
    end.

End Listener.

(* ===================================================================== *)
(** ** Notions the statements use                                         *)
(* ===================================================================== *)

Abbreviation chars := list_ascii_of_string.

(** The self-contained directive text of the documentation, "[[/r formula]]"
    followed by "@UUID[uuid]{name}". *)
Definition selfContained (formula uuid name : string) : string :=
  "[[/r " +:+ formula +:+ "]]@UUID[" +:+ uuid +:+ "]{" +:+ name +:+ "}".

(** What the three parts of such a text may be: the formula a non-empty run
    without closing bracket that does not begin with white space, the
    reference a non-empty run without closing bracket, the name a run without
    closing brace. *)
Definition formula_ok (formula : string) : bool :=
  match chars formula with
  | c :: _ => negb (Re.is_space c) && forallb (Re.not_chr "]") (chars formula)
  | [] => false
  end.

Definition uuid_ok (uuid : string) : bool :=
  negb (String.eqb uuid "") && forallb (Re.not_chr "]") (chars uuid).

Definition name_ok (name : string) : bool :=
  forallb (Re.not_chr "}") (chars name).

(** The class does not go on into [rest]. *)
Definition stops (cls : ascii → bool) (rest : list ascii) : Prop :=
  match rest with
  | c :: _ => cls c = false
  | [] => True
  end.

(** The state after the [console.error] of the [catch] block of
    [wrappedDraw]. *)
Definition logged {World} (err : Error) (st : State World) : State World :=
  set_console
    (console st ++ [LogError (MODULE_ID +:+ " | Error processing table draw:") err]) st.

(** Two property paths part ways: at some step they name different
    properties, so neither leads into the other. *)
Fixpoint paths_apart (p1 p2 : list string) : bool :=
  match p1, p2 with
  | a :: r1, b :: r2 => if String.eqb a b then paths_apart r1 r2 else true
  | _, _ => false
  end.

(** How the listener ends once it has taken [quantity] off a queue: with the
    payload as written at [path], or with the [TypeError] of the write or of
    the console line. *)
Definition applied (item data : JsVal) (path : string) (quantity : Z) : outcome JsVal :=
  match setProperty data path (JNumber quantity) with
  | Some data' =>
      match loggedName item data' with
      | Some _ => Ret data'
      | None => Throw TypeError
      end
  | None => Throw TypeError
  end.

(** The queues [after] come from the queues [before] by pushes alone, each
    of a positive quantity for a reference that [fromUuid] resolved to an
    item. *)
Inductive leaf_pushes {World : Type}
    (fromUuid : string → World → (option Document + Error) * World)
    : gmap string (list Z) → gmap string (list Z) → Prop :=
| pushes_none before : leaf_pushes fromUuid before before
| pushes_leaf before after uuid q w w' img :
    leaf_pushes fromUuid before after →
    fromUuid uuid w = (inl (Some (DocItem img)), w') →
    0 < q →
    leaf_pushes fromUuid before (pendingQuantities_push uuid q after).



(* ===================================================================== *)
(** ** A small world to run the module in                                 *)
(* ===================================================================== *)

Module Scenario.

(** The host's state is the list of dice totals still to come. *)
Definition World : Type := list Z.

Definition Roll_evaluate (formula : string) (w : World) : (Z + Error) * World :=
  match w with
  | total :: w' => (inl total, w')
  | [] => (inr (HostError "no dice left"), [])
  end.

Definition xyz : Table := mkTable "RollTable.xyz" "Gear".
Definition loop : Table := mkTable "RollTable.loop" "Loop".
Definition top : Table := mkTable "RollTable.top" "Treasure".

Definition fromUuid (uuid : string) (w : World) : (option Document + Error) * World :=
  (inl (if String.eqb uuid "Item.abc" then Some (DocItem (Some "torch.png"))
        else if String.eqb uuid "Item.def" then Some (DocItem None)
        else if String.eqb uuid "RollTable.xyz" then Some (DocRollTable xyz)
        else if String.eqb uuid "RollTable.loop" then Some (DocRollTable loop)
        else if String.eqb uuid "Actor.a" then Some DocOther
        else None), w).

(** Table [xyz] always draws result 2 and table [top] result 4, which points
    at [xyz]; table [loop] always draws result 3, whose directive points back
    at [loop]. *)
Definition original_draw (table : Table) (options : DrawOptions) (w : World)
    : (DrawResult + Error) * World :=
  (inl (if String.eqb (t_uuid table) "RollTable.xyz" then mkDrawResult [2%nat] 1
        else if String.eqb (t_uuid table) "RollTable.top" then mkDrawResult [4%nat] 1
        else mkDrawResult [3%nat] 1), w).

Definition TextEditor_enrichHTML (content : string) (w : World)
    : (string + Error) * World := (inl content, w).
Definition ChatMessage_create (data : ChatData) (w : World)
    : (unit + Error) * World := (inl tt, w).
Definition ChatMessage_create_fails (data : ChatData) (w : World)
    : (unit + Error) * World := (inr (HostError "chat is down"), w).
Definition Hooks_callAll (name : string) (results : list nat)
    (quantities : gmap nat QuantityData) (w : World) : (unit + Error) * World :=
  (inl tt, w).
Definition game_settings (w : World) : Settings :=
  {| quantityPath := "system.quantity"; modifyChat := true |}.

Definition results : gmap nat TableResult :=
  list_to_map
    [(1%nat, mkTableResult "text" (Some "[[/r 1d4]]@UUID[Item.abc]{Torch}") None "" None);
     (2%nat, mkTableResult "document" (Some "[[/r 1]]") (Some "Item.def") "Rope" None);
     (3%nat, mkTableResult "text" (Some "[[/r 1d2-1]]@UUID[RollTable.loop]{Loop}")
               None "" None);
     (4%nat, mkTableResult "document" (Some "[[/r 2]]") (Some "RollTable.xyz") "Gear" None);
     (5%nat, mkTableResult "text" (Some "A rusty nail") None "" None);
     (6%nat, mkTableResult "text" (Some "[[/r 1]]@UUID[Actor.a]{Goblin}") None "" None);
     (7%nat, mkTableResult "text" (Some "[[/r 1]]@UUID[Item.missing]{Lost}") None "" None)].

(** The state before anything was drawn, with the given dice to come. *)
Definition start (dice : list Z) : State World := mkState dice results ∅ ∅ [].

(** The host's own draw, as the [doc.draw] of the engine. *)
Definition plain_draw (table : Table) (options : DrawOptions) : M World DrawResult :=
  host (original_draw table options).

(** The draw method after the module's [init] hook. *)
Definition installed_draw (fuel : nat) : Table → DrawOptions → M World DrawResult :=
  RollTable_draw Roll_evaluate fromUuid TextEditor_enrichHTML ChatMessage_create
    Hooks_callAll game_settings original_draw fuel.

Definition noOptions : DrawOptions := mkDrawOptions None None None.

End Scenario.

(** A second world: the table [Loop] has one result, which points back at
    the table with the constant formula 1. *)
Module Cycle.

Definition World : Type := unit.

Definition Roll_evaluate (formula : string) (w : World) : (Z + Error) * World :=
  if String.eqb formula "1" then (inl 1, w)
  else (inr (HostError "unknown formula"), w).

Definition table : Table := mkTable "RollTable.loop" "Loop".

Definition fromUuid (uuid : string) (w : World) : (option Document + Error) * World :=
  (inl (if String.eqb uuid "RollTable.loop" then Some (DocRollTable table) else None), w).

Definition original_draw (table : Table) (options : DrawOptions) (w : World)
    : (DrawResult + Error) * World :=
  (inl (mkDrawResult [1%nat] 1), w).

Definition TextEditor_enrichHTML (content : string) (w : World)
    : (string + Error) * World := (inl content, w).
Definition ChatMessage_create (data : ChatData) (w : World)
    : (unit + Error) * World := (inl tt, w).
Definition Hooks_callAll (name : string) (results : list nat)
    (quantities : gmap nat QuantityData) (w : World) : (unit + Error) * World :=
  (inl tt, w).
Definition game_settings (w : World) : Settings :=
  {| quantityPath := "system.quantity"; modifyChat := true |}.

Definition results : gmap nat TableResult :=
  {[1%nat := mkTableResult "text" (Some "[[/r 1]]@UUID[RollTable.loop]{Loop}")
               None "" None]}.

Definition start : State World := mkState tt results ∅ ∅ [].

(** The host's own draw, and the draw method after the [init] hook. *)
Definition plain_draw (table : Table) (options : DrawOptions) : M World DrawResult :=
  host (original_draw table options).

Definition installed_draw (fuel : nat) : Table → DrawOptions → M World DrawResult :=
  RollTable_draw Roll_evaluate fromUuid TextEditor_enrichHTML ChatMessage_create
    Hooks_callAll game_settings original_draw fuel.

End Cycle.

(* ===================================================================== *)
(** ** Notions for the further properties                                 *)
(* ===================================================================== *)

(** The record [updateSource] writes when a [text] result is promoted. *)
Definition promoted (parsed : Parsed) (img : option string) : TableResult :=
  {| r_type := "document";
     r_documentUuid := Some (p_uuid parsed);
     r_name := p_name parsed;
     r_description := Some "";
     r_img := img |}.

(** Every stored record and every queued entry holds a positive quantity. *)
Definition quantities_positive {World} (st : State World) : Prop :=
  (∀ result data, resultQuantities st !! result = Some data → 0 < q_quantity data)
  ∧ (∀ uuid queue, pendingQuantities st !! uuid = Some queue → Forall (Z.lt 0) queue).

(** What may have happened to the store between two states: nothing was
    added or removed, and each result is as it was or was a [text] result
    with a directive and is now the promoted record for that directive. *)
Definition store_kept {World} (st st' : State World) : Prop :=
  ∀ result,
    match store st !! result with
    | None => store st' !! result = None
    | Some r =>
        store st' !! result = Some r
        ∨ (r_type r = "text"
           ∧ ∃ parsed img,
               parseQuantityResult r = Some parsed
               ∧ store st' !! result = Some (promoted parsed img))
    end.


(** What a match of a pattern says about the text: [s] begins with the
    literals and runs the pattern asks for, the captured runs are [gs], and
    [rest] is the text behind the match. *)
Fixpoint spells (pat : list Re.Atom) (s : list ascii) (gs : list string)
    (rest : list ascii) : Prop :=
  match pat with
  | [] => gs = [] ∧ rest = s
  | Re.Chr c :: pat' => ∃ s', s = c :: s' ∧ spells pat' s' gs rest
  | Re.Many cls least capture :: pat' =>
      ∃ xs s' gs',
        s = xs ++ s' ∧ forallb cls xs = true ∧ (least ≤ length xs)%nat
        ∧ spells pat' s' gs' rest
        ∧ gs = if capture then string_of_list_ascii xs :: gs' else gs'
  end.

(** A run of white space, in the sense of [\s] and of [trim]. *)
Definition is_blank (s : string) : bool := forallb Re.is_space (chars s).

(** The quantities [qs] queued for [uuid] one after the other. *)
Definition pushAll (uuid : string) (qs : list Z) (pending : gmap string (list Z))
    : gmap string (list Z) :=
  foldl (fun pending q => pendingQuantities_push uuid q pending) pending qs.

(** [n] removals from the queue of [sourceId] in a row: the quantities
    taken, in the order they came out, and the queues left. *)
Fixpoint shiftMany (n : nat) (sourceId : string) (pending : gmap string (list Z))
    : option (list Z * gmap string (list Z)) :=
  match n with
  | O => Some ([], pending)
  | S n' =>
      match pendingQuantities_shift sourceId pending with
      | Some (quantity, pending') =>
          match shiftMany n' sourceId pending' with
          | Some (taken, remaining) => Some (quantity :: taken, remaining)
          | None => None
          end
      | None => None
      end
  end.

(** None of [results] carries a directive in the state [st]. *)
Definition directive_free {World} (st : State World) (results : list nat) : Prop :=
  Forall (fun r => ∃ res, store st !! r = Some res ∧ parseQuantityResult res = None)
         results.

(** The options [processResult] passes to [doc.draw]. *)
Definition nestedOptions : DrawOptions := mkDrawOptions (Some false) (Some true) None.

(* ===================================================================== *)
(** ** Earlier versions of the module                                     *)
(* ===================================================================== *)

(** Version 1.0.0-beta.1 read the directive from [result.text]. *)
Module Beta1.

Definition QUANTITY_PATTERN : list Re.Atom :=
  Re.lit "[[/r" ++ [Re.Many Re.is_space 1 false; Re.Many (Re.not_chr "]") 1 true]
  ++ Re.lit "]]" ++ [Re.Many Re.is_space 0 false]
  ++ Re.lit "@UUID[" ++ [Re.Many (Re.not_chr "]") 1 true]
  ++ Re.lit "]{" ++ [Re.Many (Re.not_chr "}") 0 true]
  ++ Re.lit "}".

(** [parseQuantityText(text)]; [None] stands for a [null] or [undefined]
    text and for the [null] returned. *)
Definition parseQuantityText (text : option string) : option Parsed :=
  if negb (truthy text) then None else
  match Re.match_ (default "" text) QUANTITY_PATTERN with
  | None => None
  | Some match_ =>
      Some {| p_formula := Re.group match_ 1;
              p_uuid := Re.group match_ 2;
              p_name := Re.group match_ 3 |}
  end.

End Beta1.

(** Version 1.0.0-beta.2 kept the quantity in the flags of the result and,
    for the chat message, rewrote the descriptions of the results and put
    them back afterwards. *)
Module Beta2.

(** [result.flags[MODULE_ID]]. *)
Record QtyData := mkQtyData {
  quantity : Z;
  documentUuid : string;
  name : string;
  originalDescription : option string
}.

(** The two fields of a result the wrapper touches; [flags] is [None] when
    the result has no flags of this module. *)
Record Result := mkResult {
  description : option string;
  flags : option QtyData
}.

Definition set_description (d : option string) (r : Result) : Result :=
  mkResult d (flags r).

(** [savedDescriptions.set(result, description)]: a [Map] keeps the place
    of a key it already has and replaces the value. *)
Fixpoint Map_set (key : nat) (value : option string) (m : list (nat * option string))
    : list (nat * option string) :=
  match m with
  | [] => [(key, value)]
  | (k, v) :: m' =>
      if Nat.eqb k key then (k, value) :: m' else (k, v) :: Map_set key value m'
  end.

Definition quantityText (q : QtyData) : string :=
  pretty (quantity q) +:+ "x @UUID[" +:+ documentUuid q +:+ "]{" +:+ name q +:+ "}".

(** The loop that rewrites the descriptions; [None] is the [TypeError] of
    reading a field of nothing. *)
Fixpoint rewriteDescriptions (results : list nat) (store : gmap nat Result)
    (savedDescriptions : list (nat * option string))
    : option (gmap nat Result * list (nat * option string)) :=
  match results with
  | [] => Some (store, savedDescriptions)
  | result :: rest =>
      match store !! result with
      | None => None
      | Some r =>
          match flags r with
          | Some qtyData =>
              if negb (quantity qtyData =? 0) then
                rewriteDescriptions rest
                  (<[result := set_description (Some (quantityText qtyData)) r]> store)
                  (Map_set result (description r) savedDescriptions)
              else rewriteDescriptions rest store savedDescriptions
          | None => rewriteDescriptions rest store savedDescriptions
          end
      end
  end.

(** The loop that puts the saved descriptions back. *)
Fixpoint restoreDescriptions (savedDescriptions : list (nat * option string))
    (store : gmap nat Result) : gmap nat Result :=
  match savedDescriptions with
  | [] => store
  | (result, originalDesc) :: rest =>
      restoreDescriptions rest
        (match store !! result with
         | Some r => <[result := set_description originalDesc r]> store
         | None => store
         end)
  end.

(** Both loops, as [wrappedDraw] runs them around [toMessage] when
    [modifyChat] is on. *)
Definition rewriteAndRestore (results : list nat) (store : gmap nat Result)
    : option (gmap nat Result) :=
  match rewriteDescriptions results store [] with
  | Some (store', savedDescriptions) => Some (restoreDescriptions savedDescriptions store')
  | None => None
  end.

(** How often [result] occurs in [results]. *)
Fixpoint occurrences (result : nat) (results : list nat) : nat :=
  match results with
  | [] => 0
  | r :: rest => (if Nat.eqb r result then 1 else 0) + occurrences result rest
  end.

(** The result with the description the rewrite gives it, when the rewrite
    applies to it: when it carries a quantity other than 0. *)
Definition rewritten (r : Result) : option Result :=
  match flags r with
  | Some qtyData =>
      if negb (quantity qtyData =? 0)
      then Some (set_description (Some (quantityText qtyData)) r)
      else None
  | None => None
  end.

(** What holds of the store and of [savedDescriptions] once the rewriting
    loop has gone through the results [done], starting from [store0]: a
    result met once is rewritten and its first description saved; met
    again, the rewritten description is what is saved. *)
Definition rewriting (store0 : gmap nat Result) (done : list nat)
    (store : gmap nat Result) (saved : list (nat * option string)) : Prop :=
  NoDup saved.*1
  ∧ ∀ k,
      match store0 !! k with
      | None => store !! k = None ∧ k ∉ saved.*1
      | Some r0 =>
          match rewritten r0, occurrences k done with
          | Some r1, 1%nat => store !! k = Some r1 ∧ (k, description r0) ∈ saved
          | Some r1, S (S _) => store !! k = Some r1 ∧ (k, description r1) ∈ saved
          | _, _ => store !! k = Some r0 ∧ k ∉ saved.*1
          end
      end.

End Beta2.

(** Splits a conjunction into its parts, and nothing else. *)
Ltac conjuncts := repeat match goal with |- _ ∧ _ => split end.

(* ===================================================================== *)
(** ** The directive parser                                               *)
(* ===================================================================== *)

Example parse_text_torch :
  parseQuantityResult
    (mkTableResult "text" (Some "[[/r 1d4]]@UUID[Item.abc]{Torch}") None "" None)
  = Some (mkParsed "1d4" "Item.abc" "Torch").
Proof. vm_compute. reflexivity. Qed.

Example parse_document_roll :
  parseQuantityResult
    (mkTableResult "document" (Some "Gold: [[/r  2d6 + 1 ]] pieces") (Some "Item.gp") "Gold" None)
  = Some (mkParsed "2d6 + 1 " "Item.gp" "Gold").
Proof. vm_compute. reflexivity. Qed.

Example parse_text_without_reference :
  parseQuantityResult (mkTableResult "text" (Some "[[/r 1d4]] torches") None "" None) = None.
Proof. vm_compute. reflexivity. Qed.

Lemma chars_app a b : chars (a +:+ b) = chars a ++ chars b.
Proof. induction a as [|c a IH]; simpl; [reflexivity|]. by rewrite IH. Qed.

Lemma chars_roundtrip s : string_of_list_ascii (chars s) = s.
Proof. apply string_of_list_ascii_of_string. Qed.

Lemma chars_not_empty (s : string) :
  negb (String.eqb s "") = true → (1 ≤ length (chars s))%nat.
Proof. destruct s; simpl; [discriminate|lia]. Qed.

(** Literal characters of the pattern eat the same characters of the text. *)
Lemma matchHere_lit s pat rest :
  Re.matchHere (Re.lit s ++ pat) (chars s ++ rest) = Re.matchHere pat rest.
Proof.
  unfold Re.lit. induction s as [|c s IH]; simpl; [reflexivity|].
  rewrite Ascii.eqb_refl. exact IH.
Qed.

Lemma run_stops cls xs rest :
  forallb cls xs = true → stops cls rest → Re.run cls (xs ++ rest) = length xs.
Proof.
  intros Hxs Hrest. induction xs as [|x xs IH]; simpl in *.
  - destruct rest as [|c rest]; simpl in *; [reflexivity|]. by rewrite Hrest.
  - apply andb_true_iff in Hxs as [-> Hxs]. by rewrite IH.
Qed.

(** A repetition whose longest run lets the rest of the pattern match takes
    that run: no backtracking happens. *)
Lemma matchHere_many cls least capture pat xs rest gs :
  forallb cls xs = true → stops cls rest → (least ≤ length xs)%nat →
  Re.matchHere pat rest = Some gs →
  Re.matchHere (Re.Many cls least capture :: pat) (xs ++ rest)
  = Some (if capture then string_of_list_ascii xs :: gs else gs).
Proof.
  intros Hxs Hrest Hle Hpat. simpl. rewrite (run_stops _ _ _ Hxs Hrest).
  destruct (Nat.ltb_spec (length xs) least) as [?|_]; [lia|].
  assert (Hk : ∀ extra, (least + extra)%nat = length xs →
            drop (least + extra) (xs ++ rest) = rest
            ∧ take (least + extra) (xs ++ rest) = xs).
  { intros extra ->. split.
    - by rewrite drop_app_length.
    - by rewrite take_app_length. }
  destruct (length xs - least)%nat as [|e] eqn:He.
  - destruct (Hk 0%nat) as [-> ->]; [lia|]. by rewrite Hpat.
  - destruct (Hk (S e)) as [-> ->]; [lia|]. by rewrite Hpat.
Qed.

Lemma many_skip cls least pat xs rest gs :
  forallb cls xs = true → stops cls rest → (least ≤ length xs)%nat →
  Re.matchHere pat rest = Some gs →
  Re.matchHere (Re.Many cls least false :: pat) (xs ++ rest) = Some gs.
Proof. intros. by rewrite (matchHere_many _ _ _ _ _ _ gs). Qed.

Lemma many_capture cls least pat xs rest gs :
  forallb cls xs = true → stops cls rest → (least ≤ length xs)%nat →
  Re.matchHere pat rest = Some gs →
  Re.matchHere (Re.Many cls least true :: pat) (xs ++ rest)
  = Some (string_of_list_ascii xs :: gs).
Proof. intros. by rewrite (matchHere_many _ _ _ _ _ _ gs). Qed.

Lemma search_here pat s gs :
  Re.matchHere pat s = Some gs → Re.search pat s = Some gs.
Proof. intros H. destruct s; simpl; by rewrite H. Qed.

(** On a self-contained text [TEXT_PATTERN] captures the three parts. *)
Lemma match_selfContained_TEXT formula uuid name :
  formula_ok formula = true → uuid_ok uuid = true → name_ok name = true →
  Re.match_ (selfContained formula uuid name) TEXT_PATTERN = Some [formula; uuid; name].
Proof.
  unfold formula_ok, uuid_ok, name_ok. intros Hf Hu Hn.
  destruct (chars formula) as [|f0 fs] eqn:Ef; [discriminate|].
  apply andb_true_iff in Hf as [Hf0 Hf]. apply negb_true_iff in Hf0.
  apply andb_true_iff in Hu as [Hu0 Hu]. apply chars_not_empty in Hu0.
  rewrite <- Ef in Hf.
  unfold Re.match_, selfContained. apply search_here.
  rewrite !chars_app. unfold TEXT_PATTERN.
  replace [formula; uuid; name]
    with [string_of_list_ascii (chars formula); string_of_list_ascii (chars uuid);
          string_of_list_ascii (chars name)] by (by rewrite !chars_roundtrip).
  change (chars "[[/r ") with (chars "[[/r" ++ [" "%char]).
  change (chars "]]@UUID[") with (chars "]]" ++ chars "@UUID[").
  rewrite <- !app_assoc.
  rewrite matchHere_lit.
  apply (many_skip Re.is_space 1 _ [" "%char]);
    [reflexivity | by rewrite Ef | simpl; lia |].
  apply (many_capture (Re.not_chr "]") 1 _ (chars formula));
    [exact Hf | reflexivity | rewrite Ef; simpl; lia |].
  rewrite matchHere_lit.
  apply (many_skip Re.is_space 0 _ []); [reflexivity | reflexivity | simpl; lia |].
  rewrite (matchHere_lit "@UUID[" _ (chars uuid ++ chars "]{" ++ chars name ++ chars "}")).
  apply (many_capture (Re.not_chr "]") 1 _ (chars uuid));
    [exact Hu | reflexivity | exact Hu0 |].
  rewrite matchHere_lit.
  apply (many_capture (Re.not_chr "}") 0 _ (chars name));
    [exact Hn | reflexivity | lia |].
  reflexivity.
Qed.

(** On the same text [ROLL_PATTERN] captures the formula alone. *)
Lemma match_selfContained_ROLL formula uuid name :
  formula_ok formula = true →
  Re.match_ (selfContained formula uuid name) ROLL_PATTERN = Some [formula].
Proof.
  unfold formula_ok. intros Hf.
  destruct (chars formula) as [|f0 fs] eqn:Ef; [discriminate|].
  apply andb_true_iff in Hf as [Hf0 Hf]. apply negb_true_iff in Hf0.
  rewrite <- Ef in Hf.
  unfold Re.match_, selfContained. apply search_here.
  rewrite !chars_app. unfold ROLL_PATTERN.
  replace [formula] with [string_of_list_ascii (chars formula)]
    by (by rewrite chars_roundtrip).
  change (chars "[[/r ") with (chars "[[/r" ++ [" "%char]).
  change (chars "]]@UUID[") with (chars "]]" ++ chars "@UUID[").
  rewrite <- !app_assoc.
  rewrite matchHere_lit.
  apply (many_skip Re.is_space 1 _ [" "%char]);
    [reflexivity | by rewrite Ef | simpl; lia |].
  apply (many_capture (Re.not_chr "]") 1 _ (chars formula));
    [exact Hf | reflexivity | rewrite Ef; simpl; lia |].
  change (Re.lit "]]") with (Re.lit "]]" ++ []).
  by rewrite matchHere_lit.
Qed.

(** C5, as the code has it.  For a result whose description is exactly a
    self-contained directive text, written with a formula that is not empty,
    does not begin with white space and holds no closing bracket, a
    reference that is not empty and holds no closing bracket, and a name
    that holds no closing brace: a [text] result yields the formula, the
    target reference and the display name of the text; a [document] result
    with a target reference yields the formula of the text, but the target
    reference and the name of the result itself; every other result yields
    no directive. *)
Theorem parse_selfContained result formula uuid name :
  formula_ok formula = true → uuid_ok uuid = true → name_ok name = true →
  r_description result = Some (selfContained formula uuid name) →
  (r_type result = "text" →
   parseQuantityResult result = Some (mkParsed formula uuid name))
  ∧ (r_type result = "document" → truthy (r_documentUuid result) = true →
     parseQuantityResult result
     = Some (mkParsed formula (default "" (r_documentUuid result)) (r_name result)))
  ∧ (r_type result ≠ "text" →
     r_type result ≠ "document" ∨ truthy (r_documentUuid result) = false →
     parseQuantityResult result = None).
Proof.
  intros Hf Hu Hn Hdesc. unfold parseQuantityResult. rewrite Hdesc. simpl.
  rewrite (match_selfContained_TEXT _ _ _ Hf Hu Hn).
  rewrite (match_selfContained_ROLL _ uuid name Hf).
  split; [|split].
  - intros ->. reflexivity.
  - intros -> ->. reflexivity.
  - intros Ht Hd.
    destruct (String.eqb_spec (r_type result) "text") as [?|_]; [done|].
    destruct (String.eqb_spec (r_type result) "document") as [?|_]; [|reflexivity].
    destruct Hd as [?| ->]; [done|reflexivity].
Qed.

Lemma parse_selfContained_witness :
  parseQuantityResult
    (mkTableResult "text" (Some (selfContained "1d4" "Item.abc" "Torch")) None "" None)
  = Some (mkParsed "1d4" "Item.abc" "Torch").
Proof.
  apply (parse_selfContained
           (mkTableResult "text" (Some (selfContained "1d4" "Item.abc" "Torch")) None "" None)
           "1d4" "Item.abc" "Torch");
    reflexivity.
Defined.

(** A [document] result that already points at [Item.zzz] and whose
    description is the self-contained text for [Item.abc]: the directive
    names [Item.zzz] and the result's own name, not what the text says.
    And on [text] results the parts of the text come back only when they
    are written as the pattern reads them: a formula with a bracketed
    flavour yields no directive at all, a formula written after a second
    blank comes back without it, and a name is cut at its first closing
    brace. *)
Lemma parse_selfContained_document_ignores_text :
  let result :=
    mkTableResult "document" (Some (selfContained "1d4" "Item.abc" "Torch"))
      (Some "Item.zzz") "Lantern" None in
  let text description := mkTableResult "text" (Some description) None "" None in
  r_description result = Some "[[/r 1d4]]@UUID[Item.abc]{Torch}"
  ∧ parseQuantityResult result = Some (mkParsed "1d4" "Item.zzz" "Lantern")
  ∧ parseQuantityResult result ≠ Some (mkParsed "1d4" "Item.abc" "Torch")
  ∧ selfContained "1d6[fire]" "Item.abc" "Torch" = "[[/r 1d6[fire]]]@UUID[Item.abc]{Torch}"
  ∧ parseQuantityResult (text (selfContained "1d6[fire]" "Item.abc" "Torch")) = None
  ∧ parseQuantityResult (text (selfContained " 1d4" "Item.abc" "Torch"))
    = Some (mkParsed "1d4" "Item.abc" "Torch")
  ∧ parseQuantityResult (text (selfContained "1d4" "Item.abc" "Torch {lit}"))
    = Some (mkParsed "1d4" "Item.abc" "Torch {lit").
Proof.
  intros result text. conjuncts;
    [vm_compute; reflexivity | vm_compute; reflexivity | vm_compute; discriminate
    | vm_compute; reflexivity | vm_compute; reflexivity | vm_compute; reflexivity
    | vm_compute; reflexivity].
Qed.

(** *** What a match says about the text *)

Lemma run_take cls k s :
  (k ≤ Re.run cls s)%nat → forallb cls (take k s) = true ∧ length (take k s) = k.
Proof.
  revert k. induction s as [|c s IH]; intros k Hk; simpl in Hk.
  - assert (k = 0%nat) as -> by lia. by split.
  - destruct k as [|k]; [by split|]. simpl.
    destruct (cls c); [|lia].
    destruct (IH k) as [-> ->]; [lia|]. by split.
Qed.

(** Whatever [matchHere] accepts is spelled by the pattern. *)
Lemma matchHere_spells pat : ∀ s gs,
  Re.matchHere pat s = Some gs → ∃ rest, spells pat s gs rest.
Proof.
  induction pat as [|[c|cls least capture] pat IH]; intros s gs H; simpl in H.
  - injection H as <-. by exists s.
  - destruct s as [|c' s]; [discriminate|].
    destruct (Ascii.eqb_spec c c') as [<-|]; [|discriminate].
    destruct (IH s gs H) as [rest Hrest]. exists rest. simpl. eauto.
  - destruct (Nat.ltb_spec (Re.run cls s) least) as [|Hle]; [discriminate|].
    assert (Hb : (least + (Re.run cls s - least) ≤ Re.run cls s)%nat) by lia.
    revert Hb H. generalize (Re.run cls s - least)%nat as extra.
    induction extra as [|extra IHe]; intros Hb H.
    + destruct (Re.matchHere pat (drop (least + 0) s)) as [gs'|] eqn:E; [|discriminate].
      injection H as <-. destruct (IH _ _ E) as [rest Hrest]. exists rest. simpl.
      destruct (run_take cls (least + 0) s Hb) as [Hcls Hlen].
      exists (take (least + 0) s), (drop (least + 0) s), gs'.
      rewrite take_drop. repeat split; [exact Hcls|lia|exact Hrest].
    + destruct (Re.matchHere pat (drop (least + S extra) s)) as [gs'|] eqn:E.
      * injection H as <-. destruct (IH _ _ E) as [rest Hrest]. exists rest. simpl.
        destruct (run_take cls (least + S extra) s Hb) as [Hcls Hlen].
        exists (take (least + S extra) s), (drop (least + S extra) s), gs'.
        rewrite take_drop. repeat split; [exact Hcls|lia|exact Hrest].
      * apply IHe; [lia|exact H].
Qed.

Lemma search_spells pat : ∀ s gs,
  Re.search pat s = Some gs → ∃ before found rest, s = before ++ found ∧ spells pat found gs rest.
Proof.
  induction s as [|c s IH]; intros gs H; simpl in H.
  - destruct (Re.matchHere pat []) as [gs'|] eqn:E; [|discriminate].
    injection H as <-. destruct (matchHere_spells _ _ _ E) as [rest Hrest].
    by exists [], [], rest.
  - destruct (Re.matchHere pat (c :: s)) as [gs'|] eqn:E.
    + injection H as <-. destruct (matchHere_spells _ _ _ E) as [rest Hrest].
      by exists [], (c :: s), rest.
    + destruct (IH gs H) as (before & found & rest & -> & Hrest).
      by exists (c :: before), found, rest.
Qed.

Ltac spell_out H :=
  simpl in H;
  repeat match goal with
         | H : ∃ _, _ |- _ => destruct H
         | H : _ ∧ _ |- _ => destruct H
         end;
  subst.

Lemma chars_of_list xs : chars (string_of_list_ascii xs) = xs.
Proof. apply list_ascii_of_string_of_list_ascii. Qed.

Lemma length_not_empty (xs : list ascii) :
  (1 ≤ length xs)%nat → xs ≠ [] ∧ string_of_list_ascii xs ≠ "".
Proof. destruct xs; simpl; [lia|]. by split. Qed.

Lemma match_ROLL_spelled description gs :
  Re.match_ description ROLL_PATTERN = Some gs →
  ∃ before blank formula after,
    gs = [string_of_list_ascii formula]
    ∧ chars description = before ++ chars "[[/r" ++ blank ++ formula ++ chars "]]" ++ after
    ∧ (1 ≤ length blank)%nat ∧ forallb Re.is_space blank = true
    ∧ (1 ≤ length formula)%nat ∧ forallb (Re.not_chr "]") formula = true.
Proof.
  unfold Re.match_. intros H.
  destruct (search_spells _ _ _ H) as (before & found & rest & Hs & Hsp).
  unfold ROLL_PATTERN, Re.lit in Hsp. spell_out Hsp.
  eexists before, _, _, _. split; [reflexivity|]. split; [exact Hs|].
  repeat split; assumption.
Qed.

Lemma match_TEXT_spelled description gs :
  Re.match_ description TEXT_PATTERN = Some gs →
  ∃ before blank formula gap uuid name behind,
    gs = [string_of_list_ascii formula; string_of_list_ascii uuid;
          string_of_list_ascii name]
    ∧ chars description
      = before ++ chars "[[/r" ++ blank ++ formula ++ chars "]]"
        ++ gap ++ chars "@UUID[" ++ uuid ++ chars "]{" ++ name ++ chars "}" ++ behind
    ∧ (1 ≤ length blank)%nat ∧ forallb Re.is_space blank = true
    ∧ (1 ≤ length formula)%nat ∧ forallb (Re.not_chr "]") formula = true
    ∧ forallb Re.is_space gap = true
    ∧ (1 ≤ length uuid)%nat ∧ forallb (Re.not_chr "]") uuid = true
    ∧ forallb (Re.not_chr "}") name = true.
Proof.
  unfold Re.match_. intros H.
  destruct (search_spells _ _ _ H) as (before & found & rest & Hs & Hsp).
  unfold TEXT_PATTERN, Re.lit in Hsp. spell_out Hsp.
  eexists before, _, _, _, _, _, _. split; [reflexivity|]. split; [exact Hs|].
  repeat split; assumption.
Qed.

(** A directive always names a target. *)
Lemma parsed_uuid_not_empty result parsed :
  parseQuantityResult result = Some parsed → p_uuid parsed ≠ "".
Proof.
  unfold parseQuantityResult. cbv zeta. intros H.
  destruct (String.eqb_spec (r_type result) "document") as [Hdoc|Hdoc]; simpl in H.
  - destruct (truthy (r_documentUuid result)) eqn:Hu; simpl in H.
    + destruct (Re.match_ _ ROLL_PATTERN) as [gs|]; simpl in H.
      * injection H as <-. simpl.
        destruct (r_documentUuid result) as [u|]; [|discriminate]. simpl in *.
        apply negb_true_iff in Hu. by apply String.eqb_neq in Hu.
      * rewrite Hdoc in H. simpl in H. discriminate.
    + rewrite Hdoc in H. simpl in H. discriminate.
  - destruct (String.eqb_spec (r_type result) "text") as [Htext|]; [|discriminate].
    destruct (Re.match_ _ TEXT_PATTERN) as [gs|] eqn:Hm; [|discriminate].
    injection H as <-. simpl.
    destruct (match_TEXT_spelled _ _ Hm)
      as (before & blank & formula & gap & uuid & name & behind
          & -> & Hs & Hb & Hbs & Hf & Hfs & Hgs & Hu & Hus & Hns).
    unfold Re.group. simpl. by destruct (length_not_empty _ Hu).
Qed.

(* ===================================================================== *)
(** ** Facts about the expansion engine                                   *)
(* ===================================================================== *)

(** Unfolds the plumbing of the effect layer in the goal. *)
Ltac run_effects :=
  unfold bind, ret, throw, diverge, host, emit, readResult, updateSource,
    resultQuantities_set, enqueue, evaluateFormula; simpl.

Section EngineFacts.

Context {World : Type}.
Variable Roll_evaluate : string → World → (Z + Error) * World.
Variable fromUuid : string → World → (option Document + Error) * World.
Variable draw : Table → DrawOptions → State World → outcome DrawResult * State World.

(** *** The defining equations *)

Lemma processResult_body_eq recur result parsed depth :
  processResult_body Roll_evaluate fromUuid draw recur result parsed depth
  = (let! quantity := evaluateFormula Roll_evaluate (p_formula parsed) in
     if quantity <=? 0 then ret [result] else
     let! doc := host (fromUuid (p_uuid parsed)) in
     match doc with
     | None =>
         emit (Warn (MODULE_ID +:+ " | Could not resolve UUID: " +:+ p_uuid parsed)) ;;
         ret [result]
     | Some (DocRollTable table) =>
         if depth >=? MAX_RECURSION_DEPTH then
           emit (Warn (MODULE_ID +:+ " | Max recursion depth reached for table: "
                       +:+ p_name parsed)) ;;
           ret [result]
         else
           let! subResults := drawLoop draw recur table depth (Z.to_nat quantity) [] in
           resultQuantities_set result
             (mkQuantityData quantity (p_uuid parsed) (p_name parsed) (Some true)) ;;
           ret subResults
     | Some (DocItem img) =>
         let! r := readResult result in
         (if String.eqb (r_type r) "text" then
            updateSource result
              {| r_type := "document";
                 r_documentUuid := Some (p_uuid parsed);
                 r_name := p_name parsed;
                 r_description := Some "";
                 r_img := img |}
          else ret tt) ;;
         resultQuantities_set result
           (mkQuantityData quantity (p_uuid parsed) (p_name parsed) None) ;;
         enqueue (p_uuid parsed) quantity ;;
         ret [result]
     | Some DocOther =>
         emit (Warn (MODULE_ID +:+ " | Unsupported document type for UUID: "
                     +:+ p_uuid parsed)) ;;
         ret [result]
     end).
Proof. reflexivity. Qed.

Lemma processResults_eq results depth :
  processResults Roll_evaluate fromUuid draw results depth
  = processResults_fuel Roll_evaluate fromUuid draw
      (S (Z.to_nat (MAX_RECURSION_DEPTH - depth))) results depth.
Proof. reflexivity. Qed.

Lemma processResult_eq result parsed depth :
  processResult Roll_evaluate fromUuid draw result parsed depth
  = processResult_body Roll_evaluate fromUuid draw
      (processResults Roll_evaluate fromUuid draw) result parsed depth.
Proof. reflexivity. Qed.

Lemma expandOne_eq result depth :
  expandOne Roll_evaluate fromUuid draw result depth
  = (let! r := readResult result in
     match parseQuantityResult r with
     | Some parsed => processResult Roll_evaluate fromUuid draw result parsed depth
     | None => ret [result]
     end).
Proof. reflexivity. Qed.

Local Abbreviation drawLoop := (drawLoop draw).
Local Abbreviation processResult_body := (processResult_body Roll_evaluate fromUuid draw).
Local Abbreviation resultsLoop := (resultsLoop Roll_evaluate fromUuid draw).
Local Abbreviation processResults_fuel := (processResults_fuel Roll_evaluate fromUuid draw).
Local Abbreviation processResults := (processResults Roll_evaluate fromUuid draw).
Local Abbreviation processResult := (processResult Roll_evaluate fromUuid draw).
Local Abbreviation expandOne := (expandOne Roll_evaluate fromUuid draw).
Local Abbreviation draw_chain := (draw_chain Roll_evaluate fromUuid draw).

(** *** The loops only call [recur] one level down *)

Lemma drawLoop_ext recur1 recur2 table depth :
  (∀ rs st, recur1 rs (depth + 1) st = recur2 rs (depth + 1) st) →
  ∀ n acc st, drawLoop recur1 table depth n acc st = drawLoop recur2 table depth n acc st.
Proof.
  intros Hrec n. induction n as [|n IH]; intros acc st; [reflexivity|].
  simpl. unfold bind. destruct (draw _ _ st) as [[d| |] st1]; try reflexivity.
  rewrite Hrec. destruct (recur2 _ _ st1) as [[out| |] st2]; try reflexivity.
  apply IH.
Qed.

Lemma processResult_body_ext recur1 recur2 result parsed depth :
  (depth < MAX_RECURSION_DEPTH →
   ∀ rs st, recur1 rs (depth + 1) st = recur2 rs (depth + 1) st) →
  ∀ st, processResult_body recur1 result parsed depth st
        = processResult_body recur2 result parsed depth st.
Proof.
  intros Hrec st. rewrite !processResult_body_eq. unfold bind.
  destruct (evaluateFormula _ _ st) as [[q| |] st1]; try reflexivity.
  destruct (q <=? 0); [reflexivity|].
  destruct (host _ st1) as [[[[table|img|]|]| |] st2]; try reflexivity.
  destruct (depth >=? MAX_RECURSION_DEPTH) eqn:Hd; [reflexivity|].
  rewrite (drawLoop_ext recur1 recur2); [reflexivity|].
  apply Hrec. rewrite Z.geb_leb in Hd. apply Z.leb_gt in Hd. exact Hd.
Qed.

Lemma resultsLoop_ext recur1 recur2 depth :
  (depth < MAX_RECURSION_DEPTH →
   ∀ rs st, recur1 rs (depth + 1) st = recur2 rs (depth + 1) st) →
  ∀ results acc st,
    resultsLoop recur1 depth results acc st = resultsLoop recur2 depth results acc st.
Proof.
  intros Hrec results. induction results as [|r rest IH]; intros acc st; [reflexivity|].
  simpl. unfold bind. destruct (readResult r st) as [[res| |] st1]; try reflexivity.
  destruct (parseQuantityResult res) as [parsed|]; [|apply IH].
  rewrite (processResult_body_ext recur1 recur2 _ _ _ Hrec).
  destruct (processResult_body recur2 r parsed depth st1) as [[out| |] st2];
    try reflexivity.
  apply IH.
Qed.

(** [processResults] satisfies the recursive equation of the source. *)
Lemma processResults_unfold results depth st :
  processResults results depth st = resultsLoop processResults depth results [] st.
Proof.
  rewrite processResults_eq. simpl.
  apply resultsLoop_ext. intros Hd rs st'.
  rewrite processResults_eq.
  replace (Z.to_nat (MAX_RECURSION_DEPTH - depth))
    with (S (Z.to_nat (MAX_RECURSION_DEPTH - (depth + 1)))) by lia.
  reflexivity.
Qed.

(** *** The accumulators *)

Lemma drawLoop_acc recur table depth n acc st :
  drawLoop recur table depth n acc st = prepend acc (drawLoop recur table depth n [] st).
Proof.
  revert acc st. induction n as [|n IH]; intros acc st; simpl.
  - unfold ret. simpl. by rewrite app_nil_r.
  - unfold bind. destruct (draw _ _ st) as [[d| |] st1]; try reflexivity.
    destruct (recur _ _ st1) as [[out| |] st2]; try reflexivity.
    rewrite (IH (acc ++ out)), (IH ([] ++ out)). simpl.
    destruct (drawLoop recur table depth n [] st2) as [[o| |] st3]; simpl;
      try reflexivity.
    by rewrite app_assoc.
Qed.

Lemma resultsLoop_acc recur depth results acc st :
  resultsLoop recur depth results acc st
  = prepend acc (resultsLoop recur depth results [] st).
Proof.
  revert acc st. induction results as [|r rest IH]; intros acc st; simpl.
  - unfold ret. simpl. by rewrite app_nil_r.
  - unfold bind. destruct (readResult r st) as [[res| |] st1]; try reflexivity.
    destruct (parseQuantityResult res) as [parsed|].
    + destruct (processResult_body recur r parsed depth st1) as [[out| |] st2];
        try reflexivity.
      rewrite (IH (acc ++ out)), (IH ([] ++ out)). simpl.
      destruct (resultsLoop recur depth rest [] st2) as [[o| |] st3]; simpl;
        try reflexivity.
      by rewrite app_assoc.
    + rewrite (IH (acc ++ [r])), (IH ([] ++ [r])). simpl.
      destruct (resultsLoop recur depth rest [] st1) as [[o| |] st3]; simpl;
        try reflexivity.
      by rewrite <- app_assoc.
Qed.

Lemma processResults_nil depth st : processResults [] depth st = (Ret [], st).
Proof. rewrite processResults_unfold. reflexivity. Qed.

Lemma processResults_cons r rest depth st :
  processResults (r :: rest) depth st
  = (let! expanded := expandOne r depth in
     let! out := processResults rest depth in
     ret (expanded ++ out)) st.
Proof.
  rewrite processResults_unfold. simpl. rewrite expandOne_eq. unfold bind.
  destruct (readResult r st) as [[res| |] st1]; try reflexivity.
  destruct (parseQuantityResult res) as [parsed|].
  - rewrite processResult_eq.
    destruct (processResult_body processResults r parsed depth st1) as [[out| |] st2];
      try reflexivity.
    rewrite resultsLoop_acc, <- processResults_unfold. simpl.
    destruct (processResults rest depth st2) as [[o| |] st3]; reflexivity.
  - unfold ret at 1. rewrite resultsLoop_acc, <- processResults_unfold. simpl.
    destruct (processResults rest depth st1) as [[o| |] st3]; reflexivity.
Qed.

Lemma processResults_single r depth st :
  processResults [r] depth st = expandOne r depth st.
Proof.
  rewrite processResults_cons. unfold bind.
  destruct (expandOne r depth st) as [[out| |] st1]; try reflexivity.
  rewrite processResults_nil. unfold ret. by rewrite app_nil_r.
Qed.

Lemma processResults_app l1 l2 depth st :
  processResults (l1 ++ l2) depth st
  = (let! o1 := processResults l1 depth in
     let! o2 := processResults l2 depth in
     ret (o1 ++ o2)) st.
Proof.
  revert st. induction l1 as [|r l1 IH]; intros st.
  - simpl. unfold bind at 1. rewrite processResults_nil. unfold bind.
    destruct (processResults l2 depth st) as [[o| |] st1]; reflexivity.
  - simpl. rewrite processResults_cons. unfold bind.
    rewrite processResults_cons. unfold bind.
    destruct (expandOne r depth st) as [[e| |] st1]; try reflexivity.
    rewrite IH. unfold bind.
    destruct (processResults l1 depth st1) as [[o1| |] st2]; try reflexivity.
    unfold ret. cbv beta iota.
    destruct (processResults l2 depth st2) as [[o2| |] st3]; try reflexivity.
    by rewrite <- app_assoc.
Qed.

(** The output keeps the order of the input: what [r] expands to sits
    between what its left and right neighbours expand to. *)
Lemma processResults_middle pre r post depth st o1 st1 e st2 o2 st3 :
  processResults pre depth st = (Ret o1, st1) →
  processResults [r] depth st1 = (Ret e, st2) →
  processResults post depth st2 = (Ret o2, st3) →
  processResults (pre ++ r :: post) depth st = (Ret (o1 ++ e ++ o2), st3).
Proof.
  intros H1 H2 H3. rewrite processResults_app. unfold bind. rewrite H1.
  change (r :: post) with ([r] ++ post). rewrite processResults_app.
  unfold bind. rewrite H2, H3. reflexivity.
Qed.

(** *** One round of the loop, branch by branch *)

(** The round for a result whose description holds no directive. *)
Lemma expandOne_no_directive r res depth st :
  store st !! r = Some res →
  parseQuantityResult res = None →
  expandOne r depth st = (Ret [r], st).
Proof.
  intros Hr Hp. rewrite expandOne_eq. unfold bind, readResult. by rewrite Hr, Hp.
Qed.

(** The round for a directive whose formula comes out at zero or below. *)
Lemma expandOne_not_positive r res parsed depth st q w1 :
  store st !! r = Some res →
  parseQuantityResult res = Some parsed →
  Roll_evaluate (trim (p_formula parsed)) (world st) = (inl q, w1) →
  q ≤ 0 →
  expandOne r depth st = (Ret [r], set_world w1 st).
Proof.
  intros Hr Hp Hq Hle. rewrite expandOne_eq. unfold bind at 1.
  unfold readResult at 1. rewrite Hr, Hp.
  rewrite processResult_eq, processResult_body_eq.
  unfold bind at 1. unfold evaluateFormula. unfold host at 1. rewrite Hq.
  destruct (Z.leb_spec q 0) as [_|?]; [reflexivity|lia].
Qed.

(** The round for a directive with a positive quantity, up to the point
    where the target is resolved. *)
Lemma expandOne_resolved r res parsed depth st q w1 doc w2 :
  store st !! r = Some res →
  parseQuantityResult res = Some parsed →
  Roll_evaluate (trim (p_formula parsed)) (world st) = (inl q, w1) →
  0 < q →
  fromUuid (p_uuid parsed) w1 = (inl doc, w2) →
  expandOne r depth st
  = match doc with
    | None =>
        (emit (Warn (MODULE_ID +:+ " | Could not resolve UUID: " +:+ p_uuid parsed)) ;;
         ret [r]) (set_world w2 st)
    | Some (DocRollTable table) =>
        if depth >=? MAX_RECURSION_DEPTH then
          (emit (Warn (MODULE_ID +:+ " | Max recursion depth reached for table: "
                       +:+ p_name parsed)) ;;
           ret [r]) (set_world w2 st)
        else
          (let! subResults := drawLoop processResults table depth (Z.to_nat q) [] in
           resultQuantities_set r
             (mkQuantityData q (p_uuid parsed) (p_name parsed) (Some true)) ;;
           ret subResults) (set_world w2 st)
    | Some (DocItem img) =>
        ((if String.eqb (r_type res) "text" then
            updateSource r
              {| r_type := "document"; r_documentUuid := Some (p_uuid parsed);
                 r_name := p_name parsed; r_description := Some ""; r_img := img |}
          else ret tt) ;;
         resultQuantities_set r
           (mkQuantityData q (p_uuid parsed) (p_name parsed) None) ;;
         enqueue (p_uuid parsed) q ;;
         ret [r]) (set_world w2 st)
    | Some DocOther =>
        (emit (Warn (MODULE_ID +:+ " | Unsupported document type for UUID: "
                     +:+ p_uuid parsed)) ;;
         ret [r]) (set_world w2 st)
    end.
Proof.
  intros Hr Hp Hq Hpos Hdoc.
  rewrite expandOne_eq. unfold bind at 1. unfold readResult at 1. rewrite Hr, Hp.
  rewrite processResult_eq, processResult_body_eq.
  unfold bind at 1. unfold evaluateFormula. unfold host at 1. rewrite Hq.
  destruct (Z.leb_spec q 0) as [?|_]; [lia|].
  unfold bind at 1. unfold host at 1. simpl. rewrite Hdoc.
  destruct doc as [[table|img|]|]; try reflexivity.
  { destruct (depth >=? MAX_RECURSION_DEPTH); reflexivity. }
  unfold bind at 1. unfold readResult at 1. simpl. rewrite Hr. reflexivity.
Qed.

(** [pendingQuantities_push] puts the quantity behind what the target's
    queue already holds and leaves the other targets alone. *)
Lemma pendingQuantities_push_lookup uuid q (pending : gmap string (list Z)) :
  pendingQuantities_push uuid q pending !! uuid
  = Some (default [] (pending !! uuid) ++ [q]).
Proof.
  unfold pendingQuantities_push. destruct (pending !! uuid) as [old|] eqn:E.
  - by rewrite E, lookup_insert_eq.
  - by rewrite !lookup_insert_eq.
Qed.

Lemma pendingQuantities_push_other uuid q (pending : gmap string (list Z)) other :
  other ≠ uuid →
  pendingQuantities_push uuid q pending !! other = pending !! other.
Proof.
  intros Hne. unfold pendingQuantities_push.
  destruct (pending !! uuid) as [old|] eqn:E; by rewrite !lookup_insert_ne.
Qed.

(** *** The queue operations *)





(** What [pendingQuantities_shift] takes and what it leaves. *)
Lemma pendingQuantities_shift_spec sourceId (pending : gmap string (list Z)) quantity pending' :
  pendingQuantities_shift sourceId pending = Some (quantity, pending') →
  ∃ queue,
    pending !! sourceId = Some (quantity :: queue)
    ∧ pending' !! sourceId = (match queue with [] => None | _ => Some queue end)
    ∧ ∀ other, other ≠ sourceId → pending' !! other = pending !! other.
Proof.
  unfold pendingQuantities_shift. intros H.
  destruct (pending !! sourceId) as [[|x queue]|] eqn:E; try discriminate.
  injection H as <- <-. exists queue. split; [reflexivity|].
  destruct queue as [|y queue].
  - split; [apply lookup_delete_eq|]. intros other Hne. by apply lookup_delete_ne.
  - split; [apply lookup_insert_eq|]. intros other Hne. by apply lookup_insert_ne.
Qed.

Lemma pendingQuantities_shift_head sourceId (pending : gmap string (list Z)) quantity queue :
  pending !! sourceId = Some (quantity :: queue) →
  pendingQuantities_shift sourceId pending
  = Some (quantity,
          match queue with
          | [] => delete sourceId pending
          | _ => <[sourceId := queue]> pending
          end).
Proof. intros H. unfold pendingQuantities_shift. by rewrite H. Qed.



(** *** The recursion comes back *)

Section Returns.

Hypothesis draw_returns : ∀ table options st, (draw table options st).1 ≠ Diverge.

Lemma drawLoop_returns recur table depth :
  (∀ rs st, (recur rs (depth + 1) st).1 ≠ Diverge) →
  ∀ n acc st, (drawLoop recur table depth n acc st).1 ≠ Diverge.
Proof.
  intros Hrec n. induction n as [|n IH]; intros acc st; simpl; [discriminate|].
  unfold bind. pose proof (draw_returns table (mkDrawOptions (Some false) (Some true) None) st) as Hd.
  destruct (draw _ _ st) as [[d| |] st1]; simpl in *; try discriminate; [|done].
  pose proof (Hrec (dr_results d) st1) as Hr.
  destruct (recur _ _ st1) as [[out| |] st2]; simpl in *; try discriminate; [|done].
  apply IH.
Qed.

Lemma processResult_body_returns recur result parsed depth st :
  (depth < MAX_RECURSION_DEPTH → ∀ rs st, (recur rs (depth + 1) st).1 ≠ Diverge) →
  (processResult_body recur result parsed depth st).1 ≠ Diverge.
Proof.
  intros Hrec. rewrite processResult_body_eq. unfold bind, evaluateFormula, host.
  destruct (Roll_evaluate _ _) as [[q|e] w1]; simpl; [|discriminate].
  destruct (q <=? 0); [discriminate|]. simpl.
  destruct (fromUuid _ _) as [[[[table|img|]|]|e] w2]; simpl; try discriminate.
  - destruct (depth >=? MAX_RECURSION_DEPTH) eqn:Hd; [discriminate|].
    rewrite Z.geb_leb in Hd. apply Z.leb_gt in Hd.
    pose proof (drawLoop_returns recur table depth (Hrec Hd) (Z.to_nat q) []
                  (set_world w2 (set_world w1 st))) as Hl.
    destruct (drawLoop _ _ _ _ _ _) as [[sub| |] st3]; simpl in *;
      try discriminate; done.
  - unfold readResult. simpl. destruct (store st !! result); [|discriminate].
    destruct (String.eqb _ _); discriminate.
Qed.

Lemma resultsLoop_returns recur depth :
  (depth < MAX_RECURSION_DEPTH → ∀ rs st, (recur rs (depth + 1) st).1 ≠ Diverge) →
  ∀ results acc st, (resultsLoop recur depth results acc st).1 ≠ Diverge.
Proof.
  intros Hrec results. induction results as [|r rest IH]; intros acc st; simpl;
    [discriminate|].
  unfold bind, readResult. destruct (store st !! r) as [res|]; [|discriminate].
  destruct (parseQuantityResult res) as [parsed|]; [|apply IH].
  pose proof (processResult_body_returns recur r parsed depth st Hrec) as Hb.
  destruct (processResult_body recur r parsed depth st) as [[out| |] st2]; simpl in *;
    try discriminate; [apply IH|done].
Qed.

Lemma processResults_fuel_returns fuel :
  ∀ results depth st,
    MAX_RECURSION_DEPTH - depth ≤ Z.of_nat fuel →
    (processResults_fuel (S fuel) results depth st).1 ≠ Diverge.
Proof.
  induction fuel as [|fuel IH]; intros results depth st Hfuel; simpl;
    apply resultsLoop_returns; intros Hd rs st'.
  - lia.
  - apply IH. lia.
Qed.

(** Whatever the tables draw, [processResults] answers as soon as every
    draw it asks for answers: a call at [depth] nests no deeper than
    [MAX_RECURSION_DEPTH - depth] further calls. *)
Lemma processResults_returns results depth st :
  (processResults results depth st).1 ≠ Diverge.
Proof. rewrite processResults_eq. apply processResults_fuel_returns. lia. Qed.

End Returns.

(** *** Single results, branch by branch *)

(** C2.  A directive with quantity [q > 0] whose target resolves to an
    item: [processResults] returns the result itself, stores for it one
    record with the quantity, the target reference and the display name,
    not marked as expanded, and puts [q] at the end of the target's queue,
    behind what was queued before; no other queue changes. *)
Theorem leaf_recorded_and_queued r res parsed depth st q w1 img w2 :
  store st !! r = Some res →
  parseQuantityResult res = Some parsed →
  Roll_evaluate (trim (p_formula parsed)) (world st) = (inl q, w1) →
  0 < q →
  fromUuid (p_uuid parsed) w1 = (inl (Some (DocItem img)), w2) →
  ∃ st' data,
    processResults [r] depth st = (Ret [r], st')
    ∧ resultQuantities st' = <[r := data]> (resultQuantities st)
    ∧ getQuantity r st' = Some data
    ∧ q_quantity data = q
    ∧ q_documentUuid data = p_uuid parsed
    ∧ q_name data = p_name parsed
    ∧ q_expandedToSubResults data = None
    ∧ expandedToChildren data = false
    ∧ pendingQuantities st' !! p_uuid parsed
      = Some (default [] (pendingQuantities st !! p_uuid parsed) ++ [q])
    ∧ (∀ uuid, uuid ≠ p_uuid parsed →
         pendingQuantities st' !! uuid = pendingQuantities st !! uuid).
Proof.
  intros Hr Hp Hq Hpos Hdoc.
  rewrite processResults_single.
  rewrite (expandOne_resolved _ _ _ _ _ _ _ _ _ Hr Hp Hq Hpos Hdoc).
  destruct (String.eqb (r_type res) "text");
    eexists _, (mkQuantityData q (p_uuid parsed) (p_name parsed) None);
    (split; [run_effects; reflexivity|]); unfold getQuantity; simpl;
    rewrite lookup_insert_eq; repeat (split; [reflexivity|]);
    (split; [apply pendingQuantities_push_lookup|]);
    intros; by apply pendingQuantities_push_other.
Qed.

(** C6.  A [text] result whose directive has quantity [q > 0] and resolves
    to an item is rewritten in the store, through [updateSource], into a
    [document] result with the directive's target reference and display
    name and an empty description; the result stays in the output, between
    what its neighbours expand to. *)
Theorem text_leaf_promoted_in_place pre r post depth st out_pre st1 res parsed q w1 img w2 :
  processResults pre depth st = (Ret out_pre, st1) →
  store st1 !! r = Some res →
  r_type res = "text" →
  parseQuantityResult res = Some parsed →
  Roll_evaluate (trim (p_formula parsed)) (world st1) = (inl q, w1) →
  0 < q →
  fromUuid (p_uuid parsed) w1 = (inl (Some (DocItem img)), w2) →
  ∃ st2,
    processResults [r] depth st1 = (Ret [r], st2)
    ∧ store st2
      = <[r := {| r_type := "document"; r_documentUuid := Some (p_uuid parsed);
                  r_name := p_name parsed; r_description := Some "";
                  r_img := img |}]> (store st1)
    ∧ (∀ out_post st3,
         processResults post depth st2 = (Ret out_post, st3) →
         processResults (pre ++ r :: post) depth st
         = (Ret (out_pre ++ [r] ++ out_post), st3)).
Proof.
  intros Hpre Hr Ht Hp Hq Hpos Hdoc.
  assert (Hone : ∃ st2, processResults [r] depth st1 = (Ret [r], st2)
            ∧ store st2
              = <[r := {| r_type := "document"; r_documentUuid := Some (p_uuid parsed);
                          r_name := p_name parsed; r_description := Some "";
                          r_img := img |}]> (store st1)).
  { rewrite processResults_single.
    rewrite (expandOne_resolved _ _ _ _ _ _ _ _ _ Hr Hp Hq Hpos Hdoc), Ht.
    eexists. split; [run_effects; reflexivity|]. reflexivity. }
  destruct Hone as (st2 & Hone & Hstore). exists st2. repeat split; try assumption.
  intros out_post st3 Hpost. by apply (processResults_middle _ _ _ _ _ _ st1 _ st2).
Qed.

(** C7.  A result without directive, and a result whose directive's formula
    comes out at zero or below, is returned as it is, between what its
    neighbours expand to; the store, both ledgers and the console stay as
    they were. *)
Theorem unfired_result_unchanged pre r post depth st out_pre st1 res :
  processResults pre depth st = (Ret out_pre, st1) →
  store st1 !! r = Some res →
  (parseQuantityResult res = None
   ∨ ∃ parsed q w1,
       parseQuantityResult res = Some parsed
       ∧ Roll_evaluate (trim (p_formula parsed)) (world st1) = (inl q, w1)
       ∧ q ≤ 0) →
  ∃ st2,
    processResults [r] depth st1 = (Ret [r], st2)
    ∧ store st2 = store st1
    ∧ resultQuantities st2 = resultQuantities st1
    ∧ pendingQuantities st2 = pendingQuantities st1
    ∧ console st2 = console st1
    ∧ getQuantity r st2 = getQuantity r st1
    ∧ (∀ out_post st3,
         processResults post depth st2 = (Ret out_post, st3) →
         processResults (pre ++ r :: post) depth st
         = (Ret (out_pre ++ [r] ++ out_post), st3)).
Proof.
  intros Hpre Hr Hcase.
  assert (Hone : ∃ st2, processResults [r] depth st1 = (Ret [r], st2)
            ∧ store st2 = store st1
            ∧ resultQuantities st2 = resultQuantities st1
            ∧ pendingQuantities st2 = pendingQuantities st1
            ∧ console st2 = console st1).
  { rewrite processResults_single.
    destruct Hcase as [Hp|(parsed & q & w1 & Hp & Hq & Hle)].
    - exists st1. by rewrite (expandOne_no_directive _ _ _ _ Hr Hp).
    - exists (set_world w1 st1).
      by rewrite (expandOne_not_positive _ _ _ _ _ _ _ Hr Hp Hq Hle). }
  destruct Hone as (st2 & Hone & Hs & Hrq & Hpq & Hc). exists st2.
  repeat split; try assumption.
  - unfold getQuantity. by rewrite Hrq.
  - intros out_post st3 Hpost. by apply (processResults_middle _ _ _ _ _ _ st1 _ st2).
Qed.

(** C9.  When the directive has a positive quantity but does not fire (the
    reference resolves to nothing, or to a table while the depth is at the
    maximum, or to a document that is neither table nor item), the result
    is returned as it is with one warning; no record is stored, no queue
    changes, the store is untouched, and a result without a record still
    has none. *)
Theorem non_firing_branch_keeps_ledger r res parsed depth st q w1 doc w2 :
  store st !! r = Some res →
  parseQuantityResult res = Some parsed →
  Roll_evaluate (trim (p_formula parsed)) (world st) = (inl q, w1) →
  0 < q →
  fromUuid (p_uuid parsed) w1 = (inl doc, w2) →
  (doc = None
   ∨ (∃ table, doc = Some (DocRollTable table) ∧ MAX_RECURSION_DEPTH ≤ depth)
   ∨ doc = Some DocOther) →
  ∃ st' msg,
    processResults [r] depth st = (Ret [r], st')
    ∧ resultQuantities st' = resultQuantities st
    ∧ pendingQuantities st' = pendingQuantities st
    ∧ store st' = store st
    ∧ console st' = console st ++ [Warn msg]
    ∧ (getQuantity r st = None → getQuantity r st' = None).
Proof.
  intros Hr Hp Hq Hpos Hdoc Hcase.
  rewrite processResults_single.
  rewrite (expandOne_resolved _ _ _ _ _ _ _ _ _ Hr Hp Hq Hpos Hdoc).
  destruct Hcase as [->|[(table & -> & Hd)| ->]].
  - eexists _, _. split; [run_effects; reflexivity|]. by repeat split.
  - destruct (Z.geb_spec depth MAX_RECURSION_DEPTH) as [_|?]; [|lia].
    eexists _, _. split; [run_effects; reflexivity|]. by repeat split.
  - eexists _, _. split; [run_effects; reflexivity|]. by repeat split.
Qed.

(** *** The table branch *)

(** The loop of the table branch computes what [draw_chain] describes. *)
Lemma drawLoop_chain table depth n st chunks st' :
  draw_chain table depth n st chunks st' →
  drawLoop processResults table depth n [] st = (Ret (concat chunks), st')
  ∧ length chunks = n.
Proof.
  induction 1 as [st|n st d st1 out st2 chunks st3 Hdraw Hexp _ [IH Hlen]].
  - split; reflexivity.
  - split; [|simpl; by rewrite Hlen].
    simpl. unfold bind. rewrite Hdraw, Hexp.
    rewrite drawLoop_acc, IH. reflexivity.
Qed.

(** C1, as the code has it.  A directive with quantity [q > 0] whose target
    resolves to a table, below the maximum depth: the result is replaced,
    between what its neighbours expand to, by exactly the concatenation, in
    draw order, of the expansions one level down of [q] draws made one
    after the other; the result is not put into the output by this step
    (it is there only if a draw's expansion holds it), and the record
    stored for it carries the quantity, the target reference, the display
    name and the expansion mark. *)
Theorem table_directive_replaced_by_draws
    pre r post depth st out_pre st1 res parsed q w1 table w2 chunks st2 :
  processResults pre depth st = (Ret out_pre, st1) →
  store st1 !! r = Some res →
  parseQuantityResult res = Some parsed →
  Roll_evaluate (trim (p_formula parsed)) (world st1) = (inl q, w1) →
  0 < q →
  fromUuid (p_uuid parsed) w1 = (inl (Some (DocRollTable table)), w2) →
  depth < MAX_RECURSION_DEPTH →
  draw_chain table depth (Z.to_nat q) (set_world w2 st1) chunks st2 →
  let data := mkQuantityData q (p_uuid parsed) (p_name parsed) (Some true) in
  let st3 := set_resultQuantities (<[r := data]> (resultQuantities st2)) st2 in
  processResults [r] depth st1 = (Ret (concat chunks), st3)
  ∧ length chunks = Z.to_nat q
  ∧ getQuantity r st3 = Some data
  ∧ expandedToChildren data = true
  ∧ (∀ out_post st4,
       processResults post depth st3 = (Ret out_post, st4) →
       processResults (pre ++ r :: post) depth st
       = (Ret (out_pre ++ concat chunks ++ out_post), st4)).
Proof.
  intros Hpre Hr Hp Hq Hpos Hdoc Hd Hchain data st3.
  destruct (drawLoop_chain _ _ _ _ _ _ Hchain) as [Hloop Hlen].
  assert (Hone : processResults [r] depth st1 = (Ret (concat chunks), st3)).
  { rewrite processResults_single.
    rewrite (expandOne_resolved _ _ _ _ _ _ _ _ _ Hr Hp Hq Hpos Hdoc).
    destruct (Z.geb_spec depth MAX_RECURSION_DEPTH) as [?|_]; [lia|].
    unfold bind at 1. rewrite Hloop. reflexivity. }
  repeat split; try assumption.
  - unfold getQuantity, st3. simpl. apply lookup_insert_eq.
  - intros out_post st4 Hpost. by apply (processResults_middle _ _ _ _ _ _ st1 _ st3).
Qed.

(** *** What a run does to the queues *)

Section Pending.

(** Any relation between the queues before and after that holds across a
    [pendingQuantities_push] of a positive quantity for a reference that just
    resolved to an item, and across a draw, holds across a whole run: such
    a push is all the engine itself ever does to the queues. *)
Variable R : gmap string (list Z) → gmap string (list Z) → Prop.
Hypothesis R_refl : ∀ p, R p p.
Hypothesis R_trans : ∀ p1 p2 p3, R p1 p2 → R p2 p3 → R p1 p3.
Hypothesis R_push :
  ∀ uuid q p w w' img,
    fromUuid uuid w = (inl (Some (DocItem img)), w') → 0 < q →
    R p (pendingQuantities_push uuid q p).
Hypothesis R_draw :
  ∀ table options st,
    R (pendingQuantities st) (pendingQuantities (draw table options st).2).

Lemma drawLoop_pending recur table depth :
  (∀ rs st, R (pendingQuantities st) (pendingQuantities (recur rs (depth + 1) st).2)) →
  ∀ n acc st,
    R (pendingQuantities st) (pendingQuantities (drawLoop recur table depth n acc st).2).
Proof.
  intros Hrec n. induction n as [|n IH]; intros acc st; simpl; [apply R_refl|].
  unfold bind.
  pose proof (R_draw table (mkDrawOptions (Some false) (Some true) None) st) as Hd.
  destruct (draw _ _ st) as [[d| |] st1]; simpl in *; try exact Hd.
  pose proof (Hrec (dr_results d) st1) as Hr.
  destruct (recur _ _ st1) as [[out| |] st2]; simpl in *;
    try (eapply R_trans; [exact Hd|exact Hr]).
  eapply R_trans; [exact Hd|]. eapply R_trans; [exact Hr|]. apply IH.
Qed.

Lemma processResult_body_pending recur result parsed depth st :
  (∀ rs st, R (pendingQuantities st) (pendingQuantities (recur rs (depth + 1) st).2)) →
  R (pendingQuantities st)
    (pendingQuantities (processResult_body recur result parsed depth st).2).
Proof.
  intros Hrec. rewrite processResult_body_eq. unfold bind, evaluateFormula, host.
  destruct (Roll_evaluate _ _) as [[q|e] w1]; simpl; [|apply R_refl].
  destruct (Z.leb_spec q 0) as [|Hq]; [apply R_refl|]. simpl.
  destruct (fromUuid _ _) as [[[[table|img|]|]|e] w2] eqn:Hdoc; simpl; try apply R_refl.
  - destruct (depth >=? MAX_RECURSION_DEPTH); [apply R_refl|].
    pose proof (drawLoop_pending recur table depth Hrec (Z.to_nat q) []
                  (set_world w2 (set_world w1 st))) as Hl.
    destruct (drawLoop _ _ _ _ _ _) as [[sub| |] st3]; simpl in *; exact Hl.
  - unfold readResult. simpl. destruct (store st !! result); [|apply R_refl].
    destruct (String.eqb _ _); simpl; by eapply R_push.
Qed.

Lemma resultsLoop_pending recur depth :
  (∀ rs st, R (pendingQuantities st) (pendingQuantities (recur rs (depth + 1) st).2)) →
  ∀ results acc st,
    R (pendingQuantities st)
      (pendingQuantities (resultsLoop recur depth results acc st).2).
Proof.
  intros Hrec results. induction results as [|r rest IH]; intros acc st; simpl;
    [apply R_refl|].
  unfold bind, readResult. destruct (store st !! r) as [res|]; [|apply R_refl].
  destruct (parseQuantityResult res) as [parsed|]; [|apply IH].
  pose proof (processResult_body_pending recur r parsed depth st Hrec) as Hb.
  destruct (processResult_body recur r parsed depth st) as [[out| |] st2]; simpl in *;
    try exact Hb.
  eapply R_trans; [exact Hb|apply IH].
Qed.

Lemma processResults_fuel_pending fuel :
  ∀ results depth st,
    R (pendingQuantities st)
      (pendingQuantities (processResults_fuel fuel results depth st).2).
Proof.
  induction fuel as [|fuel IH]; intros results depth st; simpl; [apply R_refl|].
  apply resultsLoop_pending. intros rs st'. apply IH.
Qed.

Lemma processResults_pending results depth st :
  R (pendingQuantities st) (pendingQuantities (processResults results depth st).2).
Proof. rewrite processResults_eq. apply processResults_fuel_pending. Qed.

End Pending.

End EngineFacts.

(* ===================================================================== *)
(** ** The engine in the small world                                      *)
(* ===================================================================== *)

Section ScenarioRuns.

Local Abbreviation expand := (processResults Scenario.Roll_evaluate Scenario.fromUuid Scenario.plain_draw).

(** Results 5, 4, 5 with dice 2, 1, 1: result 4 points at table [xyz] with
    quantity 2 and is replaced by the two draws' results. *)
Lemma table_directive_replaced_by_draws_witness :
  (expand [5; 4; 5]%nat 0 (Scenario.start [2; 1; 1])).1 = Ret [5; 2; 2; 5]%nat.
Proof.
  edestruct (table_directive_replaced_by_draws
    Scenario.Roll_evaluate Scenario.fromUuid Scenario.plain_draw
    [5%nat] 4%nat [5%nat] 0 (Scenario.start [2; 1; 1]) [5%nat] (Scenario.start [2; 1; 1])
    (mkTableResult "document" (Some "[[/r 2]]") (Some "RollTable.xyz") "Gear" None)
    (mkParsed "2" "RollTable.xyz" "Gear") 2 [1; 1] Scenario.xyz [1; 1]
    [[2%nat]; [2%nat]]) as (_ & _ & _ & _ & Hplace).
  - vm_compute; reflexivity.
  - vm_compute; reflexivity.
  - vm_compute; reflexivity.
  - vm_compute; reflexivity.
  - lia.
  - vm_compute; reflexivity.
  - vm_compute; reflexivity.
  - eapply chain_draw; [vm_compute; reflexivity|vm_compute; reflexivity|].
    eapply chain_draw; [vm_compute; reflexivity|vm_compute; reflexivity|].
    apply chain_done.
  - exact (f_equal fst (Hplace [5%nat] _ eq_refl)).
Defined.

(** Result 3 points at table [loop], which draws result 3 again.  With dice
    1, 0, 0 the directive fires once at depth 0 and the draw hands the
    same result back, so the output holds the original result. *)
Lemma table_directive_original_in_output :
  Scenario.results !! 3%nat
  = Some (mkTableResult "text" (Some "[[/r 1d2-1]]@UUID[RollTable.loop]{Loop}") None "" None)
  ∧ parseQuantityResult
      (mkTableResult "text" (Some "[[/r 1d2-1]]@UUID[RollTable.loop]{Loop}") None "" None)
    = Some (mkParsed "1d2-1" "RollTable.loop" "Loop")
  ∧ Scenario.Roll_evaluate (trim "1d2-1") [1; 0; 0] = (inl 1, [0; 0])
  ∧ Scenario.fromUuid "RollTable.loop" [0; 0]
    = (inl (Some (DocRollTable Scenario.loop)), [0; 0])
  ∧ 0 < MAX_RECURSION_DEPTH
  ∧ (expand [3%nat] 0 (Scenario.start [1; 0; 0])).1 = Ret [3%nat]
  ∧ (processResults Scenario.Roll_evaluate Scenario.fromUuid (Scenario.installed_draw 2)
       [3%nat] 0 (Scenario.start [1; 0; 0])).1 = Ret [3%nat].
Proof. conjuncts; vm_compute; reflexivity. Qed.

(** Result 2 points at item [Item.def]; one quantity is queued already. *)
Lemma leaf_recorded_and_queued_witness :
  let st := mkState [1] Scenario.results ∅ {["Item.def" := [3]]} [] in
  pendingQuantities (expand [2%nat] 0 st).2 !! "Item.def" = Some [3; 1]
  ∧ getQuantity 2%nat (expand [2%nat] 0 st).2 = Some (mkQuantityData 1 "Item.def" "Rope" None).
Proof.
  intros st.
  destruct (leaf_recorded_and_queued
    Scenario.Roll_evaluate Scenario.fromUuid Scenario.plain_draw
    2%nat (mkTableResult "document" (Some "[[/r 1]]") (Some "Item.def") "Rope" None)
    (mkParsed "1" "Item.def" "Rope") 0 st 1 [] None [])
    as (st' & data & Hrun & _ & Hget & Hq & Hu & Hn & He & _ & Hpend & _);
    [vm_compute; reflexivity | vm_compute; reflexivity | vm_compute; reflexivity | lia | vm_compute; reflexivity |].
  rewrite Hrun. simpl. split; [exact Hpend|].
  rewrite Hget. destruct data as [q0 u0 n0 e0]. simpl in *. by subst.
Defined.

Lemma text_leaf_promoted_in_place_witness :
  (expand [5; 1; 5]%nat 0 (Scenario.start [2])).1 = Ret [5; 1; 5]%nat
  ∧ store (expand [1%nat] 0 (Scenario.start [2])).2 !! 1%nat
    = Some (mkTableResult "document" (Some "") (Some "Item.abc") "Torch" (Some "torch.png")).
Proof.
  destruct (text_leaf_promoted_in_place
    Scenario.Roll_evaluate Scenario.fromUuid Scenario.plain_draw
    [5%nat] 1%nat [5%nat] 0 (Scenario.start [2]) [5%nat] (Scenario.start [2])
    (mkTableResult "text" (Some "[[/r 1d4]]@UUID[Item.abc]{Torch}") None "" None)
    (mkParsed "1d4" "Item.abc" "Torch") 2 [] (Some "torch.png") [])
    as (st2 & Hrun & Hstore & Hplace);
    [vm_compute; reflexivity | vm_compute; reflexivity | vm_compute; reflexivity
    | vm_compute; reflexivity | vm_compute; reflexivity | lia
    | vm_compute; reflexivity |].
  split.
  - refine (f_equal fst (Hplace [5%nat] st2 _)).
    rewrite processResults_single.
    apply expandOne_no_directive with
      (res := mkTableResult "text" (Some "A rusty nail") None "" None);
      [|vm_compute; reflexivity].
    rewrite Hstore. vm_compute. reflexivity.
  - rewrite Hrun. simpl. rewrite Hstore. vm_compute. reflexivity.
Defined.

Lemma unfired_result_unchanged_witness :
  expand [5; 3; 5]%nat 0 (Scenario.start [0])
  = (Ret [5; 3; 5]%nat, Scenario.start []).
Proof.
  destruct (unfired_result_unchanged
    Scenario.Roll_evaluate Scenario.fromUuid Scenario.plain_draw
    [5%nat] 3%nat [5%nat] 0 (Scenario.start [0]) [5%nat] (Scenario.start [0])
    (mkTableResult "text" (Some "[[/r 1d2-1]]@UUID[RollTable.loop]{Loop}") None "" None))
    as (st2 & Hrun & _ & _ & _ & _ & _ & Hplace);
    [vm_compute; reflexivity | vm_compute; reflexivity | |].
  - right. exists (mkParsed "1d2-1" "RollTable.loop" "Loop"), 0, [].
    split; [vm_compute; reflexivity|]. split; [vm_compute; reflexivity|]. lia.
  - apply Hplace. vm_compute in Hrun. injection Hrun as <-.
    vm_compute. reflexivity.
Defined.

Lemma non_firing_branch_keeps_ledger_witness :
  expand [7%nat] 0 (Scenario.start [1])
  = (Ret [7%nat],
     mkState [] Scenario.results ∅ ∅
       [Warn "table-quantities | Could not resolve UUID: Item.missing"]).
Proof.
  destruct (non_firing_branch_keeps_ledger
    Scenario.Roll_evaluate Scenario.fromUuid Scenario.plain_draw
    7%nat (mkTableResult "text" (Some "[[/r 1]]@UUID[Item.missing]{Lost}") None "" None)
    (mkParsed "1" "Item.missing" "Lost") 0 (Scenario.start [1]) 1 [] None [])
    as (st' & msg & Hrun & _);
    [vm_compute; reflexivity | vm_compute; reflexivity | vm_compute; reflexivity
    | lia | vm_compute; reflexivity | by left |].
  rewrite Hrun. vm_compute in Hrun. injection Hrun as <-. vm_compute. reflexivity.
Defined.

(** Table [loop] draws result 3, which points back at [loop].  With the
    host's own draw as [doc.draw] and every die at 1, the expansion goes down
    ten levels, rolls once per level, and is cut at depth 10 with the
    warning: the result comes back as it is. *)
Example cycle_cut_at_depth_10 :
  expand [3%nat] 0 (Scenario.start (repeat 1 11))
  = (Ret [3%nat],
     mkState [] Scenario.results
       {[3%nat := mkQuantityData 1 "RollTable.loop" "Loop" (Some true)]} ∅
       [Warn "table-quantities | Max recursion depth reached for table: Loop"]).
Proof. vm_compute. reflexivity. Qed.

End ScenarioRuns.

(* ===================================================================== *)
(** ** The [preCreateItem] listener                                       *)
(* ===================================================================== *)

Lemma fields_get_set key value fields :
  fields_get key (fields_set key value fields) = Some value.
Proof.
  induction fields as [|k v rest IH]; simpl.
  - by rewrite String.eqb_refl.
  - destruct (String.eqb_spec k key) as [->|Hne]; simpl.
    + by rewrite String.eqb_refl.
    + by destruct (String.eqb_spec k key).
Qed.

Lemma fields_get_set_other key value fields other :
  other ≠ key →
  fields_get other (fields_set key value fields) = fields_get other fields.
Proof.
  intros Hne. induction fields as [|k v rest IH]; simpl.
  - by destruct (String.eqb_spec key other).
  - destruct (String.eqb_spec k key) as [->|Hk]; simpl.
    + by destruct (String.eqb_spec key other).
    + by rewrite IH.
Qed.

Lemma getPath_undefined path : getPath JUndefined path = JUndefined.
Proof. induction path as [|p path IH]; [reflexivity|exact IH]. Qed.

Lemma getPath_cons v p path : getPath v (p :: path) = getPath (getProp v p) path.
Proof. reflexivity. Qed.

(** After the write, the path reads as the value written. *)
Lemma setPath_written parts key value :
  ∀ target target',
    setPath parts key value target = Some target' →
    getPath target' (parts ++ [key]) = value.
Proof.
  induction parts as [|p parts IH]; intros target target' Hset;
    destruct target as [| | | | |fields]; try discriminate; simpl in Hset.
  - injection Hset as <-. unfold getPath. simpl. by rewrite fields_get_set.
  - destruct (setPath parts key value _) as [child'|] eqn:Hchild; [|discriminate].
    injection Hset as <-. simpl app. rewrite getPath_cons. simpl.
    rewrite fields_get_set. simpl. by eapply IH.
Qed.

(** Every path that parts ways with the written one reads as before. *)
Lemma setPath_frame parts key value :
  ∀ target target' path,
    setPath parts key value target = Some target' →
    paths_apart path (parts ++ [key]) = true →
    getPath target' path = getPath target path.
Proof.
  induction parts as [|p parts IH]; intros target target' path Hset Hapart;
    destruct target as [| | | | |fields]; try discriminate; simpl in Hset;
    destruct path as [|a path]; try discriminate; simpl in Hapart.
  - injection Hset as <-. rewrite !getPath_cons. simpl.
    destruct (String.eqb_spec a key) as [->|Hne].
    + by destruct path.
    + by rewrite fields_get_set_other.
  - destruct (setPath parts key value _) as [child'|] eqn:Hchild; [|discriminate].
    injection Hset as <-. rewrite !getPath_cons. simpl.
    destruct (String.eqb_spec a p) as [->|Hne].
    + rewrite fields_get_set. simpl.
      rewrite (IH _ _ _ Hchild Hapart).
      destruct (fields_get p fields) as [child|]; [reflexivity|]. simpl.
      destruct path as [|b path]; [discriminate|].
      rewrite getPath_cons. simpl. by rewrite !getPath_undefined.
    + by rewrite fields_get_set_other.
Qed.

Lemma split_dot_not_nil s : split_dot s ≠ [].
Proof.
  destruct s as [|c s]; simpl; [discriminate|].
  destruct (Ascii.eqb c "."); [discriminate|].
  destruct (split_dot s); discriminate.
Qed.

Lemma split_dot_parts s :
  removelast (split_dot s) ++ [List.last (split_dot s) ""] = split_dot s.
Proof. symmetry. apply app_removelast_last. apply split_dot_not_nil. Qed.

(** [setProperty] at a non-empty key: the dotted path then reads as the
    value, and every path that parts ways with it reads as before. *)
Lemma setProperty_frame object key value object' :
  key ≠ "" →
  setProperty object key value = Some object' →
  getPath object' (split_dot key) = value
  ∧ ∀ path, paths_apart path (split_dot key) = true →
      getPath object' path = getPath object path.
Proof.
  intros Hkey. unfold setProperty.
  destruct (String.eqb_spec key "") as [?|_]; [done|]. intros Hset. split.
  - rewrite <- split_dot_parts. by eapply setPath_written.
  - intros path Hapart. eapply setPath_frame; [exact Hset|].
    by rewrite split_dot_parts.
Qed.

Section ListenerFacts.

Context {World : Type}.
Variable game_settings : World → Settings.

Lemma preCreateItem_eq item data (st : State World) :
  preCreateItem game_settings item data st
  = match sourceIdOf item data with
    | None => (Throw TypeError, st)
    | Some sourceId =>
        if negb (js_truthy sourceId) then (Ret data, st) else
        match sourceId with
        | JString sourceId =>
            match pendingQuantities_shift sourceId (pendingQuantities st) with
            | None => (Ret data, st)
            | Some (quantity, pending) =>
                let st := set_pendingQuantities pending st in
                let quantityPath := quantityPath (game_settings (world st)) in
                match setProperty data quantityPath (JNumber quantity) with
                | None => (Throw TypeError, st)
                | Some data =>
                    match loggedName item data with
                    | None => (Throw TypeError, st)
                    | Some name =>
                        (emit (Log (MODULE_ID +:+ " | Applied quantity "
                                    +:+ pretty quantity +:+ " to " +:+ js_toString name
                                    +:+ " via " +:+ quantityPath)) ;;
                         ret data) st
                    end
                end
            end
        | _ => (Ret data, st)
        end
    end.
Proof. reflexivity. Qed.

Local Abbreviation preCreateItem := (preCreateItem game_settings).

(** *** Where the source reference is read *)

Lemma sourceIdOf_payload item data :
  getPath data ["flags"; "core"; "sourceId"] ≠ JUndefined →
  getPath data ["flags"; "core"; "sourceId"] ≠ JNull →
  sourceIdOf item data = Some (getPath data ["flags"; "core"; "sourceId"]).
Proof.
  unfold sourceIdOf. by destruct (getPath data ["flags"; "core"; "sourceId"]).
Qed.

Lemma sourceIdOf_item item data :
  getPath data ["flags"; "core"; "sourceId"] = JUndefined
  ∨ getPath data ["flags"; "core"; "sourceId"] = JNull →
  item ≠ JUndefined → item ≠ JNull →
  sourceIdOf item data = Some (getPath item ["flags"; "core"; "sourceId"]).
Proof.
  unfold sourceIdOf. intros [-> | ->] Hu Hn; by destruct item.
Qed.

Lemma sourceIdOf_no_item item data :
  getPath data ["flags"; "core"; "sourceId"] = JUndefined
  ∨ getPath data ["flags"; "core"; "sourceId"] = JNull →
  item = JUndefined ∨ item = JNull →
  sourceIdOf item data = None.
Proof.
  unfold sourceIdOf. by intros [-> | ->] [-> | ->].
Qed.

(** *** What one call does *)

(** The listener with a string reference for which a quantity is queued:
    the quantity leaves the queue, whatever becomes of the write. *)
Lemma preCreateItem_shift item data st s quantity pending :
  sourceIdOf item data = Some (JString s) → s ≠ "" →
  pendingQuantities_shift s (pendingQuantities st) = Some (quantity, pending) →
  ∃ st',
    preCreateItem item data st
    = (applied item data (quantityPath (game_settings (world st))) quantity, st')
    ∧ pendingQuantities st' = pending
    ∧ store st' = store st
    ∧ resultQuantities st' = resultQuantities st
    ∧ world st' = world st.
Proof.
  intros Hs Hne Hshift. rewrite preCreateItem_eq, Hs. simpl.
  destruct (String.eqb_spec s "") as [?|_]; [done|]. simpl.
  rewrite Hshift. unfold applied.
  destruct (setProperty data _ _) as [data'|]; [|by eexists].
  destruct (loggedName item data') as [name|]; by eexists.
Qed.

(** The listener without a queued quantity for its reference. *)
Lemma preCreateItem_idle item data st sourceId :
  sourceIdOf item data = Some sourceId →
  js_truthy sourceId = false
  ∨ (∀ s, sourceId ≠ JString s)
  ∨ (∃ s, sourceId = JString s
          ∧ (pendingQuantities st !! s = None ∨ pendingQuantities st !! s = Some [])) →
  preCreateItem item data st = (Ret data, st).
Proof.
  intros Hs Hidle. rewrite preCreateItem_eq, Hs.
  destruct Hidle as [->|[Hnostring|(s & -> & Hqueue)]]; [reflexivity| |].
  - destruct (negb _); [reflexivity|].
    destruct sourceId as [| | | |s|]; try reflexivity. by destruct (Hnostring s).
  - destruct (negb _); [reflexivity|]. unfold pendingQuantities_shift.
    by destruct Hqueue as [-> | ->].
Qed.



(** [setProperty], whatever the key: every path that parts ways with the
    key reads as before, and a non-empty key reads as the value. *)
Lemma setProperty_written object key value object' :
  setProperty object key value = Some object' →
  (key ≠ "" → getPath object' (split_dot key) = value)
  ∧ ∀ path, paths_apart path (split_dot key) = true →
      getPath object' path = getPath object path.
Proof.
  intros Hset. destruct (String.eqb_spec key "") as [->|Hkey].
  - unfold setProperty in Hset. simpl in Hset. injection Hset as <-. by split.
  - destruct (setProperty_frame _ _ _ _ Hkey Hset) as [Hw Hf]. by split.
Qed.

(** C10, as the code has it.  The listener reads the source reference from
    the creation payload and, only when the payload has none, from the item
    being created; reading it off a [null] or [undefined] item is a
    [TypeError] that leaves everything as it was.  With the reference so
    found, the payload and the state are left alone when the reference is
    falsy, when it is no string, and when no quantity is queued for it.
    Otherwise the listener takes the oldest quantity off that reference's
    queue (dropping the reference with its last quantity) and touches no
    other queue and nothing else of the state but the console; what it
    returns is the payload as [setProperty] wrote it at [quantityPath]:
    every path that parts ways with [quantityPath] reads as before, and a
    non-empty [quantityPath] reads as the quantity. *)
Theorem preCreateItem_frame item data st :
  let payloadRef := getPath data ["flags"; "core"; "sourceId"] in
  let itemRef := getPath item ["flags"; "core"; "sourceId"] in
  let path := quantityPath (game_settings (world st)) in
  (payloadRef ≠ JUndefined → payloadRef ≠ JNull →
   sourceIdOf item data = Some payloadRef)
  ∧ (payloadRef = JUndefined ∨ payloadRef = JNull →
     item ≠ JUndefined → item ≠ JNull →
     sourceIdOf item data = Some itemRef)
  ∧ (payloadRef = JUndefined ∨ payloadRef = JNull →
     item = JUndefined ∨ item = JNull →
     preCreateItem item data st = (Throw TypeError, st))
  ∧ (∀ sourceId,
       sourceIdOf item data = Some sourceId →
       js_truthy sourceId = false →
       preCreateItem item data st = (Ret data, st))
  ∧ (∀ sourceId,
       sourceIdOf item data = Some sourceId →
       (∀ s, sourceId ≠ JString s) →
       preCreateItem item data st = (Ret data, st))
  ∧ (∀ s,
       sourceIdOf item data = Some (JString s) →
       pendingQuantities st !! s = None ∨ pendingQuantities st !! s = Some [] →
       preCreateItem item data st = (Ret data, st))
  ∧ (∀ s quantity queue,
       sourceIdOf item data = Some (JString s) → s ≠ "" →
       pendingQuantities st !! s = Some (quantity :: queue) →
       ∃ st',
         preCreateItem item data st = (applied item data path quantity, st')
         ∧ pendingQuantities st' !! s = (match queue with [] => None | _ => Some queue end)
         ∧ (∀ other, other ≠ s →
              pendingQuantities st' !! other = pendingQuantities st !! other)
         ∧ store st' = store st
         ∧ resultQuantities st' = resultQuantities st
         ∧ world st' = world st
         ∧ (∀ data',
              applied item data path quantity = Ret data' →
              setProperty data path (JNumber quantity) = Some data'
              ∧ (path ≠ "" → getPath data' (split_dot path) = JNumber quantity)
              ∧ (∀ path', paths_apart path' (split_dot path) = true →
                   getPath data' path' = getPath data path'))).
Proof.
  intros payloadRef itemRef path. conjuncts.
  - apply sourceIdOf_payload.
  - apply sourceIdOf_item.
  - intros Hp Hi. by rewrite preCreateItem_eq, (sourceIdOf_no_item _ _ Hp Hi).
  - intros sourceId Hs Hfalsy. apply (preCreateItem_idle _ _ _ sourceId Hs). by left.
  - intros sourceId Hs Hnostring. apply (preCreateItem_idle _ _ _ sourceId Hs).
    right. by left.
  - intros s Hs Hqueue. apply (preCreateItem_idle _ _ _ (JString s) Hs).
    right. right. by exists s.
  - intros s quantity queue Hs Hne Hqueue.
    pose proof (pendingQuantities_shift_head _ _ _ _ Hqueue) as Hshift.
    destruct (pendingQuantities_shift_spec _ _ _ _ Hshift) as (queue' & Hq' & Hrest & Hother).
    rewrite Hqueue in Hq'. injection Hq' as <-.
    destruct (preCreateItem_shift item data st s quantity _ Hs Hne Hshift)
      as (st' & Hrun & Hpend & Hstore & Hrq & Hworld).
    exists st'. split; [exact Hrun|]. rewrite Hpend.
    split; [exact Hrest|]. split; [exact Hother|].
    split; [exact Hstore|]. split; [exact Hrq|]. split; [exact Hworld|].
    intros data' Happlied. unfold applied in Happlied.
    destruct (setProperty data path (JNumber quantity)) as [written|] eqn:Hset;
      [|discriminate].
    destruct (loggedName item written); [|discriminate].
    injection Happlied as ->. split; [reflexivity|].
    by apply setProperty_written.
Qed.

End ListenerFacts.

Lemma preCreateItem_frame_witness :
  let item := JObject FNil in
  let data :=
    JObject (FCons "name" (JString "Torch")
      (FCons "flags" (JObject (FCons "core"
         (JObject (FCons "sourceId" (JString "Item.abc") FNil)) FNil)) FNil)) in
  let st : State Scenario.World := mkState [] ∅ ∅ {["Item.abc" := [3; 1]]} [] in
  pendingQuantities (preCreateItem Scenario.game_settings item data st).2 !! "Item.abc"
  = Some [1]
  ∧ ∃ data',
      (preCreateItem Scenario.game_settings item data st).1 = Ret data'
      ∧ getPath data' ["system"; "quantity"] = JNumber 3
      ∧ getPath data' ["name"] = JString "Torch".
Proof.
  intros item data st.
  destruct (preCreateItem_frame Scenario.game_settings item data st)
    as (_ & _ & _ & _ & _ & _ & Hfire).
  destruct (Hfire "Item.abc" 3 [1])
    as (st' & Hrun & Hq & _ & _ & _ & _ & Hwritten);
    [vm_compute; reflexivity | discriminate | vm_compute; reflexivity |].
  destruct (Hwritten
              (JObject (FCons "name" (JString "Torch")
                 (FCons "flags" (JObject (FCons "core"
                    (JObject (FCons "sourceId" (JString "Item.abc") FNil)) FNil))
                 (FCons "system" (JObject (FCons "quantity" (JNumber 3) FNil)) FNil)))))
    as (_ & Hpath & Hframe); [vm_compute; reflexivity|].
  rewrite Hrun. simpl. split; [exact Hq|].
  eexists. split; [vm_compute; reflexivity|]. split; [by apply Hpath|].
  etrans; [apply (Hframe ["name"]); vm_compute; reflexivity|].
  vm_compute. reflexivity.
Defined.

(** The creation data carries no source reference, the item being created
    does, and a quantity is queued for it: the listener writes to the data.
    (With no item to read the reference from, the same call is a
    [TypeError].) *)
Lemma preCreateItem_reads_item_reference :
  let data := JObject (FCons "name" (JString "Torch") FNil) in
  let item :=
    JObject (FCons "flags" (JObject (FCons "core"
      (JObject (FCons "sourceId" (JString "Item.abc") FNil)) FNil)) FNil) in
  let st : State Scenario.World := mkState [] ∅ ∅ {["Item.abc" := [2]]} [] in
  getPath data ["flags"; "core"; "sourceId"] = JUndefined
  ∧ (preCreateItem Scenario.game_settings item data st).1
    = Ret (JObject (FCons "name" (JString "Torch")
             (FCons "system" (JObject (FCons "quantity" (JNumber 2) FNil)) FNil)))
  ∧ (preCreateItem Scenario.game_settings item data st).1 ≠ Ret data
  ∧ pendingQuantities (preCreateItem Scenario.game_settings item data st).2 !! "Item.abc"
    = None
  ∧ preCreateItem Scenario.game_settings JNull data st = (Throw TypeError, st).
Proof.
  intros data item st. conjuncts;
    [vm_compute; reflexivity | vm_compute; reflexivity | vm_compute; discriminate
    | vm_compute; reflexivity | vm_compute; reflexivity].
Qed.

(* ===================================================================== *)
(** ** The draw wrapper                                                   *)
(* ===================================================================== *)

Section WrapperFacts.

Context {World : Type}.
Variable Roll_evaluate : string → World → (Z + Error) * World.
Variable fromUuid : string → World → (option Document + Error) * World.
Variable TextEditor_enrichHTML : string → World → (string + Error) * World.
Variable ChatMessage_create : ChatData → World → (unit + Error) * World.
Variable Hooks_callAll :
  string → list nat → gmap nat QuantityData → World → (unit + Error) * World.
Variable game_settings : World → Settings.
Variable draw : Table → DrawOptions → State World → outcome DrawResult * State World.

Lemma wrappedDraw_eq this wrapped options st :
  wrappedDraw Roll_evaluate fromUuid TextEditor_enrichHTML ChatMessage_create
    Hooks_callAll game_settings draw this wrapped options st
  = match wrappedDraw_try Roll_evaluate fromUuid TextEditor_enrichHTML ChatMessage_create
            Hooks_callAll game_settings draw this wrapped options st with
    | (Completed drawResult, st') => (Ret drawResult, st')
    | (Caught err drawResult, st') =>
        (emit (LogError (MODULE_ID +:+ " | Error processing table draw:") err) ;;
         match drawResult with
         | None => wrapped options
         | Some drawResult => ret drawResult
         end) st'
    | (Stuck, st') => (Diverge, st')
    end.
Proof. reflexivity. Qed.

Lemma wrappedDraw_try_eq this wrapped options st :
  wrappedDraw_try Roll_evaluate fromUuid TextEditor_enrichHTML ChatMessage_create
    Hooks_callAll game_settings draw this wrapped options st
  = match wrapped options st with
    | (Diverge, st1) => (Stuck, st1)
    | (Throw err, st1) => (Caught err None, st1)
    | (Ret drawResult, st1) =>
        match processResults Roll_evaluate fromUuid draw (dr_results drawResult) 0 st1 with
        | (Diverge, st2) => (Stuck, st2)
        | (Throw err, st2) => (Caught err (Some drawResult), st2)
        | (Ret results, st2) =>
            let drawResult := mkDrawResult results (dr_roll drawResult) in
            match reportAndNotify TextEditor_enrichHTML ChatMessage_create Hooks_callAll
                    game_settings this options drawResult st2 with
            | (Diverge, st3) => (Stuck, st3)
            | (Throw err, st3) => (Caught err (Some drawResult), st3)
            | (Ret _, st3) => (Completed drawResult, st3)
            end
        end
    end.
Proof. reflexivity. Qed.

Lemma reportAndNotify_eq this options drawResult st :
  reportAndNotify TextEditor_enrichHTML ChatMessage_create Hooks_callAll game_settings
    this options drawResult st
  = ((if negb (bool_decide (o_displayChat options = Some false))
         && modifyChat (game_settings (world st))
      then sendQuantityChat TextEditor_enrichHTML ChatMessage_create this
             (dr_results drawResult) (dr_roll drawResult) (o_rollMode options)
      else ret tt) ;;
     fun st => host (Hooks_callAll (MODULE_ID +:+ ".resultsReady")
                       (dr_results drawResult) (resultQuantities st)) st) st.
Proof. reflexivity. Qed.

Lemma sendQuantityChat_eq table results roll rollMode st :
  sendQuantityChat TextEditor_enrichHTML ChatMessage_create table results roll rollMode st
  = match omap (fun r => resultQuantities st !! r) results with
    | [] => (Ret tt, st)
    | quantityEntries =>
        (let! enrichedContent :=
           host (TextEditor_enrichHTML
                   ("<div class=" +:+ dquote +:+ "table-quantities-results" +:+ dquote
                    +:+ "><ul>" +:+ foldr String.append "" (quantityLine <$> quantityEntries)
                    +:+ "</ul></div>")) in
         host (ChatMessage_create
                 {| c_flavor := "Table Quantities from <strong>" +:+ t_name table
                                +:+ "</strong>";
                    c_content := enrichedContent;
                    c_whisperToGMs := bool_decide (rollMode = Some "gmroll") |})) st
    end.
Proof.
  unfold sendQuantityChat. by destruct (omap _ results).
Qed.

Local Abbreviation wrappedDraw :=
  (wrappedDraw Roll_evaluate fromUuid TextEditor_enrichHTML ChatMessage_create
     Hooks_callAll game_settings draw).
Local Abbreviation reportAndNotify :=
  (reportAndNotify TextEditor_enrichHTML ChatMessage_create Hooks_callAll game_settings).
Local Abbreviation sendQuantityChat :=
  (sendQuantityChat TextEditor_enrichHTML ChatMessage_create).
Local Abbreviation processResults := (processResults Roll_evaluate fromUuid draw).

(** Calls into the host answer or throw; they are never the reason for a run
    not to come back. *)
Lemma host_returns {A} (f : World → (A + Error) * World) (st : State World) :
  (host f st).1 ≠ Diverge.
Proof. unfold host. by destruct (f (world st)) as [[a|e] w]. Qed.

Lemma sendQuantityChat_returns table results roll rollMode st :
  (sendQuantityChat table results roll rollMode st).1 ≠ Diverge.
Proof.
  rewrite sendQuantityChat_eq. destruct (omap _ results) as [|q qs]; [discriminate|].
  unfold bind.
  pose proof (host_returns (TextEditor_enrichHTML
    ("<div class=" +:+ dquote +:+ "table-quantities-results" +:+ dquote
     +:+ "><ul>" +:+ foldr String.append "" (quantityLine <$> q :: qs)
     +:+ "</ul></div>")) st) as H1.
  destruct (host _ st) as [[content| |] st1]; simpl in *; try discriminate; [|done].
  apply host_returns.
Qed.

Lemma reportAndNotify_returns this options drawResult st :
  (reportAndNotify this options drawResult st).1 ≠ Diverge.
Proof.
  rewrite reportAndNotify_eq. unfold bind.
  destruct (_ && _).
  - pose proof (sendQuantityChat_returns this (dr_results drawResult)
                  (dr_roll drawResult) (o_rollMode options) st) as H1.
    destruct (sendQuantityChat _ _ _ _ st) as [[[]| |] st1]; simpl in *;
      try discriminate; [|done].
    apply host_returns.
  - unfold ret. apply host_returns.
Qed.

(** C8, as the code has it.  When the underlying draw throws, the error is
    logged and the draw is run once more, with the same options, and that
    run is the answer, whatever it is.  When the underlying draw has
    returned, the wrapper returns too: with the draw's own, unexpanded,
    results if the expansion threw, and with the expanded results if the
    expansion went through, whether or not the report or the notification
    threw after it; each thrown error is logged and goes no further. *)
Theorem wrappedDraw_contains_errors this wrapped options st :
  (∀ err st1,
     wrapped options st = (Throw err, st1) →
     wrappedDraw this wrapped options st = wrapped options (logged err st1))
  ∧ (∀ drawResult st1,
       wrapped options st = (Ret drawResult, st1) →
       (∀ err st2,
          processResults (dr_results drawResult) 0 st1 = (Throw err, st2) →
          wrappedDraw this wrapped options st = (Ret drawResult, logged err st2))
       ∧ (∀ results st2,
            processResults (dr_results drawResult) 0 st1 = (Ret results, st2) →
            let expanded := mkDrawResult results (dr_roll drawResult) in
            (∀ st3,
               reportAndNotify this options expanded st2 = (Ret tt, st3) →
               wrappedDraw this wrapped options st = (Ret expanded, st3))
            ∧ (∀ err st3,
                 reportAndNotify this options expanded st2 = (Throw err, st3) →
                 wrappedDraw this wrapped options st = (Ret expanded, logged err st3)))
       ∧ ((∀ table options st, (draw table options st).1 ≠ Diverge) →
          ∃ answer st',
            wrappedDraw this wrapped options st = (Ret answer, st')
            ∧ dr_roll answer = dr_roll drawResult)).
Proof.
  split.
  - intros err st1 Hw. rewrite wrappedDraw_eq, wrappedDraw_try_eq, Hw. reflexivity.
  - intros drawResult st1 Hw. split; [|split].
    + intros err st2 Hp. rewrite wrappedDraw_eq, wrappedDraw_try_eq, Hw, Hp. reflexivity.
    + intros results st2 Hp expanded. split.
      * intros st3 Hr. rewrite wrappedDraw_eq, wrappedDraw_try_eq, Hw, Hp. cbv zeta.
        fold expanded. rewrite Hr. reflexivity.
      * intros err st3 Hr. rewrite wrappedDraw_eq, wrappedDraw_try_eq, Hw, Hp. cbv zeta.
        fold expanded. rewrite Hr. reflexivity.
    + intros Hdraw. rewrite wrappedDraw_eq, wrappedDraw_try_eq, Hw.
      pose proof (processResults_returns Roll_evaluate fromUuid draw Hdraw
                    (dr_results drawResult) 0 st1) as Hp.
      destruct (processResults _ 0 st1) as [[results|err|] st2]; simpl in Hp; [| |done].
      * cbv zeta.
        pose proof (reportAndNotify_returns this options
                      (mkDrawResult results (dr_roll drawResult)) st2) as Hr.
        destruct (reportAndNotify _ _ _ st2) as [[[]|err|] st3]; simpl in Hr; [| |done].
        -- by eexists _, _.
        -- by eexists _, _.
      * by eexists _, _.
Qed.

(** *** The wrapper and the queues *)

Lemma host_pending {A} (f : World → (A + Error) * World) (st : State World) :
  pendingQuantities (host f st).2 = pendingQuantities st.
Proof. unfold host. by destruct (f (world st)) as [[a|e] w]. Qed.

Lemma sendQuantityChat_pending table results roll rollMode st :
  pendingQuantities (sendQuantityChat table results roll rollMode st).2
  = pendingQuantities st.
Proof.
  rewrite sendQuantityChat_eq. destruct (omap _ results) as [|q qs]; [reflexivity|].
  unfold bind.
  pose proof (host_pending (TextEditor_enrichHTML
    ("<div class=" +:+ dquote +:+ "table-quantities-results" +:+ dquote
     +:+ "><ul>" +:+ foldr String.append "" (quantityLine <$> q :: qs)
     +:+ "</ul></div>")) st) as H1.
  destruct (host _ st) as [[content| |] st1]; simpl in *; try exact H1.
  by rewrite host_pending.
Qed.

Lemma reportAndNotify_pending this options drawResult st :
  pendingQuantities (reportAndNotify this options drawResult st).2 = pendingQuantities st.
Proof.
  rewrite reportAndNotify_eq. unfold bind.
  destruct (_ && _).
  - pose proof (sendQuantityChat_pending this (dr_results drawResult)
                  (dr_roll drawResult) (o_rollMode options) st) as H1.
    destruct (sendQuantityChat _ _ _ _ st) as [[[]| |] st1]; simpl in *; try exact H1.
    by rewrite host_pending.
  - unfold ret. by rewrite host_pending.
Qed.

Section WrapperPending.

Variable R : gmap string (list Z) → gmap string (list Z) → Prop.
Hypothesis R_refl : ∀ p, R p p.
Hypothesis R_trans : ∀ p1 p2 p3, R p1 p2 → R p2 p3 → R p1 p3.
Hypothesis R_push :
  ∀ uuid q p w w' img,
    fromUuid uuid w = (inl (Some (DocItem img)), w') → 0 < q →
    R p (pendingQuantities_push uuid q p).
Hypothesis R_draw :
  ∀ table options st,
    R (pendingQuantities st) (pendingQuantities (draw table options st).2).

(** The wrapper does to the queues what the wrapped draw and the expansion
    do to them. *)
Lemma wrappedDraw_pending this wrapped options st :
  (∀ options st, R (pendingQuantities st) (pendingQuantities (wrapped options st).2)) →
  R (pendingQuantities st) (pendingQuantities (wrappedDraw this wrapped options st).2).
Proof.
  intros Hw. rewrite wrappedDraw_eq, wrappedDraw_try_eq.
  pose proof (Hw options st) as H1.
  destruct (wrapped options st) as [[drawResult|err|] st1]; simpl in H1.
  - pose proof (processResults_pending Roll_evaluate fromUuid draw R R_refl R_trans
                  R_push R_draw (dr_results drawResult) 0 st1) as H2.
    destruct (processResults _ 0 st1) as [[results|err|] st2]; simpl in H2.
    + cbv zeta.
      pose proof (reportAndNotify_pending this options
                    (mkDrawResult results (dr_roll drawResult)) st2) as H3.
      destruct (reportAndNotify _ _ _ st2) as [[[]|err|] st3]; simpl in *;
        rewrite H3; by eapply R_trans.
    + simpl. by eapply R_trans.
    + simpl. by eapply R_trans.
  - simpl. eapply R_trans; [exact H1|]. apply (Hw options (logged err st1)).
  - exact H1.
Qed.

End WrapperPending.

End WrapperFacts.

(** The draw from table [top] returns result 4; with dice 2, 1, 1 the
    expansion replaces it by results 2, 2 and stores quantities, so the chat
    report is attempted; it throws, and the wrapper answers with the
    expanded list. *)
Lemma wrappedDraw_contains_errors_witness :
  (wrappedDraw Scenario.Roll_evaluate Scenario.fromUuid Scenario.TextEditor_enrichHTML
     Scenario.ChatMessage_create_fails Scenario.Hooks_callAll Scenario.game_settings
     Scenario.plain_draw Scenario.top (Scenario.plain_draw Scenario.top)
     Scenario.noOptions (Scenario.start [2; 1; 1])).1
  = Ret (mkDrawResult [2; 2]%nat 1).
Proof.
  destruct (wrappedDraw_contains_errors
    Scenario.Roll_evaluate Scenario.fromUuid Scenario.TextEditor_enrichHTML
    Scenario.ChatMessage_create_fails Scenario.Hooks_callAll Scenario.game_settings
    Scenario.plain_draw Scenario.top (Scenario.plain_draw Scenario.top)
    Scenario.noOptions (Scenario.start [2; 1; 1])) as [_ Hreturned].
  destruct (Hreturned (mkDrawResult [4%nat] 1) (Scenario.start [2; 1; 1]))
    as (_ & Hexpanded & _); [vm_compute; reflexivity|].
  edestruct (Hexpanded [2; 2]%nat) as [_ Hreport]; [vm_compute; reflexivity|].
  erewrite Hreport; [reflexivity|]. vm_compute. reflexivity.
Defined.

Lemma wrappedDraw_answer_can_be_expanded :
  Scenario.plain_draw Scenario.top Scenario.noOptions (Scenario.start [2; 1; 1])
  = (Ret (mkDrawResult [4%nat] 1), Scenario.start [2; 1; 1])
  ∧ (wrappedDraw Scenario.Roll_evaluate Scenario.fromUuid Scenario.TextEditor_enrichHTML
       Scenario.ChatMessage_create_fails Scenario.Hooks_callAll Scenario.game_settings
       Scenario.plain_draw Scenario.top (Scenario.plain_draw Scenario.top)
       Scenario.noOptions (Scenario.start [2; 1; 1])).1
    = Ret (mkDrawResult [2; 2]%nat 1)
  ∧ console
      (wrappedDraw Scenario.Roll_evaluate Scenario.fromUuid Scenario.TextEditor_enrichHTML
         Scenario.ChatMessage_create_fails Scenario.Hooks_callAll Scenario.game_settings
         Scenario.plain_draw Scenario.top (Scenario.plain_draw Scenario.top)
         Scenario.noOptions (Scenario.start [2; 1; 1])).2
    = [LogError "table-quantities | Error processing table draw:"
         (HostError "chat is down")].
Proof. conjuncts; vm_compute; reflexivity. Qed.

(* ===================================================================== *)
(** ** The pending-quantity queues over whole runs                        *)
(* ===================================================================== *)

Lemma leaf_pushes_trans {World}
    (fromUuid : string → World → (option Document + Error) * World) p1 p2 p3 :
  leaf_pushes fromUuid p1 p2 → leaf_pushes fromUuid p2 p3 → leaf_pushes fromUuid p1 p3.
Proof.
  intros H12 H23. induction H23 as [|p2 p3 uuid q w w' img _ IH Hdoc Hq]; [exact H12|].
  eapply pushes_leaf; [by apply IH|exact Hdoc|exact Hq].
Qed.



Section LedgerFacts.

Context {World : Type}.
Variable Roll_evaluate : string → World → (Z + Error) * World.
Variable fromUuid : string → World → (option Document + Error) * World.
Variable game_settings : World → Settings.
Variable draw : Table → DrawOptions → State World → outcome DrawResult * State World.

Local Abbreviation processResults := (processResults Roll_evaluate fromUuid draw).
Local Abbreviation expandOne := (expandOne Roll_evaluate fromUuid draw).
Local Abbreviation preCreateItem := (preCreateItem game_settings).




End LedgerFacts.


(* ===================================================================== *)
(** ** The draw method once the module is installed                       *)
(* ===================================================================== *)

Section InstalledFacts.

Context {World : Type}.
Variable Roll_evaluate : string → World → (Z + Error) * World.
Variable fromUuid : string → World → (option Document + Error) * World.
Variable TextEditor_enrichHTML : string → World → (string + Error) * World.
Variable ChatMessage_create : ChatData → World → (unit + Error) * World.
Variable Hooks_callAll :
  string → list nat → gmap nat QuantityData → World → (unit + Error) * World.
Variable game_settings : World → Settings.
Variable original_draw : Table → DrawOptions → World → (DrawResult + Error) * World.

Lemma RollTable_draw_eq fuel table options :
  RollTable_draw Roll_evaluate fromUuid TextEditor_enrichHTML ChatMessage_create
    Hooks_callAll game_settings original_draw (S fuel) table options
  = wrappedDraw Roll_evaluate fromUuid TextEditor_enrichHTML ChatMessage_create
      Hooks_callAll game_settings
      (RollTable_draw Roll_evaluate fromUuid TextEditor_enrichHTML ChatMessage_create
         Hooks_callAll game_settings original_draw fuel)
      table (fun options => host (original_draw table options)) options.
Proof. reflexivity. Qed.

Local Abbreviation RollTable_draw :=
  (RollTable_draw Roll_evaluate fromUuid TextEditor_enrichHTML ChatMessage_create
     Hooks_callAll game_settings original_draw).

(** The installed draw method, however deep it goes, does to the queues
    only what pushing for resolved items does; so it only adds at the end of
    queues and keeps them non-empty, as the plain draw of the host does. *)
Lemma RollTable_draw_pending (R : gmap string (list Z) → gmap string (list Z) → Prop) :
  (∀ p, R p p) →
  (∀ p1 p2 p3, R p1 p2 → R p2 p3 → R p1 p3) →
  (∀ uuid q p w w' img,
     fromUuid uuid w = (inl (Some (DocItem img)), w') → 0 < q →
     R p (pendingQuantities_push uuid q p)) →
  ∀ fuel table options st,
    R (pendingQuantities st) (pendingQuantities (RollTable_draw fuel table options st).2).
Proof.
  intros R_refl R_trans R_push fuel.
  induction fuel as [|fuel IH]; intros table options st; [apply R_refl|].
  rewrite RollTable_draw_eq. apply wrappedDraw_pending; try assumption.
  intros options' st'. rewrite host_pending. apply R_refl.
Qed.

(** In particular the installed draw method only pushes for resolved
    items. *)
Lemma RollTable_draw_leaf_pushes fuel table options st :
  leaf_pushes fromUuid (pendingQuantities st)
    (pendingQuantities (RollTable_draw fuel table options st).2).
Proof.
  apply (RollTable_draw_pending (leaf_pushes fromUuid)).
  - apply pushes_none.
  - apply leaf_pushes_trans.
  - intros uuid q p w w' img Hdoc Hq.
    eapply pushes_leaf; [apply pushes_none|exact Hdoc|exact Hq].
Qed.

End InstalledFacts.

(** Result 4 points at table [xyz] with quantity 2; each draw from [xyz]
    gives result 2, an item directive with quantity 1.  With the host's own
    draw as [doc.draw] two quantities are queued.  With the installed method
    each nested draw is expanded by the wrapper (at depth 0) and then again
    by the caller (at depth 1), so four are queued. *)
Example nested_draw_expanded_twice :
  pendingQuantities
    (processResults Scenario.Roll_evaluate Scenario.fromUuid Scenario.plain_draw
       [4%nat] 0 (Scenario.start [2; 1; 1])).2 !! "Item.def" = Some [1; 1]
  ∧ pendingQuantities
      (processResults Scenario.Roll_evaluate Scenario.fromUuid (Scenario.installed_draw 2)
         [4%nat] 0 (Scenario.start [2; 1; 1; 1; 1])).2 !! "Item.def" = Some [1; 1; 1; 1].
Proof. split; vm_compute; reflexivity. Qed.

(** Table [loop] draws result 3, whose directive points back at [loop].
    With dice that keep coming up 1, a draw through the installed method
    never gets to the depth bound: each nested draw enters [processResults]
    at depth 0 again, so the run uses up every level it is given. *)
Lemma installed_draw_cycle_never_answers fuel :
  ∀ n options,
    (fuel ≤ n)%nat →
    (Scenario.installed_draw fuel Scenario.loop options
       (Scenario.start (repeat 1 n))).1 = Diverge.
Proof.
  induction fuel as [|fuel IH]; intros n options Hn; [reflexivity|].
  destruct n as [|n]; [lia|].
  unfold Scenario.installed_draw. rewrite RollTable_draw_eq.
  rewrite wrappedDraw_eq, wrappedDraw_try_eq.
  change (host (Scenario.original_draw Scenario.loop options)
            (Scenario.start (repeat 1 (S n))))
    with (Ret (mkDrawResult [3%nat] 1), Scenario.start (repeat 1 (S n))).
  cbv iota beta. simpl dr_results.
  rewrite processResults_single.
  rewrite (expandOne_resolved _ _ _ 3%nat
             (mkTableResult "text" (Some "[[/r 1d2-1]]@UUID[RollTable.loop]{Loop}")
                None "" None)
             (mkParsed "1d2-1" "RollTable.loop" "Loop") 0 _ 1 (repeat 1 n)
             (Some (DocRollTable Scenario.loop)) (repeat 1 n));
    [|reflexivity|vm_compute; reflexivity|reflexivity|lia|reflexivity].
  change (0 >=? MAX_RECURSION_DEPTH) with false. cbv iota.
  change (Z.to_nat 1) with 1%nat. simpl drawLoop. unfold bind at 1. unfold bind at 1.
  change (set_world (repeat 1 n) (Scenario.start (repeat 1 (S n))))
    with (Scenario.start (repeat 1 n)).
  specialize (IH n (mkDrawOptions (Some false) (Some true) None) ltac:(lia)).
  unfold Scenario.installed_draw in IH.
  destruct (RollTable_draw _ _ _ _ _ _ _ fuel _ _ _) as [o st']. simpl in IH. subst o.
  reflexivity.
Qed.

(** C3.  The depth bound against a cyclic table.  The table [Loop]
    of [Cycle] has one result, which points back at the table with the
    formula 1.  With the host's own draw as [doc.draw] the depth bound does
    what it is there for: the expansion goes down ten levels and is cut at
    depth 10 with the diagnostic, the result passed through.  With the
    module installed, [doc.draw] is the wrapper, and the wrapper starts
    [processResults] at depth 0 again: the bound is never reached, and a
    draw from the table does not return, however many nested calls it is
    given. *)
Theorem depth_bound_missed_by_installed_cycle :
  processResults Cycle.Roll_evaluate Cycle.fromUuid Cycle.plain_draw [1%nat] 0 Cycle.start
  = (Ret [1%nat],
     mkState tt Cycle.results
       {[1%nat := mkQuantityData 1 "RollTable.loop" "Loop" (Some true)]} ∅
       [Warn "table-quantities | Max recursion depth reached for table: Loop"])
  ∧ ∀ fuel options,
      (Cycle.installed_draw fuel Cycle.table options Cycle.start).1 = Diverge.
Proof.
  split; [vm_compute; reflexivity|].
  intros fuel. induction fuel as [|fuel IH]; intros options; [reflexivity|].
  unfold Cycle.installed_draw. rewrite RollTable_draw_eq.
  rewrite wrappedDraw_eq, wrappedDraw_try_eq.
  change (host (Cycle.original_draw Cycle.table options) Cycle.start)
    with (Ret (mkDrawResult [1%nat] 1), Cycle.start).
  cbv iota beta. simpl dr_results.
  rewrite processResults_single.
  rewrite (expandOne_resolved _ _ _ 1%nat
             (mkTableResult "text" (Some "[[/r 1]]@UUID[RollTable.loop]{Loop}")
                None "" None)
             (mkParsed "1" "RollTable.loop" "Loop") 0 _ 1 tt
             (Some (DocRollTable Cycle.table)) tt);
    [|reflexivity|vm_compute; reflexivity|reflexivity|lia|reflexivity].
  change (0 >=? MAX_RECURSION_DEPTH) with false. cbv iota.
  change (Z.to_nat 1) with 1%nat. simpl drawLoop. unfold bind at 1. unfold bind at 1.
  change (set_world tt Cycle.start) with Cycle.start.
  specialize (IH (mkDrawOptions (Some false) (Some true) None)).
  unfold Cycle.installed_draw in IH.
  destruct (RollTable_draw _ _ _ _ _ _ _ fuel _ _ _) as [o st']. simpl in IH. subst o.
  reflexivity.
Qed.

(* ===================================================================== *)
(** ** Further properties of the module                                   *)
(* ===================================================================== *)

(* ===================================================================== *)
(** ** What a run keeps                                                   *)
(* ===================================================================== *)

Section Steps.

Context {World : Type}.
Variable Roll_evaluate : string → World → (Z + Error) * World.
Variable fromUuid : string → World → (option Document + Error) * World.
Variable draw : Table → DrawOptions → State World → outcome DrawResult * State World.

Local Abbreviation drawLoop := (drawLoop draw).
Local Abbreviation processResult_body := (processResult_body Roll_evaluate fromUuid draw).
Local Abbreviation resultsLoop := (resultsLoop Roll_evaluate fromUuid draw).
Local Abbreviation processResults_fuel := (processResults_fuel Roll_evaluate fromUuid draw).
Local Abbreviation processResults := (processResults Roll_evaluate fromUuid draw).

(** A relation between the state before and the state after that holds
    across each single thing the engine does holds across a whole run. *)
Variable R : State World → State World → Prop.
Hypothesis R_refl : ∀ st, R st st.
Hypothesis R_trans : ∀ st1 st2 st3, R st1 st2 → R st2 st3 → R st1 st3.
Hypothesis R_host : ∀ w st, R st (set_world w st).
Hypothesis R_warn : ∀ msg st, R st (set_console (console st ++ [Warn msg]) st).
Hypothesis R_promote :
  ∀ result r parsed img st,
    store st !! result = Some r →
    parseQuantityResult r = Some parsed →
    r_type r = "text" →
    R st (set_store (<[result := promoted parsed img]> (store st)) st).
Hypothesis R_record :
  ∀ result data st,
    0 < q_quantity data →
    R st (set_resultQuantities (<[result := data]> (resultQuantities st)) st).
Hypothesis R_enqueue :
  ∀ uuid q st,
    0 < q →
    R st (set_pendingQuantities (pendingQuantities_push uuid q (pendingQuantities st)) st).
Hypothesis R_draw : ∀ table options st, R st (draw table options st).2.

Lemma host_step {A} (f : World → (A + Error) * World) st : R st (host f st).2.
Proof. unfold host. destruct (f (world st)) as [[a|e] w]; apply R_host. Qed.

Lemma drawLoop_steps recur table depth :
  (∀ rs st, R st (recur rs (depth + 1) st).2) →
  ∀ n acc st, R st (drawLoop recur table depth n acc st).2.
Proof.
  intros Hrec n. induction n as [|n IH]; intros acc st; simpl; [apply R_refl|].
  unfold bind.
  pose proof (R_draw table (mkDrawOptions (Some false) (Some true) None) st) as Hd.
  destruct (draw _ _ st) as [[d| |] st1]; simpl in *; try exact Hd.
  pose proof (Hrec (dr_results d) st1) as Hr.
  destruct (recur _ _ st1) as [[out| |] st2]; simpl in *;
    try (eapply R_trans; [exact Hd|exact Hr]).
  eapply R_trans; [exact Hd|]. eapply R_trans; [exact Hr|]. apply IH.
Qed.

Lemma processResult_body_steps recur result r parsed depth st :
  store st !! result = Some r →
  parseQuantityResult r = Some parsed →
  (∀ rs st, R st (recur rs (depth + 1) st).2) →
  R st (processResult_body recur result parsed depth st).2.
Proof.
  intros Hr Hp Hrec. rewrite processResult_body_eq. unfold bind, evaluateFormula, host.
  destruct (Roll_evaluate _ _) as [[q|e] w1]; simpl; [|apply R_host].
  destruct (Z.leb_spec q 0) as [_|Hq]; [apply R_host|]. simpl.
  eapply R_trans; [apply (R_host w1)|].
  set (st1 := set_world w1 st).
  assert (Hr1 : ∀ w, store (set_world w st1) !! result = Some r) by (intros; exact Hr).
  destruct (fromUuid _ _) as [[[[table|img|]|]|e] w2]; simpl; try apply R_host;
    (eapply R_trans; [apply (R_host w2)|]); set (st2 := set_world w2 st1).
  - destruct (depth >=? MAX_RECURSION_DEPTH).
    + apply (R_warn _ st2).
    + pose proof (drawLoop_steps recur table depth Hrec (Z.to_nat q) [] st2) as Hl.
      destruct (drawLoop _ _ _ _ _ _) as [[sub| |] st3]; simpl in *; try exact Hl.
      eapply R_trans; [exact Hl|]. apply (R_record result
               (mkQuantityData q (p_uuid parsed) (p_name parsed) (Some true)) st3).
      exact Hq.
  - unfold readResult. simpl. rewrite Hr.
    destruct (String.eqb_spec (r_type r) "text") as [Ht|_]; simpl.
    + eapply R_trans; [by apply (R_promote result r parsed img st2)|].
      eapply R_trans;
        [apply (R_record result (mkQuantityData q (p_uuid parsed) (p_name parsed) None)
                  (set_store _ st2)); exact Hq|].
      by apply (R_enqueue _ _ (set_resultQuantities _ (set_store _ st2))).
    + eapply R_trans;
        [apply (R_record result (mkQuantityData q (p_uuid parsed) (p_name parsed) None)
                  st2); exact Hq|].
      by apply (R_enqueue _ _ (set_resultQuantities _ st2)).
  - apply (R_warn _ st2).
  - apply (R_warn _ st2).
Qed.

Lemma resultsLoop_steps recur depth :
  (∀ rs st, R st (recur rs (depth + 1) st).2) →
  ∀ results acc st, R st (resultsLoop recur depth results acc st).2.
Proof.
  intros Hrec results. induction results as [|r rest IH]; intros acc st; simpl;
    [apply R_refl|].
  unfold bind, readResult. destruct (store st !! r) as [res|] eqn:Hr; [|apply R_refl].
  destruct (parseQuantityResult res) as [parsed|] eqn:Hp; [|apply IH].
  pose proof (processResult_body_steps recur r res parsed depth st Hr Hp Hrec) as Hb.
  destruct (processResult_body recur r parsed depth st) as [[out| |] st2]; simpl in *;
    try exact Hb.
  eapply R_trans; [exact Hb|apply IH].
Qed.

Lemma processResults_fuel_steps fuel :
  ∀ results depth st, R st (processResults_fuel fuel results depth st).2.
Proof.
  induction fuel as [|fuel IH]; intros results depth st; simpl; [apply R_refl|].
  apply resultsLoop_steps. intros rs st'. apply IH.
Qed.

Lemma processResults_steps results depth st :
  R st (processResults results depth st).2.
Proof. rewrite processResults_eq. apply processResults_fuel_steps. Qed.

End Steps.

Section WrapperSteps.

Context {World : Type}.
Variable Roll_evaluate : string → World → (Z + Error) * World.
Variable fromUuid : string → World → (option Document + Error) * World.
Variable TextEditor_enrichHTML : string → World → (string + Error) * World.
Variable ChatMessage_create : ChatData → World → (unit + Error) * World.
Variable Hooks_callAll :
  string → list nat → gmap nat QuantityData → World → (unit + Error) * World.
Variable game_settings : World → Settings.
Variable original_draw : Table → DrawOptions → World → (DrawResult + Error) * World.

Variable R : State World → State World → Prop.
Hypothesis R_refl : ∀ st, R st st.
Hypothesis R_trans : ∀ st1 st2 st3, R st1 st2 → R st2 st3 → R st1 st3.
Hypothesis R_host : ∀ w st, R st (set_world w st).
Hypothesis R_warn : ∀ msg st, R st (set_console (console st ++ [Warn msg]) st).
Hypothesis R_error :
  ∀ msg err st, R st (set_console (console st ++ [LogError msg err]) st).
Hypothesis R_promote :
  ∀ result r parsed img st,
    store st !! result = Some r →
    parseQuantityResult r = Some parsed →
    r_type r = "text" →
    R st (set_store (<[result := promoted parsed img]> (store st)) st).
Hypothesis R_record :
  ∀ result data st,
    0 < q_quantity data →
    R st (set_resultQuantities (<[result := data]> (resultQuantities st)) st).
Hypothesis R_enqueue :
  ∀ uuid q st,
    0 < q →
    R st (set_pendingQuantities (pendingQuantities_push uuid q (pendingQuantities st)) st).

Lemma sendQuantityChat_steps table results roll rollMode st :
  R st (sendQuantityChat TextEditor_enrichHTML ChatMessage_create table results roll
          rollMode st).2.
Proof.
  rewrite sendQuantityChat_eq. destruct (omap _ results) as [|q qs]; [apply R_refl|].
  unfold bind.
  pose proof (host_step R R_host (TextEditor_enrichHTML
    ("<div class=" +:+ dquote +:+ "table-quantities-results" +:+ dquote
     +:+ "><ul>" +:+ foldr String.append "" (quantityLine <$> q :: qs)
     +:+ "</ul></div>")) st) as H1.
  destruct (host _ st) as [[content| |] st1]; simpl in *; try exact H1.
  eapply R_trans; [exact H1|]. by apply host_step.
Qed.

Lemma reportAndNotify_steps this options drawResult st :
  R st (reportAndNotify TextEditor_enrichHTML ChatMessage_create Hooks_callAll
          game_settings this options drawResult st).2.
Proof.
  rewrite reportAndNotify_eq. unfold bind.
  destruct (_ && _).
  - pose proof (sendQuantityChat_steps this (dr_results drawResult)
                  (dr_roll drawResult) (o_rollMode options) st) as H1.
    destruct (sendQuantityChat _ _ _ _ _ _ st) as [[[]| |] st1]; simpl in *;
      try exact H1.
    eapply R_trans; [exact H1|]. by apply host_step.
  - unfold ret. by apply host_step.
Qed.

Lemma wrappedDraw_steps draw this wrapped options st :
  (∀ table options st, R st (draw table options st).2) →
  (∀ options st, R st (wrapped options st).2) →
  R st (wrappedDraw Roll_evaluate fromUuid TextEditor_enrichHTML ChatMessage_create
          Hooks_callAll game_settings draw this wrapped options st).2.
Proof.
  intros Hdraw Hw. rewrite wrappedDraw_eq, wrappedDraw_try_eq.
  pose proof (Hw options st) as H1.
  destruct (wrapped options st) as [[drawResult|err|] st1]; simpl in H1.
  - pose proof (processResults_steps Roll_evaluate fromUuid draw R R_refl R_trans R_host
                  R_warn R_promote R_record R_enqueue Hdraw (dr_results drawResult) 0 st1)
      as H2.
    destruct (processResults _ _ _ _ 0 st1) as [[results|err|] st2]; simpl in H2.
    + cbv zeta.
      pose proof (reportAndNotify_steps this options
                    (mkDrawResult results (dr_roll drawResult)) st2) as H3.
      destruct (reportAndNotify _ _ _ _ _ _ _ st2) as [[[]|err|] st3]; simpl in *.
      * eapply R_trans; [exact H1|]. by eapply R_trans.
      * eapply R_trans; [exact H1|]. eapply R_trans; [exact H2|].
        eapply R_trans; [exact H3|]. apply (R_error _ _ st3).
      * eapply R_trans; [exact H1|]. by eapply R_trans.
    + simpl. eapply R_trans; [exact H1|]. eapply R_trans; [exact H2|].
      apply (R_error _ _ st2).
    + simpl. by eapply R_trans.
  - simpl. eapply R_trans; [exact H1|].
    apply (R_trans _ (logged err st1)); [apply R_error|apply Hw].
  - exact H1.
Qed.

Lemma RollTable_draw_steps fuel :
  ∀ table options st,
    R st (RollTable_draw Roll_evaluate fromUuid TextEditor_enrichHTML ChatMessage_create
            Hooks_callAll game_settings original_draw fuel table options st).2.
Proof.
  induction fuel as [|fuel IH]; intros table options st; [apply R_refl|].
  rewrite RollTable_draw_eq. apply wrappedDraw_steps; [exact IH|].
  intros options' st'. by apply host_step.
Qed.

(** With the installed method as [doc.draw]. *)
Lemma installed_processResults_steps fuel results depth st :
  R st (processResults Roll_evaluate fromUuid
          (RollTable_draw Roll_evaluate fromUuid TextEditor_enrichHTML ChatMessage_create
             Hooks_callAll game_settings original_draw fuel) results depth st).2.
Proof.
  apply processResults_steps; try assumption. apply RollTable_draw_steps.
Qed.

End WrapperSteps.

(** *** Positive quantities *)

Lemma parse_promoted parsed img : parseQuantityResult (promoted parsed img) = None.
Proof.
  unfold parseQuantityResult, promoted. simpl.
  by destruct (negb (String.eqb (p_uuid parsed) "")).
Qed.

Lemma positive_record {World} result data (st : State World) :
  0 < q_quantity data →
  quantities_positive st →
  quantities_positive
    (set_resultQuantities (<[result := data]> (resultQuantities st)) st).
Proof.
  intros Hq [Hrec Hqueue]. split; [|exact Hqueue].
  intros other d. simpl. destruct (decide (other = result)) as [->|Hne].
  - rewrite lookup_insert_eq. by intros [= <-].
  - rewrite lookup_insert_ne by done. apply Hrec.
Qed.

Lemma positive_enqueue {World} uuid q (st : State World) :
  0 < q →
  quantities_positive st →
  quantities_positive
    (set_pendingQuantities (pendingQuantities_push uuid q (pendingQuantities st)) st).
Proof.
  intros Hq [Hrec Hqueue]. split; [exact Hrec|].
  intros other queue. simpl. destruct (decide (other = uuid)) as [->|Hne].
  - rewrite pendingQuantities_push_lookup. intros [= <-].
    apply Forall_app. split; [|by constructor].
    destruct (pendingQuantities st !! uuid) as [old|] eqn:E; simpl; [|constructor].
    by eapply Hqueue.
  - rewrite pendingQuantities_push_other by done. apply Hqueue.
Qed.

(** *** The store *)

Lemma store_kept_refl {World} (st : State World) : store_kept st st.
Proof. intros result. destruct (store st !! result); [by left|reflexivity]. Qed.

Lemma store_kept_same {World} (st st' : State World) :
  store st' = store st → store_kept st st'.
Proof.
  intros Heq result. rewrite Heq. destruct (store st !! result); [by left|reflexivity].
Qed.

Lemma store_kept_trans {World} (st1 st2 st3 : State World) :
  store_kept st1 st2 → store_kept st2 st3 → store_kept st1 st3.
Proof.
  intros H12 H23 result. specialize (H12 result). specialize (H23 result).
  destruct (store st1 !! result) as [r|].
  - destruct H12 as [H12|(Ht & parsed & img & Hp & H12)]; rewrite H12 in H23.
    + exact H23.
    + destruct H23 as [H23|(Ht' & _)]; [|discriminate]. right. eauto.
  - by rewrite H12 in H23.
Qed.

Lemma store_kept_promote {World} result r parsed img (st : State World) :
  store st !! result = Some r →
  parseQuantityResult r = Some parsed →
  r_type r = "text" →
  store_kept st (set_store (<[result := promoted parsed img]> (store st)) st).
Proof.
  intros Hr Hp Ht other. simpl. destruct (decide (other = result)) as [->|Hne].
  - rewrite Hr, lookup_insert_eq. right. eauto.
  - rewrite lookup_insert_ne by done. destruct (store st !! other); [by left|done].
Qed.

Section RunInvariants.

Context {World : Type}.
Variable Roll_evaluate : string → World → (Z + Error) * World.
Variable fromUuid : string → World → (option Document + Error) * World.
Variable TextEditor_enrichHTML : string → World → (string + Error) * World.
Variable ChatMessage_create : ChatData → World → (unit + Error) * World.
Variable Hooks_callAll :
  string → list nat → gmap nat QuantityData → World → (unit + Error) * World.
Variable game_settings : World → Settings.
Variable original_draw : Table → DrawOptions → World → (DrawResult + Error) * World.
Variable draw : Table → DrawOptions → State World → outcome DrawResult * State World.

Local Abbreviation processResults := (processResults Roll_evaluate fromUuid draw).
Local Abbreviation RollTable_draw :=
  (RollTable_draw Roll_evaluate fromUuid TextEditor_enrichHTML ChatMessage_create
     Hooks_callAll game_settings original_draw).

(** X1.  Only positive quantities are ever recorded or queued: if every
    record of [resultQuantities] and every entry of [pendingQuantities] is
    positive before a run of [processResults] (with a [doc.draw] that keeps
    this), it is so after the run, however the run ends; and the same holds
    across a draw through the installed method.  The guard [quantity <= 0]
    in front of both writes is what makes it so. *)
Theorem quantities_stay_positive fuel table options results depth st :
  (∀ table options st,
     quantities_positive st → quantities_positive (draw table options st).2) →
  quantities_positive st →
  quantities_positive (processResults results depth st).2
  ∧ quantities_positive (RollTable_draw fuel table options st).2.
Proof.
  intros Hdraw Hst. split.
  - revert Hst.
    apply (processResults_steps Roll_evaluate fromUuid draw
             (fun st st' => quantities_positive st → quantities_positive st'));
      auto using positive_record, positive_enqueue.
  - revert Hst.
    apply (RollTable_draw_steps Roll_evaluate fromUuid TextEditor_enrichHTML
             ChatMessage_create Hooks_callAll game_settings original_draw
             (fun st st' => quantities_positive st → quantities_positive st'));
      auto using positive_record, positive_enqueue.
Qed.

(** X2.  A run changes the store of results in one way only: a [text]
    result with a directive may be replaced by the [document] record for
    that directive.  No result is added or removed, and a result that is not
    a [text] result is afterwards exactly what it was.  This holds for
    [processResults] with any [doc.draw] that does no more to the store, and
    for a draw through the installed method. *)
Theorem store_only_promoted fuel table options results depth st :
  (∀ table options st, store_kept st (draw table options st).2) →
  store_kept st (processResults results depth st).2
  ∧ store_kept st (RollTable_draw fuel table options st).2
  ∧ (∀ result r,
       store st !! result = Some r → r_type r ≠ "text" →
       store (processResults results depth st).2 !! result = Some r).
Proof.
  intros Hdraw.
  assert (Hrun : store_kept st (processResults results depth st).2).
  { apply (processResults_steps Roll_evaluate fromUuid draw store_kept);
      eauto using store_kept_refl, store_kept_trans, store_kept_promote;
      intros; by apply store_kept_same. }
  split; [exact Hrun|]. split.
  - apply (RollTable_draw_steps Roll_evaluate fromUuid TextEditor_enrichHTML
             ChatMessage_create Hooks_callAll game_settings original_draw store_kept);
      eauto using store_kept_refl, store_kept_trans, store_kept_promote;
      intros; by apply store_kept_same.
  - intros result r Hr Ht. specialize (Hrun result). rewrite Hr in Hrun.
    by destruct Hrun as [?|[? _]].
Qed.

End RunInvariants.

Lemma plain_draw_state table options (st : State Scenario.World) :
  ∃ w, (Scenario.plain_draw table options st).2 = set_world w st.
Proof.
  unfold Scenario.plain_draw, host.
  destruct (Scenario.original_draw _ _ _) as [[d|e] w]; by exists w.
Qed.

Lemma quantities_stay_positive_witness :
  quantities_positive
    (processResults Scenario.Roll_evaluate Scenario.fromUuid Scenario.plain_draw
       [1; 4; 3]%nat 0 (Scenario.start [2; 2; 1; 1; 0])).2.
Proof.
  refine (proj1 (quantities_stay_positive
    Scenario.Roll_evaluate Scenario.fromUuid Scenario.TextEditor_enrichHTML
    Scenario.ChatMessage_create Scenario.Hooks_callAll Scenario.game_settings
    Scenario.original_draw Scenario.plain_draw 0 Scenario.top Scenario.noOptions
    [1; 4; 3]%nat 0 (Scenario.start [2; 2; 1; 1; 0]) _ _)).
  - intros table options st Hst.
    destruct (plain_draw_state table options st) as [w ->]. exact Hst.
  - split; intros ? ? Hlook; vm_compute in Hlook; discriminate.
Defined.

Lemma store_only_promoted_witness :
  store_kept (Scenario.start [2; 2; 1; 1; 0])
    (processResults Scenario.Roll_evaluate Scenario.fromUuid Scenario.plain_draw
       [1; 4; 3]%nat 0 (Scenario.start [2; 2; 1; 1; 0])).2.
Proof.
  refine (proj1 (store_only_promoted
    Scenario.Roll_evaluate Scenario.fromUuid Scenario.TextEditor_enrichHTML
    Scenario.ChatMessage_create Scenario.Hooks_callAll Scenario.game_settings
    Scenario.original_draw Scenario.plain_draw 0 Scenario.top Scenario.noOptions
    [1; 4; 3]%nat 0 (Scenario.start [2; 2; 1; 1; 0]) _)).
  intros table options st.
  destruct (plain_draw_state table options st) as [w ->]. by apply store_kept_same.
Defined.

(** *** Whole lists *)

Section Batches.

Context {World : Type}.
Variable Roll_evaluate : string → World → (Z + Error) * World.
Variable fromUuid : string → World → (option Document + Error) * World.
Variable draw : Table → DrawOptions → State World → outcome DrawResult * State World.

Local Abbreviation processResults := (processResults Roll_evaluate fromUuid draw).
Local Abbreviation expandOne := (expandOne Roll_evaluate fromUuid draw).

(** X3.  [processResults] works through a list piece by piece: expanding
    [l1 ++ l2] is expanding [l1], then [l2] in the state [l1] left, and
    joining the two outputs in that order; if either piece throws or does
    not return, so does the whole, in the state reached by then.  The empty
    list expands to the empty list and changes nothing. *)
Theorem batches_compose l1 l2 depth st :
  processResults [] depth st = (Ret [], st)
  ∧ processResults (l1 ++ l2) depth st
    = match processResults l1 depth st with
      | (Ret o1, st1) =>
          match processResults l2 depth st1 with
          | (Ret o2, st2) => (Ret (o1 ++ o2), st2)
          | (Throw e, st2) => (Throw e, st2)
          | (Diverge, st2) => (Diverge, st2)
          end
      | (Throw e, st1) => (Throw e, st1)
      | (Diverge, st1) => (Diverge, st1)
      end.
Proof.
  split; [apply processResults_nil|].
  rewrite processResults_app. unfold bind.
  destruct (processResults l1 depth st) as [[o1| |] st1]; reflexivity.
Qed.

(** X4.  Nothing in [processResults] catches an error.  When the formula of
    a result fails to evaluate, or the result's target fails to load, the
    whole call throws that error: the output gathered from the results in
    front is lost, the results behind are never looked at, and what the
    results in front recorded and queued stays. *)
Theorem failed_result_aborts_batch pre r post depth st out st1 res parsed err w1 :
  processResults pre depth st = (Ret out, st1) →
  store st1 !! r = Some res →
  parseQuantityResult res = Some parsed →
  (Roll_evaluate (trim (p_formula parsed)) (world st1) = (inr err, w1)
   ∨ ∃ q w0, Roll_evaluate (trim (p_formula parsed)) (world st1) = (inl q, w0)
             ∧ 0 < q ∧ fromUuid (p_uuid parsed) w0 = (inr err, w1)) →
  processResults (pre ++ r :: post) depth st = (Throw err, set_world w1 st1).
Proof.
  intros Hpre Hr Hp Hfail.
  rewrite processResults_app. unfold bind at 1. rewrite Hpre.
  unfold bind at 1. rewrite processResults_cons. unfold bind at 1.
  assert (He : expandOne r depth st1 = (Throw err, set_world w1 st1)).
  { rewrite expandOne_eq. unfold bind at 1. unfold readResult at 1. rewrite Hr, Hp.
    rewrite processResult_eq, processResult_body_eq.
    unfold bind at 1. unfold evaluateFormula. unfold host at 1.
    destruct Hfail as [Hq|(q & w0 & Hq & Hpos & Hdoc)]; rewrite Hq; [reflexivity|].
    destruct (Z.leb_spec q 0) as [?|_]; [lia|].
    unfold bind at 1. unfold host at 1. simpl. rewrite Hdoc. reflexivity. }
  rewrite He. reflexivity.
Qed.

End Batches.

Lemma failed_result_aborts_batch_witness :
  let expand :=
    processResults Scenario.Roll_evaluate Scenario.fromUuid Scenario.plain_draw in
  expand [1; 2; 5]%nat 0 (Scenario.start [3])
  = (Throw (HostError "no dice left"),
     set_world [] (expand [1%nat] 0 (Scenario.start [3])).2)
  ∧ pendingQuantities (expand [1%nat] 0 (Scenario.start [3])).2 !! "Item.abc" = Some [3].
Proof.
  intros expand. split; [|vm_compute; reflexivity].
  apply (failed_result_aborts_batch
    Scenario.Roll_evaluate Scenario.fromUuid Scenario.plain_draw
    [1%nat] 2%nat [5%nat] 0 (Scenario.start [3]) [1%nat]
    (expand [1%nat] 0 (Scenario.start [3])).2
    (mkTableResult "document" (Some "[[/r 1]]") (Some "Item.def") "Rope" None)
    (mkParsed "1" "Item.def" "Rope") (HostError "no dice left") []).
  - vm_compute; reflexivity.
  - vm_compute; reflexivity.
  - vm_compute; reflexivity.
  - left. vm_compute; reflexivity.
Defined.

Section Flat.

Context {World : Type}.
Variable Roll_evaluate : string → World → (Z + Error) * World.
Variable fromUuid : string → World → (option Document + Error) * World.




End Flat.


(** *** A result met twice *)

Section Twice.

Context {World : Type}.
Variable Roll_evaluate : string → World → (Z + Error) * World.
Variable fromUuid : string → World → (option Document + Error) * World.
Variable draw : Table → DrawOptions → State World → outcome DrawResult * State World.

Local Abbreviation processResults := (processResults Roll_evaluate fromUuid draw).
Local Abbreviation expandOne := (expandOne Roll_evaluate fromUuid draw).

(** X6.  A [text] result that fired for an item is spent: the promotion
    empties its description, so expanding it again, at any depth, rolls
    nothing, queues nothing and changes nothing.  A list that holds the
    result twice therefore queues one quantity, not two. *)
Theorem promoted_leaf_is_spent r res parsed depth st q w1 img w2 :
  store st !! r = Some res →
  r_type res = "text" →
  parseQuantityResult res = Some parsed →
  Roll_evaluate (trim (p_formula parsed)) (world st) = (inl q, w1) →
  0 < q →
  fromUuid (p_uuid parsed) w1 = (inl (Some (DocItem img)), w2) →
  ∃ st',
    processResults [r] depth st = (Ret [r], st')
    ∧ pendingQuantities st'
      = pendingQuantities_push (p_uuid parsed) q (pendingQuantities st)
    ∧ (∀ depth', processResults [r] depth' st' = (Ret [r], st'))
    ∧ processResults [r; r] depth st = (Ret [r; r], st').
Proof.
  intros Hr Ht Hp Hq Hpos Hdoc.
  pose proof (expandOne_resolved Roll_evaluate fromUuid draw r res parsed depth st q w1
                (Some (DocItem img)) w2 Hr Hp Hq Hpos Hdoc) as Hone.
  rewrite Ht in Hone. simpl in Hone. revert Hone. run_effects.
  set (st' := set_pendingQuantities _ _). intros Hone. exists st'.
  assert (Hspent : ∀ depth', expandOne r depth' st' = (Ret [r], st')).
  { intros depth'. apply expandOne_no_directive with (res := promoted parsed img).
    - subst st'. simpl. apply lookup_insert_eq.
    - apply parse_promoted. }
  split; [by rewrite processResults_single|]. split; [reflexivity|].
  split; [intros depth'; by rewrite processResults_single|].
  rewrite processResults_cons. unfold bind. rewrite Hone.
  rewrite processResults_single, Hspent. reflexivity.
Qed.

(** X7.  A [document] result that fires for an item keeps its description,
    so it fires anew each time it is met.  A list that holds it twice rolls
    twice and queues both quantities in order, while [resultQuantities],
    keyed by the result, keeps the second roll only. *)
Theorem document_leaf_fires_again r res parsed depth st q1 w1 img1 w2 q2 w3 img2 w4 :
  store st !! r = Some res →
  r_type res ≠ "text" →
  parseQuantityResult res = Some parsed →
  Roll_evaluate (trim (p_formula parsed)) (world st) = (inl q1, w1) →
  0 < q1 →
  fromUuid (p_uuid parsed) w1 = (inl (Some (DocItem img1)), w2) →
  Roll_evaluate (trim (p_formula parsed)) w2 = (inl q2, w3) →
  0 < q2 →
  fromUuid (p_uuid parsed) w3 = (inl (Some (DocItem img2)), w4) →
  ∃ st',
    processResults [r; r] depth st = (Ret [r; r], st')
    ∧ store st' = store st
    ∧ pendingQuantities st' !! p_uuid parsed
      = Some (default [] (pendingQuantities st !! p_uuid parsed) ++ [q1; q2])
    ∧ getQuantity r st'
      = Some (mkQuantityData q2 (p_uuid parsed) (p_name parsed) None).
Proof.
  intros Hr Ht Hp Hq1 Hpos1 Hdoc1 Hq2 Hpos2 Hdoc2.
  assert (Hno : String.eqb (r_type res) "text" = false) by by apply String.eqb_neq.
  pose proof (expandOne_resolved Roll_evaluate fromUuid draw r res parsed depth st q1 w1
                (Some (DocItem img1)) w2 Hr Hp Hq1 Hpos1 Hdoc1) as Hone.
  rewrite Hno in Hone. simpl in Hone. revert Hone. run_effects.
  set (st1 := set_pendingQuantities _ _). intros Hone.
  pose proof (expandOne_resolved Roll_evaluate fromUuid draw r res parsed depth st1 q2 w3
                (Some (DocItem img2)) w4 Hr Hp Hq2 Hpos2 Hdoc2) as Htwo.
  rewrite Hno in Htwo. simpl in Htwo. revert Htwo. run_effects.
  set (st2 := set_pendingQuantities _ _). intros Htwo. exists st2.
  split.
  { rewrite processResults_cons. unfold bind. rewrite Hone.
    by rewrite processResults_single, Htwo. }
  split; [reflexivity|]. split.
  - subst st2. simpl. rewrite !pendingQuantities_push_lookup. simpl.
    by rewrite <- app_assoc.
  - unfold getQuantity. subst st2. simpl. apply lookup_insert_eq.
Qed.

End Twice.

Lemma promoted_leaf_is_spent_witness :
  let expand :=
    processResults Scenario.Roll_evaluate Scenario.fromUuid Scenario.plain_draw in
  (expand [1; 1]%nat 0 (Scenario.start [2; 4])).1 = Ret [1; 1]%nat
  ∧ pendingQuantities (expand [1; 1]%nat 0 (Scenario.start [2; 4])).2 !! "Item.abc"
    = Some [2]
  ∧ world (expand [1; 1]%nat 0 (Scenario.start [2; 4])).2 = [4].
Proof.
  intros expand.
  destruct (promoted_leaf_is_spent
    Scenario.Roll_evaluate Scenario.fromUuid Scenario.plain_draw
    1%nat (mkTableResult "text" (Some "[[/r 1d4]]@UUID[Item.abc]{Torch}") None "" None)
    (mkParsed "1d4" "Item.abc" "Torch") 0 (Scenario.start [2; 4]) 2 [4]
    (Some "torch.png") [4]) as (st' & Hone & Hpend & _ & Htwice);
    [vm_compute; reflexivity | reflexivity | vm_compute; reflexivity
    | vm_compute; reflexivity | lia | vm_compute; reflexivity |].
  subst expand. cbv beta. rewrite Htwice. simpl.
  split; [reflexivity|]. rewrite Hpend. split; [vm_compute; reflexivity|].
  vm_compute in Hone. by injection Hone as <-.
Defined.

Lemma document_leaf_fires_again_witness :
  let expand :=
    processResults Scenario.Roll_evaluate Scenario.fromUuid Scenario.plain_draw in
  (expand [2; 2]%nat 0 (Scenario.start [2; 4])).1 = Ret [2; 2]%nat
  ∧ pendingQuantities (expand [2; 2]%nat 0 (Scenario.start [2; 4])).2 !! "Item.def"
    = Some [2; 4]
  ∧ getQuantity 2%nat (expand [2; 2]%nat 0 (Scenario.start [2; 4])).2
    = Some (mkQuantityData 4 "Item.def" "Rope" None).
Proof.
  intros expand.
  destruct (document_leaf_fires_again
    Scenario.Roll_evaluate Scenario.fromUuid Scenario.plain_draw
    2%nat (mkTableResult "document" (Some "[[/r 1]]") (Some "Item.def") "Rope" None)
    (mkParsed "1" "Item.def" "Rope") 0 (Scenario.start [2; 4]) 2 [4] None [4] 4 [] None [])
    as (st' & Hrun & _ & Hpend & Hget);
    [vm_compute; reflexivity | discriminate | vm_compute; reflexivity
    | vm_compute; reflexivity | lia | vm_compute; reflexivity
    | vm_compute; reflexivity | lia | vm_compute; reflexivity |].
  subst expand. cbv beta. rewrite Hrun. simpl.
  split; [reflexivity|]. split; [exact Hpend | exact Hget].
Defined.

(** X8.  [parseQuantityResult] finds a directive only where one is written.
    When it returns one, the description holds, somewhere, the inline roll
    [[[/r], white space, the returned formula, []]]; the formula is not empty
    and holds no closing bracket; the target reference is not empty.  For a
    [document] result, reference and name are the result's own.  For a
    [text] result, the roll is followed, after optional white space, by
    [@UUID[], the returned reference, []{], the returned name and a closing
    brace. *)
Theorem parsed_directive_is_written result parsed :
  parseQuantityResult result = Some parsed →
  ∃ before blank after,
    chars (default "" (r_description result))
    = before ++ chars "[[/r" ++ blank ++ chars (p_formula parsed) ++ chars "]]" ++ after
    ∧ blank ≠ [] ∧ forallb Re.is_space blank = true
    ∧ p_formula parsed ≠ ""
    ∧ forallb (Re.not_chr "]") (chars (p_formula parsed)) = true
    ∧ p_uuid parsed ≠ ""
    ∧ ((r_type result = "document"
        ∧ r_documentUuid result = Some (p_uuid parsed)
        ∧ p_name parsed = r_name result)
       ∨ (r_type result = "text"
          ∧ ∃ gap behind,
              after = gap ++ chars "@UUID[" ++ chars (p_uuid parsed) ++ chars "]{"
                      ++ chars (p_name parsed) ++ chars "}" ++ behind
              ∧ forallb Re.is_space gap = true
              ∧ forallb (Re.not_chr "]") (chars (p_uuid parsed)) = true
              ∧ forallb (Re.not_chr "}") (chars (p_name parsed)) = true)).
Proof.
  unfold parseQuantityResult. cbv zeta. intros H.
  destruct (String.eqb_spec (r_type result) "document") as [Hdoc|Hdoc]; simpl in H.
  - destruct (truthy (r_documentUuid result)) eqn:Hu; simpl in H.
    + destruct (Re.match_ _ ROLL_PATTERN) as [gs|] eqn:Hm.
      * injection H as <-. simpl.
        destruct (match_ROLL_spelled _ _ Hm)
          as (before & blank & formula & after & -> & Hs & Hb & Hbs & Hf & Hfs).
        unfold Re.group. simpl. rewrite chars_of_list.
        exists before, blank, after.
        destruct (length_not_empty _ Hb) as [? _].
        destruct (length_not_empty _ Hf) as [_ ?].
        destruct (r_documentUuid result) as [u|]; [|discriminate]. simpl in *.
        apply negb_true_iff in Hu. apply String.eqb_neq in Hu.
        repeat split; try done. by left.
      * rewrite Hdoc in H. simpl in H. discriminate.
    + rewrite Hdoc in H. simpl in H. discriminate.
  - destruct (String.eqb_spec (r_type result) "text") as [Htext|]; [|discriminate].
    destruct (Re.match_ _ TEXT_PATTERN) as [gs|] eqn:Hm; [|discriminate].
    injection H as <-. simpl.
    destruct (match_TEXT_spelled _ _ Hm)
      as (before & blank & formula & gap & uuid & name & behind
          & -> & Hs & Hb & Hbs & Hf & Hfs & Hgs & Hu & Hus & Hns).
    unfold Re.group. simpl. rewrite !chars_of_list.
    destruct (length_not_empty _ Hb) as [? _].
    destruct (length_not_empty _ Hf) as [_ ?].
    destruct (length_not_empty _ Hu) as [_ ?].
    eexists before, blank, _. split; [exact Hs|].
    repeat split; try done. right. split; [done|]. by exists gap, behind.
Qed.

Lemma parsed_directive_is_written_witness :
  parseQuantityResult
    (mkTableResult "text" (Some "Take [[/r 1d4]] @UUID[Item.abc]{Torch} with you")
       None "" None)
  = Some (mkParsed "1d4" "Item.abc" "Torch")
  ∧ forallb (Re.not_chr "]") (chars "1d4") = true.
Proof.
  split; [vm_compute; reflexivity|].
  destruct (parsed_directive_is_written
    (mkTableResult "text" (Some "Take [[/r 1d4]] @UUID[Item.abc]{Torch} with you")
       None "" None)
    (mkParsed "1d4" "Item.abc" "Torch"))
    as (_ & _ & _ & _ & _ & _ & _ & Hf & _); [vm_compute; reflexivity|].
  exact Hf.
Defined.

(** *** [trim] *)

Lemma trimStart_blank a s :
  forallb Re.is_space a = true → trimStart (a ++ s) = trimStart s.
Proof.
  induction a as [|c a IH]; simpl; [done|].
  intros H. apply andb_true_iff in H as [-> H]. by apply IH.
Qed.

Lemma trimStart_app_blank xs b :
  forallb Re.is_space b = true →
  trimStart (xs ++ b) = match trimStart xs with [] => [] | t => t ++ b end.
Proof.
  intros Hb. induction xs as [|c xs IH]; simpl.
  - rewrite <- (app_nil_r b). by rewrite trimStart_blank.
  - destruct (Re.is_space c); [exact IH|reflexivity].
Qed.

Lemma trimStart_idem xs : trimStart (trimStart xs) = trimStart xs.
Proof.
  induction xs as [|c xs IH]; simpl; [reflexivity|].
  destruct (Re.is_space c) eqn:E; [exact IH|]. simpl. by rewrite E.
Qed.

Lemma trimStart_snoc zs c :
  Re.is_space c = false → trimStart (zs ++ [c]) = trimStart zs ++ [c].
Proof.
  intros Hc. induction zs as [|z zs IH]; simpl; [by rewrite Hc|].
  destruct (Re.is_space z); [exact IH|reflexivity].
Qed.

Lemma trimStart_head xs :
  match trimStart xs with c :: _ => Re.is_space c = false | [] => True end.
Proof.
  induction xs as [|c xs IH]; simpl; [done|].
  destruct (Re.is_space c) eqn:E; [exact IH|exact E].
Qed.

Lemma forallb_rev_blank (b : list ascii) :
  forallb Re.is_space b = true → forallb Re.is_space (rev b) = true.
Proof.
  induction b as [|c b IH]; simpl; [done|].
  intros H. apply andb_true_iff in H as [Hc H].
  rewrite forallb_app, IH by done. simpl. by rewrite Hc.
Qed.

Lemma trim_chars s :
  chars (trim s) = rev (trimStart (rev (trimStart (chars s)))).
Proof. unfold trim. apply chars_of_list. Qed.

Lemma trim_padding a f b :
  is_blank a = true → is_blank b = true → trim (a +:+ f +:+ b) = trim f.
Proof.
  unfold is_blank. intros Ha Hb. unfold trim. f_equal. f_equal.
  rewrite !chars_app, (trimStart_blank _ _ Ha), (trimStart_app_blank _ _ Hb).
  destruct (trimStart (chars f)) as [|c t] eqn:E; [reflexivity|].
  rewrite rev_app_distr. apply trimStart_blank. by apply forallb_rev_blank.
Qed.

Lemma trimStart_keeps xs :
  match xs with c :: _ => Re.is_space c = false | [] => True end →
  trimStart xs = xs.
Proof. destruct xs as [|c xs]; simpl; [done|]. by intros ->. Qed.

Lemma trim_idem f : trim (trim f) = trim f.
Proof.
  unfold trim at 1. rewrite trim_chars. unfold trim. f_equal.
  pose proof (trimStart_head (chars f)) as Hhead.
  destruct (trimStart (chars f)) as [|c t]; [reflexivity|].
  assert (HY : trimStart (rev (c :: t)) = trimStart (rev t) ++ [c])
    by (simpl; by apply trimStart_snoc).
  rewrite HY, rev_app_distr. simpl.
  rewrite Hhead. simpl. rewrite rev_involutive.
  by rewrite (trimStart_snoc _ _ Hhead), trimStart_idem, rev_app_distr.
Qed.

(** X9.  [evaluateFormula] rolls the formula without the white space
    around it: white space in front of or behind a formula makes no
    difference to the roll, and trimming a formula beforehand makes none
    either. *)
Theorem evaluateFormula_ignores_padding {World}
    (Roll_evaluate : string → World → (Z + Error) * World) a f b :
  is_blank a = true → is_blank b = true →
  evaluateFormula Roll_evaluate (a +:+ f +:+ b) = evaluateFormula Roll_evaluate f
  ∧ evaluateFormula Roll_evaluate (trim f) = evaluateFormula Roll_evaluate f.
Proof.
  intros Ha Hb. unfold evaluateFormula.
  by rewrite (trim_padding _ _ _ Ha Hb), trim_idem.
Qed.

Lemma evaluateFormula_ignores_padding_witness :
  evaluateFormula Scenario.Roll_evaluate ("  " +:+ "2d6 + 1" +:+ " ")
  = evaluateFormula Scenario.Roll_evaluate "2d6 + 1".
Proof.
  apply (evaluateFormula_ignores_padding Scenario.Roll_evaluate "  " "2d6 + 1" " ");
    reflexivity.
Defined.

(** *** Queues of any length *)

Lemma pushAll_lookup uuid qs (pending : gmap string (list Z)) :
  qs ≠ [] →
  pushAll uuid qs pending !! uuid = Some (default [] (pending !! uuid) ++ qs).
Proof.
  unfold pushAll. revert pending. induction qs as [|q qs IH]; intros pending Hne; [done|].
  simpl. destruct qs as [|q' qs].
  - simpl. apply pendingQuantities_push_lookup.
  - rewrite IH by done. rewrite pendingQuantities_push_lookup. simpl.
    by rewrite <- app_assoc.
Qed.

Lemma pushAll_other uuid qs (pending : gmap string (list Z)) other :
  other ≠ uuid → pushAll uuid qs pending !! other = pending !! other.
Proof.
  unfold pushAll. revert pending. induction qs as [|q qs IH]; intros pending Hne; [done|].
  simpl. rewrite IH by done. by apply pendingQuantities_push_other.
Qed.

Lemma shiftMany_whole sourceId queue : ∀ pending : gmap string (list Z),
  queue ≠ [] →
  pending !! sourceId = Some queue →
  shiftMany (length queue) sourceId pending = Some (queue, delete sourceId pending).
Proof.
  induction queue as [|q queue IH]; intros pending Hne Hq; [done|].
  simpl. rewrite (pendingQuantities_shift_head _ _ _ _ Hq).
  destruct queue as [|q' queue]; [reflexivity|].
  rewrite (IH (<[sourceId := q' :: queue]> pending)); [|done|apply lookup_insert_eq].
  by rewrite delete_insert_eq.
Qed.

(** X10.  The queue of a target is first in, first out, whatever its
    length: after the quantities [qs] were queued for a target that had no
    queue, as many removals hand back [qs] in the order queued, leave
    [pendingQuantities] exactly as it was before, and a further removal
    finds nothing. *)
Theorem queue_first_in_first_out uuid qs (pending : gmap string (list Z)) :
  pending !! uuid = None →
  shiftMany (length qs) uuid (pushAll uuid qs pending) = Some (qs, pending)
  ∧ (∀ n, (length qs < n)%nat → shiftMany n uuid (pushAll uuid qs pending) = None).
Proof.
  intros Hfresh.
  assert (Hnone : pendingQuantities_shift uuid pending = None).
  { unfold pendingQuantities_shift. by rewrite Hfresh. }
  destruct qs as [|q qs]; [split; [reflexivity|]|].
  { intros [|n] Hn; simpl in *; [lia|]. by rewrite Hnone. }
  assert (Hq : pushAll uuid (q :: qs) pending !! uuid = Some (q :: qs)).
  { rewrite pushAll_lookup by done. by rewrite Hfresh. }
  assert (Hback : delete uuid (pushAll uuid (q :: qs) pending) = pending).
  { apply map_eq. intros other. destruct (decide (other = uuid)) as [->|Hne].
    - by rewrite lookup_delete_eq.
    - rewrite lookup_delete_ne by done. by apply pushAll_other. }
  assert (Hall : shiftMany (length (q :: qs)) uuid (pushAll uuid (q :: qs) pending)
                 = Some (q :: qs, pending)).
  { rewrite (shiftMany_whole uuid (q :: qs) _ ltac:(done) Hq). by rewrite Hback. }
  split; [exact Hall|].
  intros n Hn.
  assert (Hmore : ∀ k m (p : gmap string (list Z)) taken,
            shiftMany m uuid p = Some (taken, pending) →
            shiftMany (m + S k) uuid p = None).
  { intros k m. induction m as [|m IH]; intros p taken Hm; simpl in *.
    - injection Hm as _ ->. by rewrite Hnone.
    - destruct (pendingQuantities_shift uuid p) as [[x p']|]; [|done].
      destruct (shiftMany m uuid p') as [[t l]|] eqn:E; [|done].
      injection Hm as _ ->. by rewrite (IH p' t). }
  replace n with (length (q :: qs) + S (n - length (q :: qs) - 1))%nat by lia.
  by eapply Hmore.
Qed.

Lemma queue_first_in_first_out_witness :
  shiftMany 4 "Item.abc" (pushAll "Item.abc" [3; 1; 5; 1] {["Item.def" := [2]]})
  = Some ([3; 1; 5; 1], {["Item.def" := [2]]}).
Proof.
  apply (queue_first_in_first_out "Item.abc" [3; 1; 5; 1] {["Item.def" := [2]]}).
  vm_compute; reflexivity.
Defined.

(** *** From the roll to the item *)

Section RoundTrip.

Context {World : Type}.
Variable Roll_evaluate : string → World → (Z + Error) * World.
Variable fromUuid : string → World → (option Document + Error) * World.
Variable draw : Table → DrawOptions → State World → outcome DrawResult * State World.
Variable game_settings : World → Settings.

(** X11.  From the roll to the item.  A result fires for an item whose
    target has no queue yet; then an item is created whose source reference
    is that target.  The listener writes the very quantity that was rolled,
    at [quantityPath] of the creation data, and [pendingQuantities] is again
    what it was before the result fired: nothing is left behind for a later
    creation.  (The call returns the written payload wherever the console
    line can read a name, that is, unless the item is [null] or [undefined]
    and the payload has no name; there it ends in the [TypeError] of
    [item.name], after the write.) *)
Theorem rolled_quantity_reaches_item r res parsed depth st q w1 img w2 item data data' :
  store st !! r = Some res →
  parseQuantityResult res = Some parsed →
  Roll_evaluate (trim (p_formula parsed)) (world st) = (inl q, w1) →
  0 < q →
  fromUuid (p_uuid parsed) w1 = (inl (Some (DocItem img)), w2) →
  pendingQuantities st !! p_uuid parsed = None →
  sourceIdOf item data = Some (JString (p_uuid parsed)) →
  setProperty data (quantityPath (game_settings w2)) (JNumber q) = Some data' →
  ∃ st1 st2,
    processResults Roll_evaluate fromUuid draw [r] depth st = (Ret [r], st1)
    ∧ pendingQuantities st1 !! p_uuid parsed = Some [q]
    ∧ preCreateItem game_settings item data st1
      = (match loggedName item data' with
         | Some _ => Ret data'
         | None => Throw TypeError
         end, st2)
    ∧ pendingQuantities st2 = pendingQuantities st
    ∧ preCreateItem game_settings item data st2 = (Ret data, st2).
Proof.
  intros Hr Hp Hq Hpos Hdoc Hfresh Hsource Hset.
  pose proof (parsed_uuid_not_empty _ _ Hp) as Hu.
  pose proof (expandOne_resolved Roll_evaluate fromUuid draw r res parsed depth st q w1
                (Some (DocItem img)) w2 Hr Hp Hq Hpos Hdoc) as Hone.
  cbv beta iota in Hone. rewrite <- processResults_single in Hone.
  assert (Hst1 : ∃ st1,
            processResults Roll_evaluate fromUuid draw [r] depth st = (Ret [r], st1)
            ∧ pendingQuantities st1
              = pendingQuantities_push (p_uuid parsed) q (pendingQuantities st)
            ∧ world st1 = w2).
  { rewrite Hone. destruct (String.eqb (r_type res) "text"); run_effects; eauto. }
  destruct Hst1 as (st1 & Hrun & Hpend & Hworld).
  assert (Hqueue : pendingQuantities st1 !! p_uuid parsed = Some [q]).
  { by rewrite Hpend, pendingQuantities_push_lookup, Hfresh. }
  assert (Hback : delete (p_uuid parsed) (pendingQuantities st1) = pendingQuantities st).
  { rewrite Hpend. apply map_eq. intros other.
    destruct (decide (other = p_uuid parsed)) as [->|Hne].
    - by rewrite lookup_delete_eq.
    - rewrite lookup_delete_ne by done. by apply pendingQuantities_push_other. }
  destruct (preCreateItem_shift game_settings item data st1 _ q _ Hsource Hu
              (pendingQuantities_shift_head _ _ _ _ Hqueue))
    as (st2 & Hcreate & Hpend2 & _ & _ & _).
  unfold applied in Hcreate. rewrite Hworld, Hset in Hcreate.
  exists st1, st2. split; [exact Hrun|]. split; [exact Hqueue|].
  split; [exact Hcreate|]. rewrite Hpend2. split; [exact Hback|].
  apply (preCreateItem_idle game_settings item data st2 _ Hsource).
  right. right. exists (p_uuid parsed). split; [reflexivity|]. left.
  by rewrite Hpend2, Hback.
Qed.

End RoundTrip.

Lemma rolled_quantity_reaches_item_witness :
  let item := JObject FNil in
  let data :=
    JObject (FCons "name" (JString "Torch")
      (FCons "flags" (JObject (FCons "core"
         (JObject (FCons "sourceId" (JString "Item.abc") FNil)) FNil)) FNil)) in
  let st1 :=
    (processResults Scenario.Roll_evaluate Scenario.fromUuid Scenario.plain_draw
       [1%nat] 0 (Scenario.start [3])).2 in
  pendingQuantities st1 !! "Item.abc" = Some [3]
  ∧ getPath (match (preCreateItem Scenario.game_settings item data st1).1 with
             | Ret data' => data'
             | _ => JUndefined
             end) ["system"; "quantity"] = JNumber 3
  ∧ pendingQuantities (preCreateItem Scenario.game_settings item data st1).2 = ∅.
Proof.
  intros item data st1.
  destruct (rolled_quantity_reaches_item
    Scenario.Roll_evaluate Scenario.fromUuid Scenario.plain_draw Scenario.game_settings
    1%nat (mkTableResult "text" (Some "[[/r 1d4]]@UUID[Item.abc]{Torch}") None "" None)
    (mkParsed "1d4" "Item.abc" "Torch") 0 (Scenario.start [3]) 3 [] (Some "torch.png") []
    item data
    (JObject (FCons "name" (JString "Torch")
       (FCons "flags" (JObject (FCons "core"
          (JObject (FCons "sourceId" (JString "Item.abc") FNil)) FNil))
       (FCons "system" (JObject (FCons "quantity" (JNumber 3) FNil)) FNil)))))
    as (s1 & s2 & Hrun & Hqueue & Hcreate & Hback & _);
    [vm_compute; reflexivity | vm_compute; reflexivity | vm_compute; reflexivity | lia
    | vm_compute; reflexivity | vm_compute; reflexivity | vm_compute; reflexivity
    | vm_compute; reflexivity |].
  assert (Hs : st1 = s1) by (subst st1; by rewrite Hrun).
  rewrite Hs, Hcreate. simpl. split; [exact Hqueue|]. split; [vm_compute; reflexivity|].
  rewrite Hback. reflexivity.
Defined.

(** *** Draws without directives *)

Section Transparent.

Context {World : Type}.
Variable Roll_evaluate : string → World → (Z + Error) * World.
Variable fromUuid : string → World → (option Document + Error) * World.
Variable TextEditor_enrichHTML : string → World → (string + Error) * World.
Variable ChatMessage_create : ChatData → World → (unit + Error) * World.
Variable Hooks_callAll :
  string → list nat → gmap nat QuantityData → World → (unit + Error) * World.
Variable game_settings : World → Settings.
Variable draw : Table → DrawOptions → State World → outcome DrawResult * State World.

Lemma processResults_directive_free results depth st :
  directive_free st results →
  processResults Roll_evaluate fromUuid draw results depth st = (Ret results, st).
Proof.
  induction 1 as [|r results (res & Hr & Hp) _ IH]; [apply processResults_nil|].
  rewrite processResults_cons. unfold bind.
  rewrite (expandOne_no_directive _ _ _ r res depth st Hr Hp), IH. reflexivity.
Qed.

Lemma omap_no_records (st : State World) results :
  Forall (fun r => resultQuantities st !! r = None) results →
  omap (fun r => resultQuantities st !! r) results = [].
Proof. induction 1 as [|r results Hr _ IH]; simpl; [done|]. by rewrite Hr. Qed.

(** X12.  On a draw whose results carry no directive the wrapper is
    transparent: it gives back the draw's own answer, rolls nothing,
    records and queues nothing, and (when none of the results has a record
    from before, or no report is wanted) posts nothing; all it does is fire
    the [resultsReady] hook, and log the error if the hook throws. *)
Theorem wrappedDraw_transparent this wrapped options st d st1 :
  wrapped options st = (Ret d, st1) →
  directive_free st1 (dr_results d) →
  (Forall (fun r => resultQuantities st1 !! r = None) (dr_results d)
   ∨ o_displayChat options = Some false
   ∨ modifyChat (game_settings (world st1)) = false) →
  wrappedDraw Roll_evaluate fromUuid TextEditor_enrichHTML ChatMessage_create
    Hooks_callAll game_settings draw this wrapped options st
  = match Hooks_callAll (MODULE_ID +:+ ".resultsReady") (dr_results d)
            (resultQuantities st1) (world st1) with
    | (inl _, w) => (Ret d, set_world w st1)
    | (inr err, w) => (Ret d, logged err (set_world w st1))
    end.
Proof.
  intros Hw Hfree Hquiet.
  rewrite wrappedDraw_eq, wrappedDraw_try_eq, Hw.
  rewrite (processResults_directive_free _ 0 st1 Hfree). cbv zeta.
  replace (mkDrawResult (dr_results d) (dr_roll d)) with d by by destruct d.
  rewrite reportAndNotify_eq. unfold bind.
  assert (Hchat :
    (if negb (bool_decide (o_displayChat options = Some false))
        && modifyChat (game_settings (world st1))
     then sendQuantityChat TextEditor_enrichHTML ChatMessage_create this
            (dr_results d) (dr_roll d) (o_rollMode options)
     else ret tt) st1 = (Ret tt, st1)).
  { destruct Hquiet as [Hnone|[Hoff|Hoff]].
    - destruct (_ && _); [|reflexivity].
      rewrite sendQuantityChat_eq. by rewrite (omap_no_records _ _ Hnone).
    - rewrite bool_decide_true by done. reflexivity.
    - rewrite Hoff, andb_false_r. reflexivity. }
  rewrite Hchat. unfold host.
  destruct (Hooks_callAll _ _ _ _) as [[[]|err] w]; reflexivity.
Qed.

End Transparent.

Lemma wrappedDraw_transparent_witness :
  wrappedDraw Scenario.Roll_evaluate Scenario.fromUuid Scenario.TextEditor_enrichHTML
    Scenario.ChatMessage_create_fails Scenario.Hooks_callAll Scenario.game_settings
    Scenario.plain_draw Scenario.top
    (fun _ => ret (mkDrawResult [5; 5]%nat 7)) Scenario.noOptions (Scenario.start [1; 2])
  = (Ret (mkDrawResult [5; 5]%nat 7), Scenario.start [1; 2]).
Proof.
  apply (wrappedDraw_transparent
    Scenario.Roll_evaluate Scenario.fromUuid Scenario.TextEditor_enrichHTML
    Scenario.ChatMessage_create_fails Scenario.Hooks_callAll Scenario.game_settings
    Scenario.plain_draw Scenario.top
    (fun _ => ret (mkDrawResult [5; 5]%nat 7)) Scenario.noOptions (Scenario.start [1; 2])
    (mkDrawResult [5; 5]%nat 7) (Scenario.start [1; 2])).
  - reflexivity.
  - repeat constructor;
      exists (mkTableResult "text" (Some "A rusty nail") None "" None);
      split; vm_compute; reflexivity.
  - left. repeat constructor.
Defined.

(** *** Nested draws and the chat; cycles *)

Section DrawExt.

Context {World : Type}.
Variable Roll_evaluate : string → World → (Z + Error) * World.
Variable fromUuid : string → World → (option Document + Error) * World.
Variables draw1 draw2 : Table → DrawOptions → State World → outcome DrawResult * State World.

(** The engine calls [doc.draw] with [nestedOptions] only. *)
Hypothesis draw_same : ∀ table st, draw1 table nestedOptions st = draw2 table nestedOptions st.

Lemma drawLoop_draw_ext recur1 recur2 table depth :
  (∀ rs st, recur1 rs (depth + 1) st = recur2 rs (depth + 1) st) →
  ∀ n acc st,
    drawLoop draw1 recur1 table depth n acc st = drawLoop draw2 recur2 table depth n acc st.
Proof.
  intros Hrec n. induction n as [|n IH]; intros acc st; [reflexivity|].
  simpl. unfold bind. fold nestedOptions. rewrite draw_same.
  destruct (draw2 _ _ st) as [[d| |] st1]; try reflexivity.
  rewrite Hrec. destruct (recur2 _ _ st1) as [[out| |] st2]; try reflexivity.
  apply IH.
Qed.

Lemma processResult_body_draw_ext recur1 recur2 result parsed depth :
  (∀ rs st, recur1 rs (depth + 1) st = recur2 rs (depth + 1) st) →
  ∀ st, processResult_body Roll_evaluate fromUuid draw1 recur1 result parsed depth st
        = processResult_body Roll_evaluate fromUuid draw2 recur2 result parsed depth st.
Proof.
  intros Hrec st. rewrite !processResult_body_eq. unfold bind.
  destruct (evaluateFormula _ _ st) as [[q| |] st1]; try reflexivity.
  destruct (q <=? 0); [reflexivity|].
  destruct (host _ st1) as [[[[table|img|]|]| |] st2]; try reflexivity.
  destruct (depth >=? MAX_RECURSION_DEPTH); [reflexivity|].
  by rewrite (drawLoop_draw_ext recur1 recur2 _ _ Hrec).
Qed.

Lemma resultsLoop_draw_ext recur1 recur2 depth :
  (∀ rs st, recur1 rs (depth + 1) st = recur2 rs (depth + 1) st) →
  ∀ results acc st,
    resultsLoop Roll_evaluate fromUuid draw1 recur1 depth results acc st
    = resultsLoop Roll_evaluate fromUuid draw2 recur2 depth results acc st.
Proof.
  intros Hrec results. induction results as [|r rest IH]; intros acc st; [reflexivity|].
  simpl. unfold bind. destruct (readResult r st) as [[res| |] st1]; try reflexivity.
  destruct (parseQuantityResult res) as [parsed|]; [|apply IH].
  rewrite (processResult_body_draw_ext recur1 recur2 _ _ _ Hrec).
  destruct (processResult_body _ _ draw2 recur2 r parsed depth st1) as [[out| |] st2];
    try reflexivity.
  apply IH.
Qed.

Lemma processResults_fuel_draw_ext fuel :
  ∀ results depth st,
    processResults_fuel Roll_evaluate fromUuid draw1 fuel results depth st
    = processResults_fuel Roll_evaluate fromUuid draw2 fuel results depth st.
Proof.
  induction fuel as [|fuel IH]; intros results depth st; [reflexivity|].
  simpl. apply resultsLoop_draw_ext. intros rs st'. apply IH.
Qed.

Lemma processResults_draw_ext results depth st :
  processResults Roll_evaluate fromUuid draw1 results depth st
  = processResults Roll_evaluate fromUuid draw2 results depth st.
Proof. rewrite !processResults_eq. apply processResults_fuel_draw_ext. Qed.

End DrawExt.

Section Quiet.

Context {World : Type}.
Variable Roll_evaluate : string → World → (Z + Error) * World.
Variable fromUuid : string → World → (option Document + Error) * World.
Variables TextEditor_enrichHTML TextEditor_enrichHTML' :
  string → World → (string + Error) * World.
Variables ChatMessage_create ChatMessage_create' :
  ChatData → World → (unit + Error) * World.
Variable Hooks_callAll :
  string → list nat → gmap nat QuantityData → World → (unit + Error) * World.
Variable game_settings : World → Settings.
Variable original_draw : Table → DrawOptions → World → (DrawResult + Error) * World.

Local Abbreviation installed :=
  (RollTable_draw Roll_evaluate fromUuid TextEditor_enrichHTML ChatMessage_create
     Hooks_callAll game_settings original_draw).
Local Abbreviation installed' :=
  (RollTable_draw Roll_evaluate fromUuid TextEditor_enrichHTML' ChatMessage_create'
     Hooks_callAll game_settings original_draw).

Lemma reportAndNotify_quiet this options drawResult st :
  o_displayChat options = Some false →
  reportAndNotify TextEditor_enrichHTML ChatMessage_create Hooks_callAll game_settings
    this options drawResult st
  = reportAndNotify TextEditor_enrichHTML' ChatMessage_create' Hooks_callAll game_settings
      this options drawResult st.
Proof.
  intros Hoff. rewrite !reportAndNotify_eq. unfold bind.
  rewrite bool_decide_true by done. reflexivity.
Qed.

Lemma wrappedDraw_quiet draw1 draw2 this wrapped options st :
  (∀ table st, draw1 table nestedOptions st = draw2 table nestedOptions st) →
  o_displayChat options = Some false →
  wrappedDraw Roll_evaluate fromUuid TextEditor_enrichHTML ChatMessage_create
    Hooks_callAll game_settings draw1 this wrapped options st
  = wrappedDraw Roll_evaluate fromUuid TextEditor_enrichHTML' ChatMessage_create'
      Hooks_callAll game_settings draw2 this wrapped options st.
Proof.
  intros Hdraw Hoff. rewrite !wrappedDraw_eq, !wrappedDraw_try_eq.
  destruct (wrapped options st) as [[d| |] st1]; try reflexivity.
  rewrite (processResults_draw_ext Roll_evaluate fromUuid draw1 draw2 Hdraw).
  destruct (processResults _ _ draw2 _ 0 st1) as [[results| |] st2]; try reflexivity.
  cbv zeta. by rewrite (reportAndNotify_quiet _ _ _ _ Hoff).
Qed.

Lemma installed_quiet fuel :
  ∀ table options st,
    o_displayChat options = Some false →
    installed fuel table options st = installed' fuel table options st.
Proof.
  induction fuel as [|fuel IH]; intros table options st Hoff; [reflexivity|].
  rewrite !RollTable_draw_eq. apply wrappedDraw_quiet; [|exact Hoff].
  intros table' st'. by apply IH.
Qed.

(** X13.  With the module installed, the draws that [processResult] makes
    from sub-tables never post to the chat: a draw with [displayChat: false]
    through the installed method, and any expansion by [processResults], run
    the same whatever [TextEditor.enrichHTML] and [ChatMessage.create] would
    do.  So of a whole draw only the outermost call can post a report. *)
Theorem nested_draws_post_nothing fuel table options results depth st :
  (o_displayChat options = Some false →
   installed fuel table options st = installed' fuel table options st)
  ∧ processResults Roll_evaluate fromUuid (installed fuel) results depth st
    = processResults Roll_evaluate fromUuid (installed' fuel) results depth st.
Proof.
  split; [apply installed_quiet|].
  apply processResults_draw_ext. intros table' st'. by apply installed_quiet.
Qed.

End Quiet.

Section Cycle.

Context {World : Type}.
Variable Roll_evaluate : string → World → (Z + Error) * World.
Variable fromUuid : string → World → (option Document + Error) * World.
Variable TextEditor_enrichHTML : string → World → (string + Error) * World.
Variable ChatMessage_create : ChatData → World → (unit + Error) * World.
Variable Hooks_callAll :
  string → list nat → gmap nat QuantityData → World → (unit + Error) * World.
Variable game_settings : World → Settings.
Variable original_draw : Table → DrawOptions → World → (DrawResult + Error) * World.

Local Abbreviation installed :=
  (RollTable_draw Roll_evaluate fromUuid TextEditor_enrichHTML ChatMessage_create
     Hooks_callAll game_settings original_draw).

(** X14.  With the module installed the depth bound does not stop a cycle.
    Let every draw from [table] begin with the result [r], whose directive
    always rolls a positive quantity and points back at [table].  Then a
    draw from [table] never returns: each nested draw goes through the
    wrapper, which starts [processResults] at depth 0 again, so the bound
    [MAX_RECURSION_DEPTH] is never reached and the run uses up whatever
    number of nested calls it is given. *)
Theorem installed_cycle_never_returns table r res parsed :
  (∀ options w, ∃ d rest w',
     original_draw table options w = (inl d, w') ∧ dr_results d = r :: rest) →
  parseQuantityResult res = Some parsed →
  (∀ w, ∃ q w', Roll_evaluate (trim (p_formula parsed)) w = (inl q, w') ∧ 0 < q) →
  (∀ w, ∃ w', fromUuid (p_uuid parsed) w = (inl (Some (DocRollTable table)), w')) →
  ∀ fuel options st,
    store st !! r = Some res →
    (installed fuel table options st).1 = Diverge.
Proof.
  intros Hdraw Hp Hroll Hdoc fuel.
  induction fuel as [|fuel IH]; intros options st Hr; [reflexivity|].
  rewrite RollTable_draw_eq, wrappedDraw_eq, wrappedDraw_try_eq.
  destruct (Hdraw options (world st)) as (d & rest & w0 & Hd & Hres).
  unfold host at 1. rewrite Hd, Hres.
  rewrite processResults_cons. unfold bind at 1.
  destruct (Hroll w0) as (q & w1 & Hq & Hpos).
  destruct (Hdoc w1) as (w2 & Hw2).
  rewrite (expandOne_resolved _ _ _ r res parsed 0 (set_world w0 st) q w1
             (Some (DocRollTable table)) w2 Hr Hp Hq Hpos Hw2).
  change (0 >=? MAX_RECURSION_DEPTH) with false. cbv iota.
  destruct (Z.to_nat q) as [|n] eqn:Hn; [lia|].
  simpl drawLoop. unfold bind at 1. unfold bind at 1.
  specialize (IH (mkDrawOptions (Some false) (Some true) None)
                 (set_world w2 (set_world w0 st)) Hr).
  destruct (RollTable_draw _ _ _ _ _ _ _ fuel _ _ _) as [o st']. simpl in IH. subst o.
  reflexivity.
Qed.

End Cycle.

Lemma installed_cycle_never_returns_witness :
  (RollTable_draw (World := unit)
     (fun _ w => (inl 1, w))
     (fun _ w => (inl (Some (DocRollTable Scenario.loop)), w))
     (fun content w => (inl content, w)) (fun _ w => (inl tt, w))
     (fun _ _ _ w => (inl tt, w))
     (fun _ => mkSettings "system.quantity" true)
     (fun _ _ w => (inl (mkDrawResult [3%nat] 1), w))
     12 Scenario.loop Scenario.noOptions (mkState tt Scenario.results ∅ ∅ [])).1
  = Diverge.
Proof.
  apply (installed_cycle_never_returns
    (fun _ w => (inl 1, w))
    (fun _ w => (inl (Some (DocRollTable Scenario.loop)), w))
    (fun content w => (inl content, w)) (fun _ w => (inl tt, w))
    (fun _ _ _ w => (inl tt, w))
    (fun _ => mkSettings "system.quantity" true)
    (fun _ _ w => (inl (mkDrawResult [3%nat] 1), w))
    Scenario.loop 3%nat
    (mkTableResult "text" (Some "[[/r 1d2-1]]@UUID[RollTable.loop]{Loop}") None "" None)
    (mkParsed "1d2-1" "RollTable.loop" "Loop")).
  - intros options w. by exists (mkDrawResult [3%nat] 1), [], w.
  - vm_compute; reflexivity.
  - intros w. exists 1, w. split; [reflexivity|lia].
  - intros w. by exists w.
  - vm_compute; reflexivity.
Defined.

Lemma nested_draws_post_nothing_witness :
  Scenario.installed_draw 3 Scenario.top nestedOptions (Scenario.start [2; 1; 1; 1; 1])
  = RollTable_draw Scenario.Roll_evaluate Scenario.fromUuid Scenario.TextEditor_enrichHTML
      Scenario.ChatMessage_create_fails Scenario.Hooks_callAll Scenario.game_settings
      Scenario.original_draw 3 Scenario.top nestedOptions (Scenario.start [2; 1; 1; 1; 1]).
Proof.
  apply (proj1 (nested_draws_post_nothing
    Scenario.Roll_evaluate Scenario.fromUuid
    Scenario.TextEditor_enrichHTML Scenario.TextEditor_enrichHTML
    Scenario.ChatMessage_create Scenario.ChatMessage_create_fails
    Scenario.Hooks_callAll Scenario.game_settings Scenario.original_draw
    3 Scenario.top nestedOptions [] 0 (Scenario.start [2; 1; 1; 1; 1]))).
  reflexivity.
Defined.

(** *** The depth bound *)

Section Nesting.

Context {World : Type}.
Variable Roll_evaluate : string → World → (Z + Error) * World.
Variable fromUuid : string → World → (option Document + Error) * World.
Variable draw : Table → DrawOptions → State World → outcome DrawResult * State World.



End Nesting.


(** *** Nested draws are expanded twice *)

Section Doubled.

Context {World : Type}.
Variable Roll_evaluate : string → World → (Z + Error) * World.
Variable fromUuid : string → World → (option Document + Error) * World.
Variable TextEditor_enrichHTML : string → World → (string + Error) * World.
Variable ChatMessage_create : ChatData → World → (unit + Error) * World.
Variable Hooks_callAll :
  string → list nat → gmap nat QuantityData → World → (unit + Error) * World.
Variable game_settings : World → Settings.
Variable original_draw : Table → DrawOptions → World → (DrawResult + Error) * World.

Local Abbreviation installed :=
  (RollTable_draw Roll_evaluate fromUuid TextEditor_enrichHTML ChatMessage_create
     Hooks_callAll game_settings original_draw).

(** X16.  With the module installed, a [document] result drawn from a
    sub-table is expanded twice: once by the wrapper around the nested
    draw (at depth 0) and once more by the caller (one level down).  One
    round of the loop of the table branch, whose draw hands back the one
    result [r], therefore rolls the formula of [r] twice and queues both
    quantities for a single drawn result, while the record of [r] keeps
    the second roll. *)
Theorem installed_nested_leaf_queued_twice
    table r res parsed st d w0 q1 w1 img1 w2 w3 q2 w4 img2 w5 fuel depth :
  store st !! r = Some res →
  r_type res ≠ "text" →
  parseQuantityResult res = Some parsed →
  original_draw table (mkDrawOptions (Some false) (Some true) None) (world st) = (inl d, w0) →
  dr_results d = [r] →
  Roll_evaluate (trim (p_formula parsed)) w0 = (inl q1, w1) →
  0 < q1 →
  fromUuid (p_uuid parsed) w1 = (inl (Some (DocItem img1)), w2) →
  Hooks_callAll (MODULE_ID +:+ ".resultsReady") [r]
    (<[r := mkQuantityData q1 (p_uuid parsed) (p_name parsed) None]> (resultQuantities st))
    w2 = (inl tt, w3) →
  Roll_evaluate (trim (p_formula parsed)) w3 = (inl q2, w4) →
  0 < q2 →
  fromUuid (p_uuid parsed) w4 = (inl (Some (DocItem img2)), w5) →
  ∃ st',
    drawLoop (installed (S fuel))
      (processResults Roll_evaluate fromUuid (installed (S fuel))) table depth 1 [] st
    = (Ret [r], st')
    ∧ pendingQuantities st' !! p_uuid parsed
      = Some (default [] (pendingQuantities st !! p_uuid parsed) ++ [q1; q2])
    ∧ getQuantity r st'
      = Some (mkQuantityData q2 (p_uuid parsed) (p_name parsed) None).
Proof.
  intros Hr Ht Hp Hd Hres Hq1 Hpos1 Hdoc1 Hhook Hq2 Hpos2 Hdoc2.
  assert (Hno : String.eqb (r_type res) "text" = false) by by apply String.eqb_neq.
  assert (Hnested : ∃ st1,
            installed (S fuel) table (mkDrawOptions (Some false) (Some true) None) st
            = (Ret (mkDrawResult [r] (dr_roll d)), st1)
            ∧ store st1 = store st ∧ world st1 = w3
            ∧ pendingQuantities st1
              = pendingQuantities_push (p_uuid parsed) q1 (pendingQuantities st)).
  { rewrite RollTable_draw_eq, wrappedDraw_eq, wrappedDraw_try_eq.
    unfold host at 1. rewrite Hd, Hres. rewrite processResults_single.
    rewrite (expandOne_resolved _ _ _ r res parsed 0 (set_world w0 st) q1 w1
               (Some (DocItem img1)) w2 Hr Hp Hq1 Hpos1 Hdoc1).
    rewrite Hno. run_effects. rewrite reportAndNotify_eq. run_effects.
    rewrite Hhook. eexists. split; [reflexivity|]. by simpl. }
  destruct Hnested as (st1 & Hnested & Hstore & Hworld & Hpend).
  revert Hnested. generalize (installed (S fuel)). intros draw Hnested.
  simpl drawLoop. unfold bind at 1. rewrite Hnested.
  unfold bind at 1. simpl dr_results. rewrite processResults_single.
  rewrite <- Hstore in Hr. rewrite <- Hworld in Hq2.
  rewrite (expandOne_resolved _ _ _ r res parsed (depth + 1) st1 q2 w4
             (Some (DocItem img2)) w5 Hr Hp Hq2 Hpos2 Hdoc2).
  rewrite Hno. run_effects. eexists. split; [reflexivity|]. simpl. split.
  - rewrite Hpend, !pendingQuantities_push_lookup. simpl. by rewrite <- app_assoc.
  - unfold getQuantity. simpl. apply lookup_insert_eq.
Qed.

End Doubled.

Lemma installed_nested_leaf_queued_twice_witness :
  pendingQuantities
    (drawLoop (Scenario.installed_draw 1)
       (processResults Scenario.Roll_evaluate Scenario.fromUuid (Scenario.installed_draw 1))
       Scenario.xyz 0 1 [] (Scenario.start [3; 4])).2 !! "Item.def" = Some [3; 4].
Proof.
  destruct (installed_nested_leaf_queued_twice
    Scenario.Roll_evaluate Scenario.fromUuid Scenario.TextEditor_enrichHTML
    Scenario.ChatMessage_create Scenario.Hooks_callAll Scenario.game_settings
    Scenario.original_draw Scenario.xyz 2%nat
    (mkTableResult "document" (Some "[[/r 1]]") (Some "Item.def") "Rope" None)
    (mkParsed "1" "Item.def" "Rope") (Scenario.start [3; 4])
    (mkDrawResult [2%nat] 1) [3; 4] 3 [4] None [4] [4] 4 [] None [] 0%nat 0)
    as (st' & Hrun & Hpend & _);
    [vm_compute; reflexivity | discriminate | vm_compute; reflexivity | reflexivity
    | reflexivity | reflexivity | lia | reflexivity | reflexivity | reflexivity | lia
    | reflexivity |].
  unfold Scenario.installed_draw. rewrite Hrun. exact Hpend.
Defined.

(** *** Earlier versions *)

(** X17.  The parser kept its meaning across versions for [text] results:
    on such a result [parseQuantityResult] returns what [parseQuantityText]
    of version 1.0.0-beta.1 returns on the description.  The later parser
    is stricter elsewhere: a result that is neither [text] nor [document]
    yields nothing, whatever its description says. *)
Theorem parser_agrees_with_first_version result :
  (r_type result = "text" →
   parseQuantityResult result = Beta1.parseQuantityText (r_description result))
  ∧ (r_type result ≠ "text" → r_type result ≠ "document" →
     parseQuantityResult result = None).
Proof.
  unfold parseQuantityResult, Beta1.parseQuantityText. cbv zeta. split.
  - intros ->. simpl.
    change Beta1.QUANTITY_PATTERN with TEXT_PATTERN.
    destruct (r_description result) as [[|c d]|]; reflexivity.
  - intros Ht Hd.
    destruct (String.eqb_spec (r_type result) "document") as [?|_]; [done|].
    destruct (String.eqb_spec (r_type result) "text") as [?|_]; [done|].
    reflexivity.
Qed.

Lemma parser_agrees_with_first_version_witness :
  parseQuantityResult
    (mkTableResult "text" (Some "[[/r 2d6]] @UUID[Item.abc]{Torch}") None "" None)
  = Beta1.parseQuantityText (Some "[[/r 2d6]] @UUID[Item.abc]{Torch}").
Proof.
  apply (parser_agrees_with_first_version
           (mkTableResult "text" (Some "[[/r 2d6]] @UUID[Item.abc]{Torch}") None "" None)).
  reflexivity.
Defined.

Module Beta2Facts.
Import Beta2.

Lemma occurrences_app result l1 l2 :
  occurrences result (l1 ++ l2) = (occurrences result l1 + occurrences result l2)%nat.
Proof. induction l1 as [|r l1 IH]; simpl; [done|]. rewrite IH. lia. Qed.

Lemma occurrences_NoDup result results :
  NoDup results → (occurrences result results ≤ 1)%nat.
Proof.
  induction 1 as [|r rest Hfresh _ IH]; simpl; [lia|].
  destruct (Nat.eqb_spec r result) as [->|_]; [|lia].
  assert (occurrences result rest = 0%nat); [|lia].
  clear IH. induction rest as [|x rest IH]; simpl; [done|].
  apply not_elem_of_cons in Hfresh as [Hne Hfresh].
  destruct (Nat.eqb_spec x result) as [->|_]; [done|]. by apply IH.
Qed.

Lemma Map_set_fresh key value m :
  key ∉ m.*1 → Map_set key value m = m ++ [(key, value)].
Proof.
  induction m as [|[k v] m IH]; simpl; [done|].
  intros Hk. apply not_elem_of_cons in Hk as [Hne Hk].
  destruct (Nat.eqb_spec k key) as [?|_]; [done|]. by rewrite IH.
Qed.

Lemma Map_set_keys key value m :
  key ∈ m.*1 → (Map_set key value m).*1 = m.*1.
Proof.
  induction m as [|[k v] m IH]; [by intros ?%elem_of_nil|].
  rewrite fmap_cons. intros Hk. simpl Map_set.
  destruct (Nat.eqb_spec k key) as [->|Hne]; rewrite !fmap_cons; [done|].
  apply elem_of_cons in Hk as [?|Hk]; [done|]. by rewrite IH.
Qed.

Lemma Map_set_here key value m : (key, value) ∈ Map_set key value m.
Proof.
  induction m as [|[k v] m IH]; simpl; [by left|].
  destruct (Nat.eqb_spec k key) as [->|Hne]; [by left|by right].
Qed.

Lemma Map_set_other key value m k v :
  k ≠ key → (k, v) ∈ Map_set key value m ↔ (k, v) ∈ m.
Proof.
  intros Hne. induction m as [|[k0 v0] m IH]; simpl.
  - rewrite list_elem_of_singleton. split; [by intros [= -> _]|by intros ?%elem_of_nil].
  - destruct (Nat.eqb_spec k0 key) as [->|Hk0].
    + rewrite !elem_of_cons. split; (intros [[= ? ?]|?]; [done|by right]).
    + rewrite !elem_of_cons, IH. done.
Qed.

Lemma Map_set_other_key key value m k :
  k ≠ key → k ∈ (Map_set key value m).*1 ↔ k ∈ m.*1.
Proof.
  intros Hne. induction m as [|[k0 v0] m IH]; simpl Map_set.
  - rewrite fmap_cons, list_elem_of_singleton. split; [done|by intros ?%elem_of_nil].
  - destruct (Nat.eqb_spec k0 key) as [->|Hk0]; rewrite !fmap_cons; [done|].
    by rewrite !elem_of_cons, IH.
Qed.

Lemma Map_set_NoDup key value m : NoDup m.*1 → NoDup (Map_set key value m).*1.
Proof.
  intros Hnd. destruct (decide (key ∈ m.*1)) as [Hin|Hout].
  - by rewrite Map_set_keys.
  - rewrite Map_set_fresh, fmap_app by done. simpl.
    apply NoDup_app. split; [done|]. split; [|apply NoDup_singleton].
    intros k Hk ->%list_elem_of_singleton. done.
Qed.

Lemma restoreDescriptions_lookup saved : ∀ (store : gmap nat Result) result,
  result ∉ saved.*1 → restoreDescriptions saved store !! result = store !! result.
Proof.
  induction saved as [|[k v] saved IH]; intros store result Hk; simpl; [done|].
  simpl in Hk. apply not_elem_of_cons in Hk as [Hne Hk].
  rewrite IH by done. destruct (store !! k); [|done]. by rewrite lookup_insert_ne.
Qed.

Lemma restoreDescriptions_saved saved : ∀ (store : gmap nat Result) result value,
  NoDup saved.*1 → (result, value) ∈ saved →
  restoreDescriptions saved store !! result = set_description value <$> store !! result.
Proof.
  induction saved as [|[k v] saved IH]; intros store result value Hnd Hin; simpl;
    [by apply elem_of_nil in Hin|].
  simpl in Hnd. apply NoDup_cons in Hnd as [Hfresh Hnd].
  apply elem_of_cons in Hin as [[= -> ->]|Hin].
  - rewrite restoreDescriptions_lookup by done.
    destruct (store !! k) as [r|] eqn:E; [by rewrite lookup_insert_eq|by rewrite E].
  - assert (result ≠ k).
    { intros ->. apply Hfresh. apply list_elem_of_fmap. by exists (k, value). }
    rewrite (IH _ result value Hnd Hin).
    destruct (store !! k); [by rewrite lookup_insert_ne|done].
Qed.

Lemma rewritten_Some r r1 :
  rewritten r = Some r1 →
  ∃ qtyData,
    flags r = Some qtyData ∧ negb (quantity qtyData =? 0) = true
    ∧ r1 = set_description (Some (quantityText qtyData)) r
    ∧ flags r1 = Some qtyData
    ∧ set_description (Some (quantityText qtyData)) r1 = r1
    ∧ set_description (description r) r1 = r.
Proof.
  unfold rewritten. destruct r as [d [q|]]; simpl; [|discriminate].
  destruct (negb (quantity q =? 0)) eqn:E; [|discriminate].
  intros [= <-]. by exists q.
Qed.

Lemma occurrences_snoc k done result :
  occurrences k (done ++ [result])
  = (occurrences k done + if Nat.eqb result k then 1 else 0)%nat.
Proof. rewrite occurrences_app. simpl. lia. Qed.

(** One round of the rewriting loop keeps [rewriting]. *)
Lemma rewriting_round store0 done store saved result r0 :
  rewriting store0 done store saved →
  store0 !! result = Some r0 →
  ∃ r,
    store !! result = Some r
    ∧ match rewritten r with
      | Some r1 =>
          rewriting store0 (done ++ [result]) (<[result := r1]> store)
            (Map_set result (description r) saved)
      | None => rewriting store0 (done ++ [result]) store saved
      end.
Proof.
  intros [Hnd Hinv] Hr0. pose proof (Hinv result) as Hres. rewrite Hr0 in Hres.
  assert (Hother : ∀ k, k ≠ result → occurrences k (done ++ [result]) = occurrences k done).
  { intros k Hk. rewrite occurrences_snoc.
    destruct (Nat.eqb_spec result k) as [?|_]; [done|lia]. }
  assert (Hhere : occurrences result (done ++ [result]) = S (occurrences result done)).
  { rewrite occurrences_snoc, Nat.eqb_refl. lia. }
  destruct (rewritten r0) as [r1|] eqn:Hrw.
  - destruct (rewritten_Some _ _ Hrw) as (q & Hf0 & Hq & Hr1 & Hf1 & Hidem & Hback).
    assert (Hrw1 : rewritten r1 = Some r1).
    { unfold rewritten. by rewrite Hf1, Hq, Hidem. }
    destruct (occurrences result done) as [|[|n]] eqn:Hocc.
    + destruct Hres as [Hstore Hfresh]. exists r0. split; [exact Hstore|].
      rewrite Hrw. split; [by apply Map_set_NoDup|]. intros k.
      destruct (decide (k = result)) as [->|Hk].
      * rewrite Hr0, Hrw, Hhere, lookup_insert_eq. split; [done|apply Map_set_here].
      * rewrite (Hother k Hk), lookup_insert_ne by done. specialize (Hinv k).
        destruct (store0 !! k) as [rk|]; [|by rewrite Map_set_other_key].
        destruct (rewritten rk) as [rk1|], (occurrences k done) as [|[|m]];
          destruct Hinv as [Hs Hm]; (split; [exact Hs|]);
          by rewrite ?Map_set_other_key, ?Map_set_other.
    + destruct Hres as [Hstore Hsaved]. exists r1. split; [exact Hstore|].
      rewrite Hrw1. split; [by apply Map_set_NoDup|]. intros k.
      destruct (decide (k = result)) as [->|Hk].
      * rewrite Hr0, Hrw, Hhere, lookup_insert_eq. split; [done|apply Map_set_here].
      * rewrite (Hother k Hk), lookup_insert_ne by done. specialize (Hinv k).
        destruct (store0 !! k) as [rk|]; [|by rewrite Map_set_other_key].
        destruct (rewritten rk) as [rk1|], (occurrences k done) as [|[|m]];
          destruct Hinv as [Hs Hm]; (split; [exact Hs|]);
          by rewrite ?Map_set_other_key, ?Map_set_other.
    + destruct Hres as [Hstore Hsaved]. exists r1. split; [exact Hstore|].
      rewrite Hrw1. split; [by apply Map_set_NoDup|]. intros k.
      destruct (decide (k = result)) as [->|Hk].
      * rewrite Hr0, Hrw, Hhere, lookup_insert_eq. split; [done|apply Map_set_here].
      * rewrite (Hother k Hk), lookup_insert_ne by done. specialize (Hinv k).
        destruct (store0 !! k) as [rk|]; [|by rewrite Map_set_other_key].
        destruct (rewritten rk) as [rk1|], (occurrences k done) as [|[|m]];
          destruct Hinv as [Hs Hm]; (split; [exact Hs|]);
          by rewrite ?Map_set_other_key, ?Map_set_other.
  - assert (Hstore : store !! result = Some r0)
      by (by destruct (occurrences result done) as [|[|n]]; destruct Hres).
    exists r0. split; [exact Hstore|]. rewrite Hrw. split; [exact Hnd|]. intros k.
    destruct (decide (k = result)) as [->|Hk].
    + rewrite Hr0, Hrw. by destruct (occurrences result done) as [|[|n]]; destruct Hres.
    + rewrite (Hother k Hk). apply Hinv.
Qed.

Lemma rewriteDescriptions_rewriting store0 results :
  ∀ done (store : gmap nat Result) saved,
    rewriting store0 done store saved →
    (∀ result, result ∈ results → is_Some (store0 !! result)) →
    ∃ store' saved',
      rewriteDescriptions results store saved = Some (store', saved')
      ∧ rewriting store0 (done ++ results) store' saved'.
Proof.
  induction results as [|result rest IH]; intros done store saved Hinv Hin.
  - exists store, saved. by rewrite app_nil_r.
  - destruct (Hin result) as [r0 Hr0]; [by left|].
    destruct (rewriting_round _ _ _ _ _ _ Hinv Hr0) as (r & Hr & Hround).
    simpl. rewrite Hr.
    replace (done ++ result :: rest) with ((done ++ [result]) ++ rest)
      by by rewrite <- app_assoc.
    destruct (rewritten r) as [r1|] eqn:Hrw.
    + destruct (rewritten_Some _ _ Hrw) as (q & -> & -> & -> & _).
      apply IH; [exact Hround|]. intros other Ho. apply Hin. by right.
    + unfold rewritten in Hrw. destruct (flags r) as [q|].
      * destruct (negb (quantity q =? 0)); [discriminate|].
        apply IH; [exact Hround|]. intros other Ho. apply Hin. by right.
      * apply IH; [exact Hround|]. intros other Ho. apply Hin. by right.
Qed.

Lemma rewriting_start (store : gmap nat Result) : rewriting store [] store [].
Proof.
  split; [apply NoDup_nil_2|]. intros k. destruct (store !! k) as [r|].
  - destruct (rewritten r); split; try done; apply not_elem_of_nil.
  - split; [done|apply not_elem_of_nil].
Qed.

End Beta2Facts.

(** X18.  The chat rewrite of version 1.0.0-beta.2 puts a description back
    only for a result that occurs once in the list.  After the two loops
    every result is as it was, except each result that carries a quantity
    and occurs more than once in the list: for it the later pass saves the
    already rewritten description over the original, and the result keeps
    the rewritten text.  So a list of distinct results leaves the store as
    it was. *)
Theorem descriptions_restored_unless_repeated results (store : gmap nat Beta2.Result) :
  (∀ result, result ∈ results → is_Some (store !! result)) →
  ∃ store',
    Beta2.rewriteAndRestore results store = Some store'
    ∧ (∀ result,
         store' !! result
         = match store !! result with
           | Some r =>
               match Beta2.rewritten r with
               | Some r1 =>
                   if (2 <=? Beta2.occurrences result results)%nat
                   then Some r1 else Some r
               | None => Some r
               end
           | None => None
           end)
    ∧ (NoDup results → store' = store).
Proof.
  intros Hin. unfold Beta2.rewriteAndRestore.
  destruct (Beta2Facts.rewriteDescriptions_rewriting store results [] store []
              (Beta2Facts.rewriting_start store) Hin)
    as (store1 & saved1 & -> & Hnd & Hinv).
  simpl in Hinv.
  assert (Hall : ∀ result,
            Beta2.restoreDescriptions saved1 store1 !! result
            = match store !! result with
              | Some r =>
                  match Beta2.rewritten r with
                  | Some r1 =>
                      if (2 <=? Beta2.occurrences result results)%nat
                      then Some r1 else Some r
                  | None => Some r
                  end
              | None => None
              end).
  { intros k. specialize (Hinv k). destruct (store !! k) as [r0|].
    - destruct (Beta2.rewritten r0) as [r1|] eqn:Hrw.
      + destruct (Beta2Facts.rewritten_Some _ _ Hrw) as (q & _ & _ & _ & _ & _ & Hback).
        destruct (Beta2.occurrences k results) as [|[|n]]; destruct Hinv as [Hs Hm].
        * by rewrite Beta2Facts.restoreDescriptions_lookup.
        * rewrite (Beta2Facts.restoreDescriptions_saved _ _ _ _ Hnd Hm), Hs. simpl.
          by rewrite Hback.
        * rewrite (Beta2Facts.restoreDescriptions_saved _ _ _ _ Hnd Hm), Hs. simpl.
          by destruct r1.
      + assert (Hs : store1 !! k = Some r0 ∧ k ∉ saved1.*1)
          by (by destruct (Beta2.occurrences k results) as [|[|n]]).
        destruct Hs as [Hs Hm]. by rewrite Beta2Facts.restoreDescriptions_lookup.
    - destruct Hinv as [Hs Hm]. by rewrite Beta2Facts.restoreDescriptions_lookup. }
  eexists. split; [reflexivity|]. split; [exact Hall|].
  intros Hdistinct. apply map_eq. intros k. rewrite Hall.
  destruct (store !! k) as [r0|]; [|done].
  destruct (Beta2.rewritten r0) as [r1|]; [|done].
  pose proof (Beta2Facts.occurrences_NoDup k results Hdistinct) as Hle.
  destruct (Nat.leb_spec 2 (Beta2.occurrences k results)); [lia|done].
Qed.

Lemma descriptions_restored_unless_repeated_witness :
  let torch :=
    Beta2.mkResult (Some "[[/r 1d4]]")
      (Some (Beta2.mkQtyData 3 "Item.abc" "Torch" (Some "[[/r 1d4]]"))) in
  let nail := Beta2.mkResult (Some "A rusty nail") None in
  let store : gmap nat Beta2.Result := {[1%nat := torch; 2%nat := nail]} in
  Beta2.rewriteAndRestore [1; 2]%nat store = Some store
  ∧ Beta2.rewriteAndRestore [1; 2; 1]%nat store
    = Some (<[1%nat := Beta2.mkResult (Some "3x @UUID[Item.abc]{Torch}")
                         (Some (Beta2.mkQtyData 3 "Item.abc" "Torch" (Some "[[/r 1d4]]")))]>
              store).
Proof.
  intros torch nail store.
  assert (Hin : ∀ results result,
            Forall (fun r => r = 1%nat ∨ r = 2%nat) results →
            result ∈ results → is_Some (store !! result)).
  { intros results result Hall Hr. rewrite Forall_forall in Hall.
    destruct (Hall result Hr) as [-> | ->]; [by exists torch|by exists nail]. }
  split.
  - destruct (descriptions_restored_unless_repeated [1; 2]%nat store)
      as (store' & -> & _ & Hsame).
    { intros result. apply Hin.
      repeat first [apply Forall_nil_2 | apply Forall_cons_2; [first [by left|by right]|]]. }
    f_equal. apply Hsame.
    apply NoDup_cons. split; [by intros ?%list_elem_of_singleton|apply NoDup_singleton].
  - destruct (descriptions_restored_unless_repeated [1; 2; 1]%nat store)
      as (store' & -> & Hall & _).
    { intros result. apply Hin.
      repeat first [apply Forall_nil_2 | apply Forall_cons_2; [first [by left|by right]|]]. }
    f_equal. apply map_eq. intros k. rewrite Hall.
    destruct (decide (k = 1%nat)) as [->|Hk]; [vm_compute; reflexivity|].
    rewrite lookup_insert_ne by done.
    destruct (decide (k = 2%nat)) as [->|Hk2]; [vm_compute; reflexivity|].
    assert (Hnone : store !! k = None).
    { subst store. rewrite lookup_insert_ne by done. by apply lookup_singleton_ne. }
    by rewrite Hnone.
Defined.
